(** * OrionTV: multi-source resolution and failover core

    A shallow embedding of the two stores of [stores/playerStore.ts]
    (the player store and the detail store that follows it in the same
    file) together with the properties of source selection, probing,
    fail-over, progress persistence and buffering escalation.

    Conventions of the embedding.
    - JavaScript numbers that hold indices, counters and millisecond
      clocks are [Z]; [undefined]-able numbers are [option Z], and the
      JavaScript truthiness of such a value is [truthyZ].
    - Strings are [string] and hold the UTF-8 encoding of the
      JavaScript string (a lone surrogate as its three bytes).  The
      functions that JavaScript defines on code units or code points
      ([trim], [substring]) go through [codePoints].
    - [Set<string>] is [gset string], [Map<string, _>] is [gmap string _].
    - The composite score of a source is computed in binary64, as the
      JavaScript engine does, through the Standard Library's executable
      IEEE-754 specification ([SpecFloat]).
    - Asynchronous functions are embedded as atomic transitions
      ([handleVideoError] also in two parts, around its [await]); what
      the outside world answers (HTTP fetches, the favourite look-up,
      the m3u8 inspector) is an explicit [Env] argument, and what the
      code does to the outside world is appended to an effect log. *)

From Stdlib Require Import ZArith List String Ascii Bool Lia SpecFloat.
From stdpp Require Import gmap strings list fin_maps pretty.

#[local] Open Scope string_scope.
#[local] Open Scope Z_scope.

(** ** JavaScript values *)

Definition truthyZ (o : option Z) : bool :=
  match o with
  | Some z => negb (z =? 0)
  | None => false
  end.

(** [a || b] on possibly-undefined numbers. *)
Definition orZ (a b : option Z) : option Z :=
  if truthyZ a then a else b.

(** [arr[i]] for a JavaScript number [i]: [undefined] out of range. *)
Definition nthZ {A : Type} (l : list A) (i : Z) : option A :=
  if i <? 0 then None else l !! Z.to_nat i.

(** [arr.length] as a JavaScript number. *)
Definition lengthZ {A : Type} (l : list A) : Z := Z.of_nat (length l).

(** [s.includes(needle)] *)
Fixpoint includes (needle s : string) : bool :=
  String.prefix needle s
  || match s with
     | EmptyString => false
     | String _ s' => includes needle s'
     end.

(** [s.endsWith(suffix)] *)
Fixpoint endsWith (suffix s : string) : bool :=
  String.eqb s suffix
  || match s with
     | EmptyString => false
     | String _ s' => endsWith suffix s'
     end.

(** *** Code points *)

Definition bytes (l : list N) : string :=
  string_of_list_ascii (map ascii_of_N l).

Definition isContinuation (c : ascii) : bool :=
  ((128 <=? N_of_ascii c) && (N_of_ascii c <=? 191))%N.

(** The number of bytes of the code point at the head of [String c1 s1]:
    one for an ASCII character, and for a byte that starts no
    well-formed sequence. *)
Definition sequenceLength (c1 : ascii) (s1 : string) : nat :=
  let n1 := N_of_ascii c1 in
  if (n1 <? 194)%N then 1%nat
  else
    match s1 with
    | String c2 s2 =>
        let n2 := N_of_ascii c2 in
        if ((n1 <=? 223) && isContinuation c2)%N then 2%nat
        else
          match s2 with
          | String c3 s3 =>
              if ((224 <=? n1) && (n1 <=? 239)
                  && isContinuation c2 && isContinuation c3
                  && negb ((n1 =? 224) && (n2 <? 160)))%N
              then 3%nat
              else
                match s3 with
                | String c4 _ =>
                    if ((240 <=? n1) && (n1 <=? 244)
                        && isContinuation c2 && isContinuation c3 && isContinuation c4
                        && negb ((n1 =? 240) && (n2 <? 144))
                        && negb ((n1 =? 244) && (143 <? n2)))%N
                    then 4%nat
                    else 1%nat
                | EmptyString => 1%nat
                end
          | EmptyString => 1%nat
          end
    | EmptyString => 1%nat
    end.

(** The string cut into its code points, each as the bytes that encode
    it. *)
Fixpoint codePoints (s : string) : list string :=
  match s with
  | EmptyString => []
  | String c1 s1 =>
      match sequenceLength c1 s1, s1 with
      | 2%nat, String c2 s2 =>
          String c1 (String c2 EmptyString) :: codePoints s2
      | 3%nat, String c2 (String c3 s3) =>
          String c1 (String c2 (String c3 EmptyString)) :: codePoints s3
      | 4%nat, String c2 (String c3 (String c4 s4)) =>
          String c1 (String c2 (String c3 (String c4 EmptyString))) :: codePoints s4
      | _, _ => String c1 EmptyString :: codePoints s1
      end
  end.

Definition joinCodePoints (l : list string) : string :=
  fold_right String.append EmptyString l.

Fixpoint dropWhile {A : Type} (f : A -> bool) (l : list A) : list A :=
  match l with
  | [] => []
  | x :: l' => if f x then dropWhile f l' else l
  end.

(** What [String.prototype.trim] strips: the code points of WhiteSpace
    and of LineTerminator, here in UTF-8.  In this order: U+0009 to
    U+000D, U+0020, U+00A0, U+1680, U+2000 to U+200A, U+2028, U+2029,
    U+202F, U+205F, U+3000, U+FEFF. *)
Definition whiteSpace : list string :=
  [bytes [9]; bytes [10]; bytes [11]; bytes [12]; bytes [13]; bytes [32];
   bytes [194; 160];
   bytes [225; 154; 128];
   bytes [226; 128; 128]; bytes [226; 128; 129]; bytes [226; 128; 130];
   bytes [226; 128; 131]; bytes [226; 128; 132]; bytes [226; 128; 133];
   bytes [226; 128; 134]; bytes [226; 128; 135]; bytes [226; 128; 136];
   bytes [226; 128; 137]; bytes [226; 128; 138];
   bytes [226; 128; 168]; bytes [226; 128; 169];
   bytes [226; 128; 175];
   bytes [226; 129; 159];
   bytes [227; 128; 128];
   bytes [239; 187; 191]]%N.

Definition isWhiteSpace (codePoint : string) : bool :=
  existsb (String.eqb codePoint) whiteSpace.

(** [s.trim()] *)
Definition trim (s : string) : string :=
  let fromStart := dropWhile isWhiteSpace (codePoints s) in
  joinCodePoints (rev (dropWhile isWhiteSpace (rev fromStart))).

(** The high surrogate of a code point above U+FFFF, given by the four
    bytes that encode it, as its own three bytes. *)
Definition highSurrogate (codePoint : string) : string :=
  match map N_of_ascii (list_ascii_of_string codePoint) with
  | [b1; b2; b3; b4] =>
      let cp := ((b1 mod 8) * 262144 + (b2 mod 64) * 4096
                 + (b3 mod 64) * 64 + b4 mod 64)%N in
      let hi := (55296 + (cp - 65536) / 1024)%N in
      bytes [237; 128 + (hi / 64) mod 64; 128 + hi mod 64]%N
  | _ => codePoint
  end.

(** The first [n] code units of the code points: a code point of four
    bytes is two code units, and is cut to its high surrogate when only
    one is left. *)
Fixpoint takeCodeUnits (n : nat) (l : list string) : list string :=
  match n, l with
  | O, _ => []
  | _, [] => []
  | S n', codePoint :: l' =>
      if (String.length codePoint =? 4)%nat then
        match n' with
        | O => [highSurrogate codePoint]
        | S n'' => codePoint :: takeCodeUnits n'' l'
        end
      else codePoint :: takeCodeUnits n' l'
  end.

(** [s.substring(0, n)] *)
Definition substring0 (n : nat) (s : string) : string :=
  joinCodePoints (takeCodeUnits n (codePoints s)).

(** ** Data model *)

(** [interface Episode] *)
Record Episode := mkEpisode {
  ep_url : string;
  ep_title : string
}.

(** [SearchResultWithResolution]: a search result of one source, with
    the detected resolution and the measured latency. *)
Record SearchResult := mkSearchResult {
  sr_id : Z;
  sr_title : string;
  sr_poster : string;
  sr_year : string;
  sr_source : string;
  sr_source_name : string;
  sr_episodes : list string;
  sr_resolution : option string;
  sr_networkSpeed : option Z;
  sr_lastSpeedTest : option Z
}.

(** An entry of [DetailState.sources]. *)
Record SourceInfo := mkSourceInfo {
  si_source : string;
  si_source_name : string;
  si_resolution : option string;
  si_networkSpeed : option Z
}.

(** [interface DetailState], without the abort controller. *)
Record DetailState := mkDetailState {
  q : option string;
  searchResults : list SearchResult;
  sources : list SourceInfo;
  detail : option SearchResult;
  loading : bool;
  error : option string;
  allSourcesLoaded : bool;
  isFavorited : bool;
  failedSources : gset string
}.

(** [AVPlaybackStatus]: the loaded and the not-loaded variant. *)
Record LoadedStatus := mkLoaded {
  isPlaying : bool;
  isBuffering : bool;
  positionMillis : Z;
  durationMillis : option Z;
  didJustFinish : bool
}.

Inductive AVPlaybackStatus :=
| NotLoaded (err : option string)
| Loaded (s : LoadedStatus).

(** An entry of [_cachedSources]. *)
Record CachedSource := mkCachedSource {
  cs_url : string;
  cs_timestamp : Z;
  cs_responseTime : Z
}.

(** [interface PlayerState]: the fields the store's logic reads or
    writes.  The modal and overlay flags, the seek and progress
    fractions and the playback rate, which only the user interface
    reads, are left out; so are the video reference, whose calls appear
    in the effect log, and the abort controller of the probe, which
    only matters when two probes overlap. *)
Record PlayerState := mkPlayerState {
  currentEpisodeIndex : Z;
  episodes : list Episode;
  status : option AVPlaybackStatus;
  isLoading : bool;
  initialPosition : Z;
  introEndTime : option Z;
  outroStartTime : option Z;
  isUserPaused : bool;
  _isRecordSaveThrottled : bool;
  _bufferingStartTime : option Z;
  _bufferingTimeout : option nat;
  _bufferingRetryCount : Z;
  _preloadingEpisode : option string;
  _lastSeekTime : option Z;
  _cachedSources : gmap string CachedSource
}.

(** ** [selectCurrentEpisode] *)

Definition selectCurrentEpisode (state : PlayerState) : option Episode :=
  if (0 <? lengthZ (episodes state))
     && (0 <=? currentEpisodeIndex state)
     && (currentEpisodeIndex state <? lengthZ (episodes state))
  then
    match nthZ (episodes state) (currentEpisodeIndex state) with
    | Some episode =>
        if negb (String.eqb (ep_url episode) "")
           && negb (String.eqb (trim (ep_url episode)) "")
        then Some episode
        else None
    | None => None
    end
  else None.

(** ** Ranking and selection: [getNextAvailableSource] *)

Module Float.
(** binary64 *)
Definition prec : Z := 53.
Definition emax : Z := 1024.

Definition ofZ (z : Z) : spec_float := binary_normalize prec emax z 0 false.
Definition mul : spec_float -> spec_float -> spec_float := SFmul prec emax.
Definition add : spec_float -> spec_float -> spec_float := SFadd prec emax.
Definition sub : spec_float -> spec_float -> spec_float := SFsub prec emax.
Definition ltb : spec_float -> spec_float -> bool := SFltb.

(** The literals [0.6] and [0.4], rounded to nearest. *)
Definition c0_6 : spec_float := S754_finite false 5404319552844595 (-53).
Definition c0_4 : spec_float := S754_finite false 7205759403792794 (-54).
Definition zero : spec_float := S754_zero false.
End Float.

(** [resolutionPriority] of the comparator. *)
Definition resolutionPriority (res : string) : Z :=
  if includes "1080" res then 4
  else if includes "720" res then 3
  else if includes "480" res then 2
  else if includes "360" res then 1
  else 0.

(** [speedScore] of the comparator; [None] is a speed that is not a
    number (not measured).  Latencies are whole milliseconds: the
    thresholds are integers, so the fraction of a measured latency
    does not change its score. *)
Definition speedScore (speed : option Z) : Z :=
  match speed with
  | None => 3
  | Some speed =>
      if speed <? 300 then 0
      else if speed <? 600 then 1
      else if speed <? 1000 then 2
      else if speed <? 2000 then 3
      else 4
  end.

(** [aTotalScore]: [resolutionPriority(a.resolution || '') * 0.6 +
    (4 - speedScore(a.networkSpeed)) * 0.4]. *)
Definition totalScore (a : SearchResult) : spec_float :=
  let aResolution := default "" (sr_resolution a) in
  let aSpeedScore := speedScore (sr_networkSpeed a) in
  let aResolutionValue := Float.mul (Float.ofZ (resolutionPriority aResolution)) Float.c0_6 in
  let aSpeedValue := Float.mul (Float.ofZ (4 - aSpeedScore)) Float.c0_4 in
  Float.add aResolutionValue aSpeedValue.

(** The comparator handed to [sort]: [bTotalScore - aTotalScore]. *)
Definition compareSources (a b : SearchResult) : spec_float :=
  Float.sub (totalScore b) (totalScore a).

(** [Array.prototype.sort] with a comparator: a stable sort that puts
    [b] before [a] only when [cmp a b > 0]. *)
Section Sort.
Context {A : Type} (cmp : A -> A -> spec_float).

Fixpoint insertSorted (x : A) (l : list A) : list A :=
  match l with
  | [] => [x]
  | y :: l' =>
      if Float.ltb Float.zero (cmp x y) then y :: insertSorted x l'
      else x :: l
  end.

Definition sortWith (l : list A) : list A := foldr insertSorted [] l.
End Sort.

(** The filter of [getNextAvailableSource]. *)
Definition isAvailable (currentSource : string) (episodeIndex : Z)
    (failed : gset string) (result : SearchResult) : bool :=
  negb (String.eqb (sr_source result) currentSource)
  && negb (bool_decide (sr_source result ∈ failed))
  && (episodeIndex <? lengthZ (sr_episodes result)).

Definition availableSources (currentSource : string) (episodeIndex : Z)
    (st : DetailState) : list SearchResult :=
  List.filter (isAvailable currentSource episodeIndex (failedSources st))
              (searchResults st).

(** The sources whose latency [getNextAvailableSource] asks to measure
    in the background; the measurements complete later and do not
    change the value returned. *)
Definition needsSpeedTest (now : Z) (r : SearchResult) : bool :=
  negb (truthyZ (sr_networkSpeed r))
  || negb (truthyZ (sr_lastSpeedTest r))
  || match sr_lastSpeedTest r with
     | Some t => 10 * 60 * 1000 <? now - t
     | None => false
     end.

Definition getNextAvailableSource (currentSource : string) (episodeIndex : Z)
    (st : DetailState) : option SearchResult :=
  let available := availableSources currentSource episodeIndex st in
  match available with
  | [] => None
  | _ => head (sortWith compareSources available)
  end.

(** *** The selection the specification describes

    The following three definitions follow the words of the
    specification (section 4.2), not the code: real-valued scores
    (scaled by ten to stay in [Z]), the latency bucket capped at three,
    and the first candidate of highest score. *)

Definition spec_resolutionTier (res : option string) : Z :=
  match res with
  | Some r =>
      if String.eqb r "1080p" then 4
      else if String.eqb r "720p" then 3
      else if String.eqb r "480p" then 2
      else if String.eqb r "360p" then 1
      else 0
  | None => 0
  end.

Definition spec_latencyBucket (latency : option Z) : Z :=
  match latency with
  | Some ms =>
      if ms <? 300 then 0
      else if ms <? 600 then 1
      else if ms <? 1000 then 2
      else if ms <? 2000 then 3
      else 3
  | None => 3
  end.

(** Ten times [0.6 * resolutionTier + 0.4 * (4 - latencyBucket)]. *)
Definition spec_score10 (c : SearchResult) : Z :=
  6 * spec_resolutionTier (sr_resolution c)
  + 4 * (4 - spec_latencyBucket (sr_networkSpeed c)).

(** The first element of highest score. *)
Fixpoint firstMaxBy {A : Type} (score : A -> Z) (l : list A) : option A :=
  match l with
  | [] => None
  | x :: l' =>
      match firstMaxBy score l' with
      | Some y => if score x <? score y then Some y else Some x
      | None => Some x
      end
  end.

Definition spec_selectFallback (excludeSourceId : string) (episodeIndex : Z)
    (st : DetailState) : option SearchResult :=
  firstMaxBy spec_score10 (availableSources excludeSourceId episodeIndex st).

(** Ten times the real-valued score of the code's own tiers and
    buckets. *)
Definition exactScore10 (c : SearchResult) : Z :=
  6 * resolutionPriority (default "" (sr_resolution c))
  + 4 * (4 - speedScore (sr_networkSpeed c)).

(** ** Store updates

    [set({ field: v })] of zustand, one function per field. *)

Definition set_currentEpisodeIndex v (r : PlayerState) : PlayerState :=
  mkPlayerState v (episodes r) (status r) (isLoading r) (initialPosition r) (introEndTime r) (outroStartTime r) (isUserPaused r) (_isRecordSaveThrottled r) (_bufferingStartTime r) (_bufferingTimeout r) (_bufferingRetryCount r) (_preloadingEpisode r) (_lastSeekTime r) (_cachedSources r).

Definition set_episodes v (r : PlayerState) : PlayerState :=
  mkPlayerState (currentEpisodeIndex r) v (status r) (isLoading r) (initialPosition r) (introEndTime r) (outroStartTime r) (isUserPaused r) (_isRecordSaveThrottled r) (_bufferingStartTime r) (_bufferingTimeout r) (_bufferingRetryCount r) (_preloadingEpisode r) (_lastSeekTime r) (_cachedSources r).

Definition set_status v (r : PlayerState) : PlayerState :=
  mkPlayerState (currentEpisodeIndex r) (episodes r) v (isLoading r) (initialPosition r) (introEndTime r) (outroStartTime r) (isUserPaused r) (_isRecordSaveThrottled r) (_bufferingStartTime r) (_bufferingTimeout r) (_bufferingRetryCount r) (_preloadingEpisode r) (_lastSeekTime r) (_cachedSources r).

Definition set_isLoading v (r : PlayerState) : PlayerState :=
  mkPlayerState (currentEpisodeIndex r) (episodes r) (status r) v (initialPosition r) (introEndTime r) (outroStartTime r) (isUserPaused r) (_isRecordSaveThrottled r) (_bufferingStartTime r) (_bufferingTimeout r) (_bufferingRetryCount r) (_preloadingEpisode r) (_lastSeekTime r) (_cachedSources r).

Definition set_initialPosition v (r : PlayerState) : PlayerState :=
  mkPlayerState (currentEpisodeIndex r) (episodes r) (status r) (isLoading r) v (introEndTime r) (outroStartTime r) (isUserPaused r) (_isRecordSaveThrottled r) (_bufferingStartTime r) (_bufferingTimeout r) (_bufferingRetryCount r) (_preloadingEpisode r) (_lastSeekTime r) (_cachedSources r).

Definition set_introEndTime v (r : PlayerState) : PlayerState :=
  mkPlayerState (currentEpisodeIndex r) (episodes r) (status r) (isLoading r) (initialPosition r) v (outroStartTime r) (isUserPaused r) (_isRecordSaveThrottled r) (_bufferingStartTime r) (_bufferingTimeout r) (_bufferingRetryCount r) (_preloadingEpisode r) (_lastSeekTime r) (_cachedSources r).

Definition set_outroStartTime v (r : PlayerState) : PlayerState :=
  mkPlayerState (currentEpisodeIndex r) (episodes r) (status r) (isLoading r) (initialPosition r) (introEndTime r) v (isUserPaused r) (_isRecordSaveThrottled r) (_bufferingStartTime r) (_bufferingTimeout r) (_bufferingRetryCount r) (_preloadingEpisode r) (_lastSeekTime r) (_cachedSources r).

Definition set_isUserPaused v (r : PlayerState) : PlayerState :=
  mkPlayerState (currentEpisodeIndex r) (episodes r) (status r) (isLoading r) (initialPosition r) (introEndTime r) (outroStartTime r) v (_isRecordSaveThrottled r) (_bufferingStartTime r) (_bufferingTimeout r) (_bufferingRetryCount r) (_preloadingEpisode r) (_lastSeekTime r) (_cachedSources r).

Definition set__isRecordSaveThrottled v (r : PlayerState) : PlayerState :=
  mkPlayerState (currentEpisodeIndex r) (episodes r) (status r) (isLoading r) (initialPosition r) (introEndTime r) (outroStartTime r) (isUserPaused r) v (_bufferingStartTime r) (_bufferingTimeout r) (_bufferingRetryCount r) (_preloadingEpisode r) (_lastSeekTime r) (_cachedSources r).

Definition set__bufferingStartTime v (r : PlayerState) : PlayerState :=
  mkPlayerState (currentEpisodeIndex r) (episodes r) (status r) (isLoading r) (initialPosition r) (introEndTime r) (outroStartTime r) (isUserPaused r) (_isRecordSaveThrottled r) v (_bufferingTimeout r) (_bufferingRetryCount r) (_preloadingEpisode r) (_lastSeekTime r) (_cachedSources r).

Definition set__bufferingTimeout v (r : PlayerState) : PlayerState :=
  mkPlayerState (currentEpisodeIndex r) (episodes r) (status r) (isLoading r) (initialPosition r) (introEndTime r) (outroStartTime r) (isUserPaused r) (_isRecordSaveThrottled r) (_bufferingStartTime r) v (_bufferingRetryCount r) (_preloadingEpisode r) (_lastSeekTime r) (_cachedSources r).

Definition set__bufferingRetryCount v (r : PlayerState) : PlayerState :=
  mkPlayerState (currentEpisodeIndex r) (episodes r) (status r) (isLoading r) (initialPosition r) (introEndTime r) (outroStartTime r) (isUserPaused r) (_isRecordSaveThrottled r) (_bufferingStartTime r) (_bufferingTimeout r) v (_preloadingEpisode r) (_lastSeekTime r) (_cachedSources r).

Definition set__preloadingEpisode v (r : PlayerState) : PlayerState :=
  mkPlayerState (currentEpisodeIndex r) (episodes r) (status r) (isLoading r) (initialPosition r) (introEndTime r) (outroStartTime r) (isUserPaused r) (_isRecordSaveThrottled r) (_bufferingStartTime r) (_bufferingTimeout r) (_bufferingRetryCount r) v (_lastSeekTime r) (_cachedSources r).

Definition set__lastSeekTime v (r : PlayerState) : PlayerState :=
  mkPlayerState (currentEpisodeIndex r) (episodes r) (status r) (isLoading r) (initialPosition r) (introEndTime r) (outroStartTime r) (isUserPaused r) (_isRecordSaveThrottled r) (_bufferingStartTime r) (_bufferingTimeout r) (_bufferingRetryCount r) (_preloadingEpisode r) v (_cachedSources r).

Definition set__cachedSources v (r : PlayerState) : PlayerState :=
  mkPlayerState (currentEpisodeIndex r) (episodes r) (status r) (isLoading r) (initialPosition r) (introEndTime r) (outroStartTime r) (isUserPaused r) (_isRecordSaveThrottled r) (_bufferingStartTime r) (_bufferingTimeout r) (_bufferingRetryCount r) (_preloadingEpisode r) (_lastSeekTime r) v.

Definition set_q v (r : DetailState) : DetailState :=
  mkDetailState v (searchResults r) (sources r) (detail r) (loading r) (error r) (allSourcesLoaded r) (isFavorited r) (failedSources r).

Definition set_searchResults v (r : DetailState) : DetailState :=
  mkDetailState (q r) v (sources r) (detail r) (loading r) (error r) (allSourcesLoaded r) (isFavorited r) (failedSources r).

Definition set_sources v (r : DetailState) : DetailState :=
  mkDetailState (q r) (searchResults r) v (detail r) (loading r) (error r) (allSourcesLoaded r) (isFavorited r) (failedSources r).

Definition set_detail v (r : DetailState) : DetailState :=
  mkDetailState (q r) (searchResults r) (sources r) v (loading r) (error r) (allSourcesLoaded r) (isFavorited r) (failedSources r).

Definition set_loading v (r : DetailState) : DetailState :=
  mkDetailState (q r) (searchResults r) (sources r) (detail r) v (error r) (allSourcesLoaded r) (isFavorited r) (failedSources r).

Definition set_error v (r : DetailState) : DetailState :=
  mkDetailState (q r) (searchResults r) (sources r) (detail r) (loading r) v (allSourcesLoaded r) (isFavorited r) (failedSources r).

Definition set_allSourcesLoaded v (r : DetailState) : DetailState :=
  mkDetailState (q r) (searchResults r) (sources r) (detail r) (loading r) (error r) v (isFavorited r) (failedSources r).

Definition set_isFavorited v (r : DetailState) : DetailState :=
  mkDetailState (q r) (searchResults r) (sources r) (detail r) (loading r) (error r) (allSourcesLoaded r) v (failedSources r).

Definition set_failedSources v (r : DetailState) : DetailState :=
  mkDetailState (q r) (searchResults r) (sources r) (detail r) (loading r) (error r) (allSourcesLoaded r) (isFavorited r) v.

(** ** The outside world *)

(** The outcome of one [fetch] raced against the seven-second timer:
    the response with the time it took, or a rejection (network error,
    abort). *)
Inductive FetchOutcome :=
| Responded (ok : bool) (httpStatus : Z) (elapsed : Z)
| Rejected.

(** What the collaborators answer.
    - [fetch now url]: the ranged GET of the probe;
    - [isFavoritedLookup source id]: [FavoriteManager.isFavorited],
      [None] when the promise rejects;
    - [getResolutionFromM3U8 url]: [None] when it throws;
    - [replayAsync now], [setPositionAsync now], [pauseAsync now] and
      [playAsync now]: whether the media layer accepts the command;
    - [detailInit title source id st]: the detail store as
      [DetailStore.init] leaves it, whose network fan-out is not
      embedded beyond [processAndSetResults]. *)
Record Env := mkEnv {
  fetch : Z -> string -> FetchOutcome;
  isFavoritedLookup : string -> Z -> option bool;
  getResolutionFromM3U8 : string -> option string;
  replayAsync : Z -> bool;
  setPositionAsync : Z -> bool;
  pauseAsync : Z -> bool;
  playAsync : Z -> bool;
  detailInit : string -> string -> string -> DetailState -> DetailState
}.

Inductive ErrorType := ssl | network | other.

(** What the code does to the outside world, most recent first. *)
Inductive Effect :=
| Toast (type text1 text2 : string)
| SeekTo (position : Z)
| Replay
| Pause
| Play
| Fetch (url range : string)
| SpeedTest (source : string)
| VideoErrorHandled (errorType : ErrorType) (failedUrl : string).

(** [PlayRecord] and the part of the player settings that [loadVideo]
    reads. *)
Record PlayRecord := mkPlayRecord {
  pr_title : string;
  pr_cover : string;
  pr_index : Z;
  pr_total_episodes : Z;
  pr_play_time : Z;
  pr_total_time : Z;
  pr_source_name : string;
  pr_year : string;
  pr_introEndTime : option Z;
  pr_outroStartTime : option Z
}.

Record PlayerSettings := mkPlayerSettings {
  ps_introEndTime : option Z;
  ps_outroStartTime : option Z
}.

(** Modelled from the spec: [PlayRecordManager] and
    [PlayerSettingsManager] of [services/storage] are not part of the
    source tree; the specification gives them a key/value contract,
    [get/save(sourceId, titleId, record)], so the storage is a pair of
    finite maps keyed by the source and the title id, [save] inserts
    and [get] looks up. *)
Record Storage := mkStorage {
  playRecords : gmap (string * Z) PlayRecord;
  playerSettings : gmap (string * Z) PlayerSettings
}.

Definition PlayRecordManager_save (source : string) (id : Z) (record : PlayRecord)
    (s : Storage) : Storage :=
  mkStorage (<[(source, id) := record]> (playRecords s)) (playerSettings s).

Definition PlayRecordManager_get (source : string) (id : Z) (s : Storage)
    : option PlayRecord :=
  playRecords s !! (source, id).

Definition PlayerSettingsManager_get (source : string) (id : Z) (s : Storage)
    : option PlayerSettings :=
  playerSettings s !! (source, id).

(** Pending [setTimeout] callbacks, each with the time it is due and
    what its closure captured. *)
Inductive Timer :=
| BufferingTimer (id : nat) (due : Z) (now : Z) (detail0 : option SearchResult)
    (currentEpisodeIndex0 : Z)
| ThrottleTimer (due : Z)
| PreloadNextTimer (due : Z) (episodeIndex : Z) (nextEpisodeUrl : string).

Definition timerDue (t : Timer) : Z :=
  match t with
  | BufferingTimer _ due _ _ _ => due
  | ThrottleTimer due => due
  | PreloadNextTimer due _ _ => due
  end.

(** The two stores, the storage, the pending timers and the effects so
    far. *)
Record World := mkWorld {
  player : PlayerState;
  detailStore : DetailState;
  storage : Storage;
  timers : list Timer;
  nextTimerId : nat;
  effects : list Effect
}.

Definition onPlayer (f : PlayerState -> PlayerState) (w : World) : World :=
  mkWorld (f (player w)) (detailStore w) (storage w) (timers w) (nextTimerId w) (effects w).

Definition onDetail (f : DetailState -> DetailState) (w : World) : World :=
  mkWorld (player w) (f (detailStore w)) (storage w) (timers w) (nextTimerId w) (effects w).

Definition onStorage (f : Storage -> Storage) (w : World) : World :=
  mkWorld (player w) (detailStore w) (f (storage w)) (timers w) (nextTimerId w) (effects w).

Definition emit (e : Effect) (w : World) : World :=
  mkWorld (player w) (detailStore w) (storage w) (timers w) (nextTimerId w) (e :: effects w).

Definition emitAll (es : list Effect) (w : World) : World :=
  foldl (fun w e => emit e w) w es.

(** [setTimeout]: the fresh identifier and the world with the timer
    pending. *)
Definition setTimeout (mk : nat -> Timer) (w : World) : nat * World :=
  (nextTimerId w,
   mkWorld (player w) (detailStore w) (storage w)
           (timers w ++ [mk (nextTimerId w)])%list (S (nextTimerId w)) (effects w)).

Definition isBufferingTimer (id : nat) (t : Timer) : bool :=
  match t with
  | BufferingTimer id' _ _ _ _ => Nat.eqb id id'
  | _ => false
  end.

(** [clearTimeout(id)] of a buffering timer; nothing happens when it
    has fired already. *)
Definition clearTimeout (id : nat) (w : World) : World :=
  mkWorld (player w) (detailStore w) (storage w)
          (List.filter (fun t => negb (isBufferingTimer id t)) (timers w))
          (nextTimerId w) (effects w).

(** ** The detail store *)

(** [episodesSelectorBySource] *)
Definition episodesSelectorBySource (source : string) (state : DetailState)
    : list string :=
  match List.find (fun r => String.eqb (sr_source r) source) (searchResults state) with
  | Some r => sr_episodes r
  | None => []
  end.

(** [markSourceAsFailed]; the reason is only logged. *)
Definition markSourceAsFailed (source : string) (st : DetailState) : DetailState :=
  set_failedSources ({[source]} ∪ failedSources st) st.

Definition withResolution (resolution : option string) (r : SearchResult) : SearchResult :=
  mkSearchResult (sr_id r) (sr_title r) (sr_poster r) (sr_year r) (sr_source r)
    (sr_source_name r) (sr_episodes r) resolution (sr_networkSpeed r) (sr_lastSpeedTest r).

(** The resolution probe of [processAndSetResults]: attempted on the
    first episode only, [undefined] when there is none or the
    inspector throws. *)
Definition detectResolution (env : Env) (searchResult : SearchResult) : SearchResult :=
  withResolution
    match sr_episodes searchResult with
    | url :: _ => getResolutionFromM3U8 env url
    | [] => None
    end
    searchResult.

Definition toSourceInfo (r : SearchResult) : SourceInfo :=
  mkSourceInfo (sr_source r) (sr_source_name r) (sr_resolution r) None.

(** [processAndSetResults] of [init]; [aborted] is [signal.aborted]
    when the resolutions have been detected. *)
Definition processAndSetResults (env : Env) (results : list SearchResult)
    (merge : bool) (aborted : bool) (state : DetailState) : DetailState :=
  let resultsWithResolution := map (detectResolution env) results in
  if aborted then state
  else
    let existingSources : gset string :=
      list_to_set (map sr_source (searchResults state)) in
    let newResults :=
      List.filter (fun r => negb (bool_decide (sr_source r ∈ existingSources)))
                  resultsWithResolution in
    let finalResults :=
      if merge then (searchResults state ++ newResults)%list
      else resultsWithResolution in
    set_searchResults finalResults
      (set_sources (map toSourceInfo finalResults)
         (set_detail
            match detail state with
            | Some d => Some d
            | None => head finalResults
            end
            state)).

(** [measureNetworkSpeed], when the HEAD request has answered after
    [latency] milliseconds: the store update of the measured source. *)
Definition recordNetworkSpeed (now : Z) (source : string) (latency : Z)
    (st : DetailState) : DetailState :=
  set_searchResults
    (map (fun item =>
            if String.eqb (sr_source item) source
            then mkSearchResult (sr_id item) (sr_title item) (sr_poster item) (sr_year item)
                   (sr_source item) (sr_source_name item) (sr_episodes item)
                   (sr_resolution item) (Some latency) (Some now)
            else item)
         (searchResults st))
    (set_sources
       (map (fun item =>
               if String.eqb (si_source item) source
               then mkSourceInfo (si_source item) (si_source_name item)
                      (si_resolution item) (Some latency)
               else item)
            (sources st))
       st).

(** [setDetail]: the detail is replaced before the favourite look-up is
    awaited; the boolean tells whether the look-up resolved. *)
Definition setDetail (env : Env) (d : SearchResult) (w : World) : bool * World :=
  let w1 := onDetail (set_detail (Some d)) w in
  match isFavoritedLookup env (sr_source d) (sr_id d) with
  | Some b => (true, onDetail (set_isFavorited b) w1)
  | None => (false, w1)
  end.

(** [getNextAvailableSource] as the stores call it: the value returned
    and the background speed tests it starts. *)
Definition selectNextSource (now : Z) (currentSource : string) (episodeIndex : Z)
    (w : World) : option SearchResult * World :=
  let st := detailStore w in
  let toMeasure :=
    List.filter (needsSpeedTest now) (availableSources currentSource episodeIndex st) in
  (getNextAvailableSource currentSource episodeIndex st,
   emitAll (map (fun r => SpeedTest (sr_source r)) toMeasure) w).

(** ** The player store *)

(** [episodes.map((ep, index) => ({ url: ep, title: `第 ${index + 1} 集` }))] *)
Definition mapEpisodes (eps : list string) : list Episode :=
  imap (fun index ep =>
          mkEpisode ep ("第 " +:+ pretty (Z.of_nat index + 1) +:+ " 集")) eps.

Definition cacheSource (url : string) (now responseTime : Z) (p : PlayerState)
    : PlayerState :=
  set__cachedSources (<[url := mkCachedSource url now responseTime]> (_cachedSources p)) p.

(** The network half of [_preloadAndTestSource]: one ranged GET, raced
    against a timer of 7000 ms.  Only a response that passes the status
    check is cached. *)
Definition probeSource (env : Env) (now : Z) (url : string) (w : World)
    : bool * World :=
  let isM3u8 := endsWith ".m3u8" url in
  let w1 := emit (Fetch url (if isM3u8 then "bytes=0-1023" else "bytes=0-4095")) w in
  match fetch env now url with
  | Responded ok httpStatus elapsed =>
      if 7000 <=? elapsed then (false, w1)
      else if (if isM3u8 then negb ok else negb ok && negb (httpStatus =? 206))
      then (false, w1)
      else (elapsed <? 4000, onPlayer (cacheSource url now elapsed) w1)
  | Rejected => (false, w1)
  end.

(** [_preloadAndTestSource] *)
Definition _preloadAndTestSource (env : Env) (now : Z) (url : string) (w : World)
    : bool * World :=
  match _cachedSources (player w) !! url with
  | Some cachedSource =>
      if now - cs_timestamp cachedSource <? 5 * 60 * 1000
      then (cs_responseTime cachedSource <? 3000, w)
      else probeSource env now url w
  | None => probeSource env now url w
  end.

(** The keys of [updates] that the store passes to [_savePlayRecord]:
    absent ([None]) or present with a possibly [undefined] value. *)
Record RecordUpdates := mkRecordUpdates {
  upd_introEndTime : option (option Z);
  upd_outroStartTime : option (option Z)
}.

Definition noUpdates : RecordUpdates := mkRecordUpdates None None.

(** [{ ...existingRecord, ...updates }] for one key. *)
Definition spread (existing : option Z) (update : option (option Z)) : option Z :=
  match update with
  | Some v => v
  | None => existing
  end.

(** [_savePlayRecord] *)
Definition _savePlayRecord (now : Z) (updates : RecordUpdates) (immediate : bool)
    (w : World) : World :=
  if negb immediate && _isRecordSaveThrottled (player w) then w
  else
    let w1 :=
      if immediate then w
      else snd (setTimeout (fun _ => ThrottleTimer (now + 10000))
                  (onPlayer (set__isRecordSaveThrottled true) w)) in
    match detail (detailStore w1), status (player w1) with
    | Some d, Some (Loaded st) =>
        let p := player w1 in
        onStorage
          (PlayRecordManager_save (sr_source d) (sr_id d)
             {| pr_title := sr_title d;
                pr_cover := sr_poster d;
                pr_index := currentEpisodeIndex p + 1;
                pr_total_episodes := lengthZ (episodes p);
                pr_play_time := positionMillis st / 1000;
                pr_total_time :=
                  match durationMillis st with
                  | Some dur => if dur =? 0 then 0 else dur / 1000
                  | None => 0
                  end;
                pr_source_name := sr_source_name d;
                pr_year := sr_year d;
                pr_introEndTime := spread (introEndTime p) (upd_introEndTime updates);
                pr_outroStartTime := spread (outroStartTime p) (upd_outroStartTime updates) |})
          w1
    | _, _ => w1
    end.

(** [setIntroEndTime] *)
Definition setIntroEndTime (now : Z) (w : World) : World :=
  match status (player w), detail (detailStore w) with
  | Some (Loaded st), Some _ =>
      if truthyZ (introEndTime (player w)) then
        emit (Toast "info" "已清除片头时间" "")
          (_savePlayRecord now (mkRecordUpdates (Some None) None) true
             (onPlayer (set_introEndTime None) w))
      else
        let newIntroEndTime := positionMillis st in
        emit (Toast "success" "设置成功" "片头时间已记录。")
          (_savePlayRecord now (mkRecordUpdates (Some (Some newIntroEndTime)) None) true
             (onPlayer (set_introEndTime (Some newIntroEndTime)) w))
  | _, _ => w
  end.

(** [setOutroStartTime] *)
Definition setOutroStartTime (now : Z) (w : World) : World :=
  match status (player w), detail (detailStore w) with
  | Some (Loaded st), Some _ =>
      if truthyZ (outroStartTime (player w)) then
        emit (Toast "info" "已清除片尾时间" "")
          (_savePlayRecord now (mkRecordUpdates None (Some None)) true
             (onPlayer (set_outroStartTime None) w))
      else
        match durationMillis st with
        | Some dur =>
            if dur =? 0 then w
            else
              let newOutroStartTime := dur - positionMillis st in
              emit (Toast "success" "设置成功" "片尾时间已记录。")
                (_savePlayRecord now
                   (mkRecordUpdates None (Some (Some newOutroStartTime))) true
                   (onPlayer (set_outroStartTime (Some newOutroStartTime)) w))
        | None => w
        end
  | _, _ => w
  end.

(** [playEpisode] *)
Definition playEpisode (env : Env) (now : Z) (index : Z) (w : World) : World :=
  if (0 <=? index) && (index <? lengthZ (episodes (player w))) then
    let w1 :=
      onPlayer (fun p => set_initialPosition 0 (set_currentEpisodeIndex index p)) w in
    let w2 := emit Replay w1 in
    if replayAsync env now then w2 else emit (Toast "error" "播放失败" "") w2
  else w.

Definition allSourcesUnavailable : Effect :=
  Toast "error" "播放失败" "所有播放源都不可用，请稍后重试".

Definition switchedSource (fallbackSource : SearchResult) : Effect :=
  Toast "success" "已切换播放源" ("正在使用 " +:+ sr_source_name fallbackSource).

(** [handleVideoError].  The log line after the remap reads
    [newEpisodes[currentEpisodeIndex]]: for a negative index it throws
    into the [catch], after the episodes are set and before the toast. *)
Definition handleVideoError (env : Env) (now : Z) (errorType : ErrorType)
    (failedUrl : string) (w : World) : World :=
  let w := emit (VideoErrorHandled errorType failedUrl) w in
  let currentEpisodeIndex0 := currentEpisodeIndex (player w) in
  let currentPosition :=
    match status (player w) with
    | Some (Loaded st) => positionMillis st
    | _ => 0
    end in
  match detail (detailStore w) with
  | None => onPlayer (set_isLoading false) w
  | Some d =>
      let currentSource := sr_source d in
      let w1 := onDetail (markSourceAsFailed currentSource) w in
      let (fallback, w2) := selectNextSource now currentSource currentEpisodeIndex0 w1 in
      match fallback with
      | None => onPlayer (set_isLoading false) (emit allSourcesUnavailable w2)
      | Some fallbackSource =>
          let (resolved, w3) := setDetail env fallbackSource w2 in
          if resolved then
            let newEpisodes := sr_episodes fallbackSource in
            if currentEpisodeIndex0 <? lengthZ newEpisodes then
              let w4 :=
                onPlayer
                  (fun p =>
                     set_isLoading false
                       (set_initialPosition currentPosition
                          (set_episodes (mapEpisodes newEpisodes) p)))
                  w3 in
              match nthZ newEpisodes currentEpisodeIndex0 with
              | Some _ => emit (switchedSource fallbackSource) w4
              | None => onPlayer (set_isLoading false) w4
              end
            else onPlayer (set_isLoading false) w3
          else onPlayer (set_isLoading false) w3
      end
  end.

(** What the continuation of [handleVideoError] holds while it awaits
    [setDetail]: the fallback and what was read before the [await]. *)
Record Suspended := mkSuspended {
  su_fallbackSource : SearchResult;
  su_currentEpisodeIndex : Z;
  su_currentPosition : Z
}.

(** [handleVideoError] up to the [await] inside [setDetail], which has
    replaced the detail already; [None] when the function has returned. *)
Definition handleVideoError_begin (now : Z) (errorType : ErrorType)
    (failedUrl : string) (w : World) : option Suspended * World :=
  let w := emit (VideoErrorHandled errorType failedUrl) w in
  let currentEpisodeIndex0 := currentEpisodeIndex (player w) in
  let currentPosition :=
    match status (player w) with
    | Some (Loaded st) => positionMillis st
    | _ => 0
    end in
  match detail (detailStore w) with
  | None => (None, onPlayer (set_isLoading false) w)
  | Some d =>
      let currentSource := sr_source d in
      let w1 := onDetail (markSourceAsFailed currentSource) w in
      let (fallback, w2) := selectNextSource now currentSource currentEpisodeIndex0 w1 in
      match fallback with
      | None => (None, onPlayer (set_isLoading false) (emit allSourcesUnavailable w2))
      | Some fallbackSource =>
          (Some (mkSuspended fallbackSource currentEpisodeIndex0 currentPosition),
           onDetail (set_detail (Some fallbackSource)) w2)
      end
  end.

(** [handleVideoError] from the [await] on, in the state of the stores
    at that time. *)
Definition handleVideoError_resume (env : Env) (k : Suspended) (w : World) : World :=
  let fallbackSource := su_fallbackSource k in
  match isFavoritedLookup env (sr_source fallbackSource) (sr_id fallbackSource) with
  | Some b =>
      let w3 := onDetail (set_isFavorited b) w in
      let newEpisodes := sr_episodes fallbackSource in
      if su_currentEpisodeIndex k <? lengthZ newEpisodes then
        let w4 :=
          onPlayer
            (fun p =>
               set_isLoading false
                 (set_initialPosition (su_currentPosition k)
                    (set_episodes (mapEpisodes newEpisodes) p)))
            w3 in
        match nthZ newEpisodes (su_currentEpisodeIndex k) with
        | Some _ => emit (switchedSource fallbackSource) w4
        | None => onPlayer (set_isLoading false) w4
        end
      else onPlayer (set_isLoading false) w3
  | None => onPlayer (set_isLoading false) w
  end.

(** The options of [loadVideo]. *)
Record LoadOptions := mkLoadOptions {
  lo_source : string;
  lo_id : string;
  lo_title : string;
  lo_episodeIndex : Z;
  lo_position : option Z
}.

(** [loadVideo], cached branch: the detail of the store is kept and
    its episodes are looked up again under its own source. *)
Definition resolveCached (o : LoadOptions) (d : SearchResult)
    (episodes0 : list string) (w1 : World)
    : option (SearchResult * list string) * World :=
  let eps :=
    if negb (String.eqb (sr_source d) "")
       && negb (String.eqb (sr_source d) (lo_source o))
    then
      let eps' := episodesSelectorBySource (sr_source d) (detailStore w1) in
      if lengthZ eps' =? 0
      then episodesSelectorBySource (lo_source o) (detailStore w1)
      else eps'
    else episodes0 in
  if lengthZ eps =? 0 then (None, onPlayer (set_isLoading false) w1)
  else (Some (d, eps), w1).

(** The branch of [loadVideo] that runs [DetailStore.init] first. *)
Definition resolveDetailAfterInit (env : Env) (o : LoadOptions) (w1 : World)
    : option (SearchResult * list string) * World :=
  let w2 := onDetail (detailInit env (lo_title o) (lo_source o) (lo_id o)) w1 in
  match detail (detailStore w2) with
  | None => (None, onPlayer (set_isLoading false) w2)
  | Some d =>
      let eps := episodesSelectorBySource (sr_source d) (detailStore w2) in
      if lengthZ eps =? 0 then
        match List.find (fun r => 0 <? lengthZ (sr_episodes r))
                        (searchResults (detailStore w2)) with
        | Some sourceWithEpisodes =>
            (Some (sourceWithEpisodes, sr_episodes sourceWithEpisodes), w2)
        | None => (None, onPlayer (set_isLoading false) w2)
        end
      else (Some (d, eps), w2)
  end.

(** The episodes [loadVideo] starts from. *)
Definition initialEpisodes (o : LoadOptions) (st : DetailState) : list string :=
  match detail st with
  | Some d =>
      if negb (String.eqb (sr_source d) "")
      then episodesSelectorBySource (sr_source d) st
      else episodesSelectorBySource (lo_source o) st
  | None => episodesSelectorBySource (lo_source o) st
  end.

(** What the preload block of [loadVideo] leaves: the detail and the
    episodes to go on with, or an exception that ends [loadVideo]. *)
Inductive PreloadResult :=
| Continue (detail : SearchResult) (episodes : list string) (w : World)
| Thrown (w : World).

(** The body of the [try] of the preload block; [None] when an
    exception skips the rest of the block ([setDetail] rejects, or the
    fallback URL is [undefined]). *)
Definition preloadOrFallback (env : Env) (now : Z) (episodeIndex : Z)
    (episodeUrl : string) (detail0 : SearchResult) (episodes0 : list string)
    (w : World) : option (SearchResult * list string) * World :=
  let (isSourceGood, w1) := _preloadAndTestSource env now episodeUrl w in
  if isSourceGood then (Some (detail0, episodes0), w1)
  else
    let (fallback, w2) := selectNextSource now (sr_source detail0) episodeIndex w1 in
    match fallback with
    | Some fallbackSource =>
        if episodeIndex <? lengthZ (sr_episodes fallbackSource) then
          match nthZ (sr_episodes fallbackSource) episodeIndex with
          | Some fallbackUrl =>
              let (isFallbackGood, w3) := _preloadAndTestSource env now fallbackUrl w2 in
              if isFallbackGood then
                let (resolved, w4) := setDetail env fallbackSource w3 in
                if resolved then
                  let episodes1 := sr_episodes fallbackSource in
                  let detail1 := fallbackSource in
                  (Some (detail1, episodes1),
                   onDetail (markSourceAsFailed (sr_source detail1)) w4)
                else (None, w4)
              else (Some (detail0, episodes0), w3)
          | None => (None, w2)
          end
        else (Some (detail0, episodes0), w2)
    | None => (Some (detail0, episodes0), w2)
    end.

(** The preload block of [loadVideo].  The whole call is one step at
    [now]: the time that the awaited probes take is not counted, so the
    timer of the next episode is due at [now + 1000]. *)
Definition preloadBlock (env : Env) (now : Z) (episodeIndex : Z)
    (detail0 : SearchResult) (episodes0 : list string) (w : World) : PreloadResult :=
  if episodeIndex <? lengthZ episodes0 then
    match nthZ episodes0 episodeIndex with
    | None => Thrown w
    | Some episodeUrl =>
        if negb (bool_decide (_preloadingEpisode (player w) = Some episodeUrl)) then
          let w1 := onPlayer (set__preloadingEpisode (Some episodeUrl)) w in
          let (r, w2) :=
            preloadOrFallback env now episodeIndex episodeUrl detail0 episodes0 w1 in
          let '(detail1, episodes1, w3) :=
            match r with
            | Some (detail1, episodes1) =>
                (detail1, episodes1,
                 match nthZ episodes1 (episodeIndex + 1) with
                 | Some nextEpisodeUrl =>
                     snd (setTimeout
                            (fun _ => PreloadNextTimer (now + 1000) episodeIndex nextEpisodeUrl)
                            w2)
                 | None => w2
                 end)
            | None => (detail0, episodes0, w2)
            end in
          Continue detail1 episodes1 (onPlayer (set__preloadingEpisode None) w3)
        else Continue detail0 episodes0 w
    end
  else Continue detail0 episodes0 w.

(** The last part of [loadVideo]: the play record and the settings of
    the detail are read back and the player is set up. *)
Definition restoreFromStorage (o : LoadOptions) (detail0 : SearchResult)
    (episodes0 : list string) (w : World) : World :=
  let playRecord := PlayRecordManager_get (sr_source detail0) (sr_id detail0) (storage w) in
  let playerSettings :=
    PlayerSettingsManager_get (sr_source detail0) (sr_id detail0) (storage w) in
  let initialPositionFromRecord :=
    match playRecord with
    | Some r => if pr_play_time r =? 0 then 0 else pr_play_time r * 1000
    | None => 0
    end in
  onPlayer
    (fun p =>
       set_isLoading false
         (set_currentEpisodeIndex (lo_episodeIndex o)
            (set_initialPosition
               (if truthyZ (lo_position o)
                then default 0 (lo_position o)
                else initialPositionFromRecord)
               (set_episodes (mapEpisodes episodes0)
                  (set_introEndTime
                     (orZ (playRecord ≫= pr_introEndTime)
                          (playerSettings ≫= ps_introEndTime))
                     (set_outroStartTime
                        (orZ (playRecord ≫= pr_outroStartTime)
                             (playerSettings ≫= ps_outroStartTime))
                        p))))))
    w.

(** [loadVideo] *)
Definition loadVideo (env : Env) (now : Z) (o : LoadOptions) (w : World) : World :=
  let detail0 := detail (detailStore w) in
  let episodes0 := initialEpisodes o (detailStore w) in
  let w1 := onPlayer (set_isLoading true) w in
  let (resolved, w2) :=
    match detail0 with
    | Some d =>
        if (lengthZ episodes0 =? 0) || negb (String.eqb (sr_title d) (lo_title o))
        then resolveDetailAfterInit env o w1
        else resolveCached o d episodes0 w1
    | None => resolveDetailAfterInit env o w1
    end in
  match resolved with
  | None => w2
  | Some (detail1, episodes1) =>
      match preloadBlock env now (lo_episodeIndex o) detail1 episodes1 w2 with
      | Thrown w3 => w3
      | Continue detail2 episodes2 w3 => restoreFromStorage o detail2 episodes2 w3
      end
  end.

(** [togglePlayPause] *)
Definition togglePlayPause (env : Env) (now : Z) (w : World) : World :=
  match status (player w) with
  | Some (Loaded st) =>
      if isPlaying st then
        if pauseAsync env now
        then onPlayer (set_isUserPaused true) (emit Pause w)
        else emit (Toast "error" "操作失败" "") (emit Pause w)
      else
        if playAsync env now
        then onPlayer (set_isUserPaused false) (emit Play w)
        else emit (Toast "error" "操作失败" "") (emit Play w)
  | _ => w
  end.

(** [seek]; the [isSeeking] flag and its one-second timer belong to the
    user interface. *)
Definition seek (env : Env) (now : Z) (duration : Z) (w : World) : World :=
  match status (player w) with
  | Some (Loaded st) =>
      match durationMillis st with
      | Some dur =>
          if dur =? 0 then w
          else
            let newPosition := Z.max 0 (Z.min (positionMillis st + duration) dur) in
            if setPositionAsync env now
            then onPlayer (set__lastSeekTime (Some now)) (emit (SeekTo newPosition) w)
            else emit (Toast "error" "快进/快退失败" "") (emit (SeekTo newPosition) w)
      | None => w
      end
  | _ => w
  end.

(** [Date.now() - t < window] for a possibly unset seek time: an unset
    time is infinitely long ago. *)
Definition seekedWithin (window : Z) (now : Z) (lastSeekTime : option Z) : bool :=
  match lastSeekTime with
  | Some t => if t =? 0 then false else now - t <? window
  | None => false
  end.

(** The callback of the buffering timer.  [now0], [detail0] and
    [currentEpisodeIndex0] are what the closure captured when the
    timer was armed; [at_] is when it fires. *)
Definition bufferingTimedOut (env : Env) (at_ : Z) (now0 : Z)
    (detail0 : option SearchResult) (currentEpisodeIndex0 : Z) (w : World) : World :=
  let currentState := player w in
  match status currentState with
  | Some (Loaded currentStatus) =>
      let stillRecentlySeeked := seekedWithin 15000 now0 (_lastSeekTime currentState) in
      let retries := _bufferingRetryCount currentState in
      if negb (isPlaying currentStatus)
         && negb (isUserPaused currentState)
         && negb stillRecentlySeeked
         && (0 <? positionMillis currentStatus)
         && isBuffering currentStatus
         && bool_decide (is_Some detail0)
         && (retries <? 3)
      then
        let w1 := onPlayer (set__bufferingRetryCount (retries + 1)) w in
        match nthZ (episodes currentState) currentEpisodeIndex0 with
        | Some currentEpisode =>
            if retries =? 0 then
              if 10000 <? positionMillis currentStatus
              then emit (SeekTo (Z.max 0 (positionMillis currentStatus - 5000))) w1
              else w1
            else if retries =? 1 then w1
            else if 2 <=? retries
            then handleVideoError env at_ network (ep_url currentEpisode) w1
            else w1
        | None => w1
        end
      else w
  | _ => w
  end.

Definition truthyString (o : option string) : bool :=
  match o with
  | Some s => negb (String.eqb s "")
  | None => false
  end.

(** First block of [handlePlaybackStatusUpdate], for a loaded status:
    the user-pause flag is dropped when the video plays, and the
    buffering state is tracked.  [s0] and [detail0] are the player
    state and the detail read at the entry of the handler. *)
Definition detectBuffering (now : Z) (st : LoadedStatus) (s0 : PlayerState)
    (detail0 : option SearchResult) (w : World) : World :=
  let w1 :=
    if isPlaying st && isUserPaused s0
    then onPlayer (set_isUserPaused false) w else w in
  let isRecentlySeeked := seekedWithin 10000 now (_lastSeekTime s0) in
  let buffering :=
    negb (isPlaying st)
    && negb (isUserPaused s0)
    && negb isRecentlySeeked
    && (0 <? positionMillis st)
    && (0 <? default 0 (durationMillis st))
    && isBuffering st in
  if buffering then
    if negb (truthyZ (_bufferingStartTime s0)) then
      let w' :=
        onPlayer (fun p => set__bufferingRetryCount 0
                             (set__bufferingStartTime (Some now) p)) w1 in
      let (timeoutId, w'') :=
        setTimeout (fun id => BufferingTimer id (now + 20000) now detail0
                                (currentEpisodeIndex s0)) w' in
      onPlayer (set__bufferingTimeout (Some timeoutId)) w''
    else w1
  else
    let w' :=
      if truthyZ (_bufferingStartTime s0)
      then onPlayer (fun p => set__bufferingRetryCount 0
                                (set__bufferingStartTime None p)) w1
      else w1 in
    match _bufferingTimeout s0 with
    | Some id => onPlayer (set__bufferingTimeout None) (clearTimeout id w')
    | None => w'
    end.

(** The rest of [handlePlaybackStatusUpdate] for a loaded status:
    automatic advance at the outro marker, progress persistence,
    advance at the end of the stream, and the new status. *)
Definition trackProgress (env : Env) (now : Z) (st : LoadedStatus)
    (s0 : PlayerState) (detail0 : option SearchResult) (w : World) : World :=
  let hasNext := currentEpisodeIndex s0 <? lengthZ (episodes s0) - 1 in
  if truthyZ (outroStartTime s0)
     && truthyZ (durationMillis st)
     && (default 0 (durationMillis st) - default 0 (outroStartTime s0)
         <=? positionMillis st)
     && hasNext
  then playEpisode env now (currentEpisodeIndex s0 + 1) w
  else
    let w3 :=
      if bool_decide (is_Some detail0) && truthyZ (durationMillis st)
      then _savePlayRecord now noUpdates false w else w in
    let w4 :=
      if didJustFinish st && hasNext
      then playEpisode env now (currentEpisodeIndex s0 + 1) w3 else w3 in
    onPlayer (set_status (Some (Loaded st))) w4.

(** [handlePlaybackStatusUpdate] *)
Definition handlePlaybackStatusUpdate (env : Env) (now : Z)
    (newStatus : AVPlaybackStatus) (w : World) : World :=
  let s0 := player w in
  let detail0 := detail (detailStore w) in
  match newStatus with
  | NotLoaded err =>
      let w1 :=
        match _bufferingTimeout s0 with
        | Some id => onPlayer (set__bufferingTimeout None) (clearTimeout id w)
        | None => w
        end in
      let w2 := onPlayer (set__bufferingStartTime None) w1 in
      let w3 :=
        if truthyString err then
          match nthZ (episodes (player w2)) (currentEpisodeIndex (player w2)), detail0 with
          | Some currentEpisode, Some _ =>
              handleVideoError env now other (ep_url currentEpisode) w2
          | _, _ => w2
          end
        else w2 in
      onPlayer (set_status (Some newStatus)) w3
  | Loaded st =>
      trackProgress env now st s0 detail0 (detectBuffering now st s0 detail0 w)
  end.

(** [reset]: the buffering timer is cleared, the cache is kept except
    for the entries older than thirty minutes. *)
Definition reset (now : Z) (w : World) : World :=
  let w1 :=
    match _bufferingTimeout (player w) with
    | Some id => clearTimeout id w
    | None => w
    end in
  let cachedSources :=
    filter (fun kv => negb (30 * 60 * 1000 <? now - cs_timestamp kv.2) = true)
           (_cachedSources (player w)) in
  onPlayer
    (fun p =>
       {| currentEpisodeIndex := 0;
          episodes := [];
          status := None;
          isLoading := true;
          initialPosition := 0;
          introEndTime := None;
          outroStartTime := None;
          isUserPaused := false;
          _isRecordSaveThrottled := _isRecordSaveThrottled p;
          _bufferingStartTime := None;
          _bufferingTimeout := None;
          _bufferingRetryCount := 0;
          _preloadingEpisode := None;
          _lastSeekTime := None;
          _cachedSources := cachedSources |})
    w1.

(** ** Time and events *)

Definition fireTimer (env : Env) (t : Timer) (w : World) : World :=
  match t with
  | BufferingTimer _ due now0 detail0 currentEpisodeIndex0 =>
      bufferingTimedOut env due now0 detail0 currentEpisodeIndex0 w
  | ThrottleTimer _ => onPlayer (set__isRecordSaveThrottled false) w
  | PreloadNextTimer due episodeIndex nextEpisodeUrl =>
      if currentEpisodeIndex (player w) =? episodeIndex
      then snd (_preloadAndTestSource env due nextEpisodeUrl w)
      else w
  end.

(** Timers fire in the order of their due times, and in the order they
    were set when due together: [insertByDue t l] puts a timer set
    after those of [l] behind every timer of [l] that is due no later. *)
Fixpoint insertByDue (t : Timer) (l : list Timer) : list Timer :=
  match l with
  | [] => [t]
  | t' :: l' =>
      if timerDue t <? timerDue t' then t :: l
      else t' :: insertByDue t l'
  end.

Definition dueOrder (l : list Timer) : list Timer :=
  foldl (fun acc t => insertByDue t acc) [] l.

(** The clock reaches [now]: every timer due by then fires.  No
    callback sets or clears a timer, so the due ones are taken at
    once. *)
Definition advance (env : Env) (now : Z) (w : World) : World :=
  let due := List.filter (fun t => timerDue t <=? now) (timers w) in
  let pending := List.filter (fun t => negb (timerDue t <=? now)) (timers w) in
  foldl (fun w t => fireTimer env t w)
        (mkWorld (player w) (detailStore w) (storage w) pending (nextTimerId w) (effects w))
        (dueOrder due).

Inductive Event :=
| StatusUpdate (newStatus : AVPlaybackStatus)
| LoadVideo (o : LoadOptions)
| PlayEpisode (index : Z)
| TogglePlayPause
| Seek (duration : Z)
| SetIntroEndTime
| SetOutroStartTime
| VideoError (errorType : ErrorType) (failedUrl : string)
| SpeedMeasured (source : string) (latency : Z)
| Reset.

Definition handle (env : Env) (now : Z) (e : Event) (w : World) : World :=
  match e with
  | StatusUpdate newStatus => handlePlaybackStatusUpdate env now newStatus w
  | LoadVideo o => loadVideo env now o w
  | PlayEpisode index => playEpisode env now index w
  | TogglePlayPause => togglePlayPause env now w
  | Seek duration => seek env now duration w
  | SetIntroEndTime => setIntroEndTime now w
  | SetOutroStartTime => setOutroStartTime now w
  | VideoError errorType failedUrl => handleVideoError env now errorType failedUrl w
  | SpeedMeasured source latency =>
      onDetail (recordNetworkSpeed now source latency) w
  | Reset => reset now w
  end.

(** The events happen at the given times, in order; the timers due
    before an event fire first. *)
Fixpoint run (env : Env) (events : list (Z * Event)) (w : World) : World :=
  match events with
  | [] => w
  | (now, e) :: events' => run env events' (handle env now e (advance env now w))
  end.

(** A sequence of status ticks, then the clock runs on to [untilTime]. *)
Definition runTicks (env : Env) (ticks : list (Z * LoadedStatus)) (untilTime : Z)
    (w : World) : World :=
  advance env untilTime
    (run env (map (fun tk => (tk.1, StatusUpdate (Loaded tk.2))) ticks) w).

(** ** Observations *)

Definition isVideoErrorHandled (e : Effect) : bool :=
  match e with
  | VideoErrorHandled _ _ => true
  | _ => false
  end.

(** How many times [handleVideoError] has been invoked. *)
Definition failoverCount (w : World) : nat :=
  length (List.filter isVideoErrorHandled (effects w)).

Definition isAllSourcesUnavailable (e : Effect) : bool :=
  match e with
  | Toast type text1 text2 =>
      String.eqb type "error" && String.eqb text1 "播放失败"
      && String.eqb text2 "所有播放源都不可用，请稍后重试"
  | _ => false
  end.

(** How many times the all-sources-unavailable failure has been shown. *)
Definition exhaustedCount (w : World) : nat :=
  length (List.filter isAllSourcesUnavailable (effects w)).

Definition isFetch (e : Effect) : bool :=
  match e with
  | Fetch _ _ => true
  | _ => false
  end.

(** How many ranged GETs the probe has issued. *)
Definition fetchCount (w : World) : nat :=
  length (List.filter isFetch (effects w)).

(** A status tick that stays loaded, not playing and buffering, at a
    nonzero position of a stream of known duration. *)
Definition stalled (st : LoadedStatus) : bool :=
  negb (isPlaying st) && isBuffering st
  && (0 <? positionMillis st) && (0 <? default 0 (durationMillis st)).

(** ** Vocabulary of the statements *)

(** The code points that ECMAScript names WhiteSpace or
    LineTerminator. *)
Definition whiteSpaceCodePoints : list N :=
  [9; 10; 11; 12; 13; 32; 160; 5760;
   8192; 8193; 8194; 8195; 8196; 8197; 8198; 8199; 8200; 8201; 8202;
   8232; 8233; 8239; 8287; 12288; 65279]%N.

(** The UTF-8 encoding of a code point. *)
Definition utf8 (cp : N) : string :=
  (if cp <? 128 then String (ascii_of_N cp) EmptyString
   else if cp <? 2048 then
     String (ascii_of_N (192 + cp / 64)) (String (ascii_of_N (128 + cp mod 64)) EmptyString)
   else if cp <? 65536 then
     String (ascii_of_N (224 + cp / 4096))
       (String (ascii_of_N (128 + (cp / 64) mod 64))
          (String (ascii_of_N (128 + cp mod 64)) EmptyString))
   else
     String (ascii_of_N (240 + cp / 262144))
       (String (ascii_of_N (128 + (cp / 4096) mod 64))
          (String (ascii_of_N (128 + (cp / 64) mod 64))
             (String (ascii_of_N (128 + cp mod 64)) EmptyString))))%N.

(** A string that consists of white space only; the empty string is
    one. *)
Definition blank (s : string) : Prop :=
  exists cps : list N,
    Forall (fun cp => In cp whiteSpaceCodePoints) cps
    /\ s = joinCodePoints (map utf8 cps).

(** A string that has a character which is not white space. *)
Definition nonBlank (s : string) : Prop := ~ blank s.

(** The order of binary64 scores as an order of integers: the value
    of a finite score scaled by [2^54]. *)
Definition floatKey (f : spec_float) : Z :=
  match f with
  | S754_finite s m e => (if s then -1 else 1) * Z.pos m * 2 ^ (e + 54)
  | _ => 0
  end.

(** [a] comes before [b] in the list [l]. *)
Definition precedes {A : Type} (a b : A) (l : list A) : Prop :=
  exists l1 l2 l3, l = (l1 ++ a :: l2 ++ b :: l3)%list.

(** The score as a function of the tier and the bucket. *)
Definition scoreOf (r s : Z) : spec_float :=
  Float.add (Float.mul (Float.ofZ r) Float.c0_6)
            (Float.mul (Float.ofZ (4 - s)) Float.c0_4).

(** A sequence of calls of [processAndSetResults], each with its
    results, its [merge] flag and whether the query had been aborted. *)
Definition mergeAll (env : Env) (batches : list (list SearchResult * bool * bool))
    (st : DetailState) : DetailState :=
  foldl (fun st b => processAndSetResults env b.1.1 b.1.2 b.2 st) st batches.

(** The [source] values of a list of results. *)
Definition sourcesOf (l : list SearchResult) : list string := map sr_source l.


(** No entry of the probe cache for [url] is fresh at [now]. *)
Definition coldCache (now : Z) (url : string) (w : World) : Prop :=
  forall c, _cachedSources (player w) !! url = Some c ->
            ~ now - cs_timestamp c < 5 * 60 * 1000.


(** A sequence of invocations of [handleVideoError], each with its
    time, error type and failing URL. *)
Definition handleVideoErrors (env : Env) (calls : list (Z * ErrorType * string))
    (w : World) : World :=
  foldl (fun w c => handleVideoError env c.1.1 c.1.2 c.2 w) w calls.

(** [getNextAvailableSource] finds no candidate once the current
    source is marked as failed. *)
Definition noFallback (w : World) : Prop :=
  match detail (detailStore w) with
  | Some d =>
      getNextAvailableSource (sr_source d) (currentEpisodeIndex (player w))
        (markSourceAsFailed (sr_source d) (detailStore w)) = None
  | None => False
  end.

(** The pending buffering timers. *)
Definition isPendingBuffering (t : Timer) : bool :=
  match t with
  | BufferingTimer _ _ _ _ _ => true
  | _ => false
  end.

Definition bufferingTimers (l : list Timer) : list Timer :=
  List.filter isPendingBuffering l.

(** What the buffering escalation reads and writes: the user-pause
    flag, the last seek, the retry count, the start of the buffering,
    the outro marker, the detail, and the number of fail-overs so
    far. *)
Definition escalationState (w : World)
    : bool * option Z * Z * option Z * option Z * option SearchResult * nat :=
  (isUserPaused (player w), _lastSeekTime (player w),
   _bufferingRetryCount (player w), _bufferingStartTime (player w),
   outroStartTime (player w), detail (detailStore w), failoverCount w).

(** No buffering is being tracked and no buffering timer is pending. *)
Definition notBuffering (w : World) : Prop :=
  truthyZ (_bufferingStartTime (player w)) = false
  /\ bufferingTimers (timers w) = [].

(** The state of the escalation while the buffering timer armed at
    [t0] is pending ([pendingTimers] is [[bt]]) and at the moment it
    fires ([pendingTimers] is empty): no fail-over has been added to
    the [c] there were, the retry count is zero, and, when a detail is
    loaded and no outro marker is set, the status is the last stalled
    tick. *)
Definition armed (ls outro : option Z) (det : option SearchResult) (c : nat)
    (t0 : Z) (pendingTimers : list Timer) (w : World) : Prop :=
  escalationState w = (false, ls, 0, Some t0, outro, det, c)
  /\ bufferingTimers (timers w) = pendingTimers
  /\ (is_Some det -> truthyZ outro = false ->
      exists st, status (player w) = Some (Loaded st) /\ stalled st = true).

(** The state of the escalation after the timer has fired: at most one
    attempt has been counted, exactly one when a detail is loaded and
    no outro marker is set. *)
Definition fired (ls outro : option Z) (det : option SearchResult) (c : nat)
    (t0 : Z) (w : World) : Prop :=
  exists r,
    escalationState w = (false, ls, r, Some t0, outro, det, c)
    /\ bufferingTimers (timers w) = []
    /\ r <= 1
    /\ (is_Some det -> truthyZ outro = false -> r = 1).

(** The user has paused, no buffering timer is pending, and no
    fail-over has been added to the [c] there were. *)
Definition paused (c : nat) (w : World) : Prop :=
  isUserPaused (player w) = true
  /\ bufferingTimers (timers w) = []
  /\ failoverCount w = c.

(** ** Vocabulary of the further properties *)

(** The sources of [searchResults] that have not failed. *)
Definition unfailedSources (st : DetailState) : gset string :=
  list_to_set (sourcesOf (searchResults st)) ∖ failedSources st.

(** The episode index points into the episodes list. *)
Definition indexInBounds (w : World) : Prop :=
  0 <= currentEpisodeIndex (player w) < lengthZ (episodes (player w)).

Definition isSeekTo (e : Effect) : bool :=
  match e with
  | SeekTo _ => true
  | _ => false
  end.

Definition isThrottleTimer (t : Timer) : bool :=
  match t with
  | ThrottleTimer _ => true
  | _ => false
  end.

(** ** The video handlers of the player screen *)

(** [x || 0] on a possibly-undefined number. *)
Definition orZero (o : option Z) : Z :=
  if truthyZ o then default 0 o else 0.


(** [useVideoHandlers.onLoadStart] *)
Definition onLoadStart (currentEpisode : option Episode) (w : World) : World :=
  match currentEpisode with
  | Some ep =>
      if String.eqb (ep_url ep) "" then w else onPlayer (set_isLoading true) w
  | None => w
  end.

Definition isSSLError (errorString : string) : bool :=
  includes "SSLHandshakeException" errorString
  || includes "CertPathValidatorException" errorString
  || includes "Trust anchor for certification path not found" errorString.

Definition isNetworkError (errorString : string) : bool :=
  includes "HttpDataSourceException" errorString
  || includes "IOException" errorString
  || includes "SocketTimeoutException" errorString.

Definition errorTypeOf (errorString : string) : ErrorType :=
  if isSSLError errorString then ssl
  else if isNetworkError errorString then network
  else other.

(** The pending callback of [retryTimerRef], with the time it is due
    and what its closure captured. *)
Record RetryTimer := mkRetryTimer {
  rt_due : Z;
  rt_errorType : ErrorType;
  rt_url : string
}.

(** The names of the properties that a plain object inherits from
    [Object.prototype]. *)
Definition objectPrototypeKeys : list string :=
  ["constructor"; "hasOwnProperty"; "isPrototypeOf"; "propertyIsEnumerable";
   "toLocaleString"; "toString"; "valueOf"; "__proto__";
   "__defineGetter__"; "__defineSetter__"; "__lookupGetter__"; "__lookupSetter__"].

Definition inherited (key : string) : bool :=
  existsb (String.eqb key) objectPrototypeKeys.

(** [obj[key]] for a plain object whose own properties are numbers: the
    number, a function or object of the prototype, or [undefined]. *)
Inductive Property :=
| Number (z : Z)
| Inherited
| Undefined.

Definition getProperty (key : string) (obj : gmap string Z) : Property :=
  match obj !! key with
  | Some z => Number z
  | None => if inherited key then Inherited else Undefined
  end.

(** [obj[key] = z] for a number [z]: the setter of [__proto__] ignores
    a number. *)
Definition setProperty (key : string) (z : Z) (obj : gmap string Z) : gmap string Z :=
  if String.eqb key "__proto__" then obj else <[key := z]> obj.

(** [(x || 0) + 1] and [x || 0] as numbers; [None] when the result is
    not a number, so that [<=] and [>] on it are false: a function or
    object of the prototype is truthy, [+ 1] makes a string of it and
    [-] gives [NaN]. *)
Definition orZeroOf (x : Property) : option Z :=
  match x with
  | Number z => Some (if z =? 0 then 0 else z)
  | Inherited => None
  | Undefined => Some 0
  end.

(** The refs of [useVideoHandlers], which live as long as the screen,
    and the stores.  Both records start as [{}], a plain object. *)
Record Handlers := mkHandlers {
  retryCountRef : gmap string Z;
  lastErrorTimeRef : gmap string Z;
  retryTimerRef : option RetryTimer;
  stores : World
}.

Definition onStores (f : World -> World) (h : Handlers) : Handlers :=
  mkHandlers (retryCountRef h) (lastErrorTimeRef h) (retryTimerRef h) (f (stores h)).

(** [useVideoHandlers.onError]; [errorString] is the text of the error.
    Setting the retry timer replaces the pending one, which was
    cleared just before.  A count that is not a number is stored and
    deleted again within the call. *)
Definition onError (env : Env) (now : Z) (currentEpisode : option Episode)
    (errorString : string) (h : Handlers) : Handlers :=
  match currentEpisode with
  | None => h
  | Some ep =>
      if String.eqb (ep_url ep) "" then h
      else
        let errorType := errorTypeOf errorString in
        let urlKey := substring0 50 (ep_url ep) in
        let currentRetries :=
          (fun z => z + 1) <$> orZeroOf (getProperty urlKey (retryCountRef h)) in
        let lastErrorTime := orZeroOf (getProperty urlKey (lastErrorTimeRef h)) in
        let lastErrorTimes := setProperty urlKey now (lastErrorTimeRef h) in
        let showToast :=
          match lastErrorTime with
          | Some t => 3000 <? now - t
          | None => false
          end in
        if match currentRetries with
           | Some retries => retries <=? 2
           | None => false
           end
        then
          let retries := default 0 currentRetries in
          let w1 :=
            if (retries =? 1) && showToast then
              emit (Toast "info"
                      (if isSSLError errorString then "证书验证问题"
                       else if isNetworkError errorString then "网络连接问题"
                       else "视频播放问题")
                      "正在尝试修复...")
                   (stores h)
            else stores h in
          mkHandlers (setProperty urlKey retries (retryCountRef h)) lastErrorTimes
            (Some (mkRetryTimer (now + 1000) errorType (ep_url ep))) w1
        else
          let w1 :=
            if showToast then
              emit (Toast "error"
                      (if isSSLError errorString then "SSL证书错误"
                       else if isNetworkError errorString then "网络连接失败"
                       else "播放失败")
                      "正在尝试其他播放源...")
                   (stores h)
            else stores h in
          mkHandlers (delete urlKey (retryCountRef h)) lastErrorTimes None
            (handleVideoError env now errorType (ep_url ep) w1)
  end.

(** The callback of the retry timer, run at [now]; [reloaded] tells
    whether unloading, loading and playing the video all resolved. *)
Definition retryTimedOut (env : Env) (now : Z) (mounted reloaded : bool)
    (rt : RetryTimer) (h : Handlers) : Handlers :=
  let h1 := mkHandlers (retryCountRef h) (lastErrorTimeRef h) None (stores h) in
  if mounted then
    if reloaded then h1
    else onStores (handleVideoError env now (rt_errorType rt) (rt_url rt)) h1
  else h1.

(** What happens to the video of the screen. *)
Inductive ScreenEvent :=
| VideoFailed (currentEpisode : option Episode) (errorString : string)
| RetryTimerFired (mounted reloaded : bool).

Definition handleScreen (env : Env) (now : Z) (e : ScreenEvent) (h : Handlers)
    : Handlers :=
  match e with
  | VideoFailed currentEpisode errorString => onError env now currentEpisode errorString h
  | RetryTimerFired mounted reloaded =>
      match retryTimerRef h with
      | Some rt =>
          if rt_due rt <=? now then retryTimedOut env now mounted reloaded rt h else h
      | None => h
      end
  end.

Definition runScreen (env : Env) (events : list (Z * ScreenEvent)) (h : Handlers)
    : Handlers :=
  foldl (fun h e => handleScreen env e.1 e.2 h) h events.

(** An error of an episode with a URL whose key is [urlKey]. *)
Definition failsUnder (urlKey : string) (e : ScreenEvent) : bool :=
  match e with
  | VideoFailed (Some ep) _ =>
      negb (String.eqb (ep_url ep) "") && String.eqb (substring0 50 (ep_url ep)) urlKey
  | _ => false
  end.

(** A retry that did not end in [handleVideoError]. *)
Definition retryKept (e : ScreenEvent) : bool :=
  match e with
  | RetryTimerFired mounted reloaded => negb mounted || reloaded
  | VideoFailed _ _ => false
  end.

(** The speed tests started for [source] so far. *)
Definition isSpeedTestOf (source : string) (e : Effect) : bool :=
  match e with
  | SpeedTest s => String.eqb s source
  | _ => false
  end.

Definition speedTestsOf (source : string) (w : World) : nat :=
  length (List.filter (isSpeedTestOf source) (effects w)).

(** ** The search cache *)

Module SearchCacheManager.
Section Manager.

(** [SearchResult] of the API: the cache only stores the results. *)
Variable Result : Type.

(** The two private fields, which no method changes: 15 items and ten
    minutes in the search screen, 10 items and five minutes in its
    other version. *)
Variable maxCacheItems : Z.
Variable cacheTimeout : Z.

(** [String.prototype.toLowerCase] *)
Variable toLowerCase : string -> string.

Record SearchCache := mkSearchCache {
  sc_query : string;
  sc_results : list Result;
  sc_total : Z;
  sc_timestamp : Z
}.

(** A [Map] from strings, in insertion order: setting a key that is
    present keeps its place, a new key goes last. *)
Definition Cache := list (string * SearchCache).

Definition Map_get (key : string) (m : Cache) : option SearchCache :=
  snd <$> List.find (fun kv => String.eqb kv.1 key) m.

Definition Map_delete (key : string) (m : Cache) : Cache :=
  List.filter (fun kv => negb (String.eqb kv.1 key)) m.

Fixpoint Map_set (key : string) (value : SearchCache) (m : Cache) : Cache :=
  match m with
  | [] => [(key, value)]
  | kv :: m' =>
      if String.eqb kv.1 key then (key, value) :: m'
      else kv :: Map_set key value m'
  end.

(** [get]: the entry, if it is fresh, and the cache afterwards. *)
Definition get (now : Z) (query : string) (cache : Cache)
    : option SearchCache * Cache :=
  match Map_get query cache with
  | Some cached =>
      if now - sc_timestamp cached <? cacheTimeout then (Some cached, cache)
      else (None, Map_delete query cache)
  | None => (None, cache)
  end.

(** [set] *)
Definition set (now : Z) (query : string) (results : list Result) (total : Z)
    (cache : Cache) : Cache :=
  let cache1 :=
    if maxCacheItems <=? lengthZ cache then
      match cache with
      | (oldestKey, _) :: _ => Map_delete oldestKey cache
      | [] => cache
      end
    else cache in
  Map_set query (mkSearchCache query results total now) cache1.

(** [clear] *)
Definition clear (cache : Cache) : Cache := [].

(** [lowerQuery.includes(cachedQuery.toLowerCase()) ||
    cachedQuery.toLowerCase().includes(lowerQuery)] *)
Definition similar (query cachedQuery : string) : bool :=
  includes (toLowerCase cachedQuery) (toLowerCase query)
  || includes (toLowerCase query) (toLowerCase cachedQuery).

(** [findSimilarCache] *)
Definition findSimilarCache (now : Z) (query : string) (cache : Cache)
    : option SearchCache * Cache :=
  match get now query cache with
  | (Some exactCache, cache1) => (Some exactCache, cache1)
  | (None, cache1) =>
      (snd <$> List.find
                 (fun kv =>
                    (now - sc_timestamp kv.2 <? cacheTimeout) && similar query kv.1)
                 cache1,
       cache1)
  end.

(** The calls of the search screen on its cache manager. *)
Inductive Call :=
| Get (query : string)
| Set_ (query : string) (results : list Result) (total : Z)
| FindSimilarCache (query : string)
| Clear.

Definition call (now : Z) (c : Call) (cache : Cache) : Cache :=
  match c with
  | Get query => (get now query cache).2
  | Set_ query results total => set now query results total cache
  | FindSimilarCache query => (findSimilarCache now query cache).2
  | Clear => clear cache
  end.

(** The cache of a new manager after the calls, made at the given
    times. *)
Definition calls (cs : list (Z * Call)) : Cache :=
  foldl (fun cache c => call c.1 c.2 cache) [] cs.

Definition keys (cache : Cache) : list string := map fst cache.

(** What every call keeps: the bound, no query twice, each entry under
    its own query. *)
Definition wellFormed (cache : Cache) : Prop :=
  lengthZ cache <= maxCacheItems
  /\ NoDup (keys cache)
  /\ Forall (fun kv => sc_query kv.2 = kv.1) cache.

End Manager.

Arguments mkSearchCache {Result}.
Arguments sc_query {Result}.
Arguments sc_results {Result}.
Arguments sc_total {Result}.
Arguments sc_timestamp {Result}.
Arguments Map_get {Result}.
Arguments Map_delete {Result}.
Arguments Map_set {Result}.
Arguments get {Result}.
Arguments set {Result}.
Arguments clear {Result}.
Arguments findSimilarCache {Result}.
Arguments call {Result}.
Arguments calls {Result}.
Arguments keys {Result}.
Arguments wellFormed {Result}.
End SearchCacheManager.

(** ** Concrete scenarios *)

Module Scenario.
Definition candidate (source : string) (resolution : option string)
    (networkSpeed : option Z) (episodes : list string) : SearchResult :=
  mkSearchResult 7 "Title" "" "2024" source (source +:+ " name") episodes
    resolution networkSpeed None.

Definition detailState (results : list SearchResult) (current : option SearchResult)
    (failed : gset string) : DetailState :=
  mkDetailState (Some "Title") results (map toSourceInfo results) current
    false None true false failed.

Definition oneEpisode (source : string) : list string :=
  ["https://" +:+ source +:+ "/1.m3u8"].

(** 720p measured at 2500 ms and 480p measured at 800 ms. *)
Definition hd_slow : SearchResult := candidate "b" (Some "720p") (Some 2500) (oneEpisode "b").
Definition sd_medium : SearchResult := candidate "c" (Some "480p") (Some 800) (oneEpisode "c").

(** 720p measured at 1500 ms and 360p measured at 100 ms: the same
    real-valued score, 2.2. *)
Definition hd_slowish : SearchResult := candidate "b" (Some "720p") (Some 1500) (oneEpisode "b").
Definition low_fast : SearchResult := candidate "c" (Some "360p") (Some 100) (oneEpisode "c").

(** The two candidates of the specification's example. *)
Definition full_hd : SearchResult := candidate "b" (Some "1080p") (Some 250) (oneEpisode "b").
Definition hd_fast : SearchResult := candidate "c" (Some "720p") (Some 100) (oneEpisode "c").
(** A world in which every probe answers 206 after [elapsed url] ms,
    rejects for the URLs of [down], and nothing else fails. *)
Definition env (down : list string) (elapsed : string -> Z) : Env :=
  {| fetch := fun _ url =>
       if bool_decide (url ∈ down) then Rejected
       else Responded true 206 (elapsed url);
     isFavoritedLookup := fun _ _ => Some false;
     getResolutionFromM3U8 := fun _ => Some "720p";
     replayAsync := fun _ => true;
     setPositionAsync := fun _ => true;
     pauseAsync := fun _ => true;
     playAsync := fun _ => true;
     detailInit := fun _ _ _ st => st |}.

Definition quick : Env := env [] (fun _ => 120).

(** A second title of source b. *)
Definition hd_sequel : SearchResult :=
  mkSearchResult 8 "Title 2" "" "2025" "b" "b name" (oneEpisode "b2") None None None.

Definition emptyDetail : DetailState := detailState [] None ∅.
Definition idlePlayer : PlayerState :=
  {| currentEpisodeIndex := 0;
     episodes := [];
     status := None;
     isLoading := true;
     initialPosition := 0;
     introEndTime := None;
     outroStartTime := None;
     isUserPaused := false;
     _isRecordSaveThrottled := false;
     _bufferingStartTime := None;
     _bufferingTimeout := None;
     _bufferingRetryCount := 0;
     _preloadingEpisode := None;
     _lastSeekTime := None;
     _cachedSources := ∅ |}.

Definition world (p : PlayerState) (d : DetailState) : World :=
  mkWorld p d (mkStorage ∅ ∅) [] 1%nat [].

Definition url_b : string := "https://b/1.m3u8".
Definition playing (position : Z) : LoadedStatus :=
  mkLoaded true false position (Some 3600000) false.

Definition stalledAt (position : Z) : LoadedStatus :=
  mkLoaded false true position (Some 3600000) false.

(** The current source, a, and an alternative, b. *)
Definition source_a : SearchResult :=
  candidate "a" (Some "720p") (Some 200) ["https://a/1.m3u8"; "https://a/2.m3u8"].
Definition source_b : SearchResult :=
  candidate "b" (Some "720p") (Some 400) ["https://b/1.m3u8"; "https://b/2.m3u8"].

(** Playing the first episode of source a at [position]. *)
Definition watching (position : Z) : PlayerState :=
  {| currentEpisodeIndex := 0;
     episodes := mapEpisodes (sr_episodes source_a);
     status := Some (Loaded (playing position));
     isLoading := false;
     initialPosition := 0;
     introEndTime := None;
     outroStartTime := None;
     isUserPaused := false;
     _isRecordSaveThrottled := false;
     _bufferingStartTime := None;
     _bufferingTimeout := None;
     _bufferingRetryCount := 0;
     _preloadingEpisode := None;
     _lastSeekTime := None;
     _cachedSources := ∅ |}.

(** Source a is the only source of the title. *)
Definition onlySource (position : Z) : World :=
  world (watching position) (detailState [source_a] (Some source_a) ∅).

(** Sources a and b carry the title. *)
Definition twoSources (position : Z) : World :=
  world (watching position) (detailState [source_a; source_b] (Some source_a) ∅).
(** Three stalled ticks over 21 seconds. *)
Definition stallTicks : list (Z * LoadedStatus) :=
  [(1000, stalledAt 30000); (11000, stalledAt 30000); (22000, stalledAt 30000)].
(** Two episodes whose URLs agree on their first 50 characters. *)
Definition longUrl (n : string) : string :=
  "https://cdn.example.org/videos/series-one/season-1/episode-" +:+ n +:+ ".m3u8".
Definition longEpisode (n : string) : Episode := mkEpisode (longUrl n) n.

(** The screen of a session on sources a and b, before any error. *)
Definition screen : Handlers := mkHandlers ∅ ∅ None (twoSources 30000).

(** Three errors under one key, the first retried in between. *)
Definition errorBurst : list (Z * ScreenEvent) :=
  [(5000, VideoFailed (Some (longEpisode "1")) "java.io.IOException");
   (6500, RetryTimerFired true true);
   (9000, VideoFailed (Some (longEpisode "2")) "decoder failed");
   (9500, VideoFailed (Some (longEpisode "1")) "SSLHandshakeException")].
(** [toLowerCase] on ASCII strings. *)
Definition lowerAscii (c : ascii) : ascii :=
  let n := nat_of_ascii c in
  if (65 <=? n)%nat && (n <=? 90)%nat then ascii_of_nat (n + 32) else c.

Fixpoint toLowerCase (s : string) : string :=
  match s with
  | EmptyString => EmptyString
  | String c s' => String (lowerAscii c) (toLowerCase s')
  end.

(** A cache of two searches, whose results are titles. *)
Definition cached (query : string) (timestamp : Z)
    : SearchCacheManager.SearchCache string :=
  SearchCacheManager.mkSearchCache query [query] 1 timestamp.

Definition twoSearches : SearchCacheManager.Cache string :=
  [("Dune", cached "Dune" 1000); ("Alien", cached "Alien" 2000)].

Definition searching : list (Z * SearchCacheManager.Call string) :=
  [(1000, SearchCacheManager.Set_ string "Dune" ["Dune"] 1);
   (2000, SearchCacheManager.FindSimilarCache string "dune part two");
   (3000, SearchCacheManager.Set_ string "Alien" [] 0);
   (700000, SearchCacheManager.Get string "Dune");
   (800000, SearchCacheManager.Clear string)].

(** Source a, of two episodes, is playing; the only alternative has
    one episode. *)
Definition shortFallback : World :=
  world (watching 30000) (detailState [source_a; hd_slow] (Some source_a) ∅).
End Scenario.

(** * Properties *)

(** ** Strings *)

Lemma codePoints_step c1 s1 :
  exists codePoint rest,
    codePoints (String c1 s1) = codePoint :: codePoints rest
    /\ String c1 s1 = (codePoint ++ rest)%string
    /\ codePoint <> EmptyString
    /\ (String.length rest < String.length (String c1 s1))%nat.
Proof.
  simpl codePoints.
  destruct (sequenceLength c1 s1) as [|[|[|[|[|n]]]]];
    destruct s1 as [|c2 [|c3 [|c4 s4]]];
    eexists _, _; (split; [reflexivity|]); simpl;
    (split; [reflexivity|]); (split; [discriminate | lia]).
Qed.

Lemma joinCodePoints_codePoints s : joinCodePoints (codePoints s) = s.
Proof.
  remember (String.length s) as n eqn:Hn.
  revert s Hn. induction n as [n IH] using lt_wf_ind. intros [|c1 s1] Hn; [reflexivity|].
  destruct (codePoints_step c1 s1) as (cp & rest & -> & Hs & _ & Hlt).
  simpl. rewrite (IH (String.length rest)); [now rewrite Hs | lia | reflexivity].
Qed.

Lemma codePoints_nonEmpty s : Forall (fun cp => cp <> EmptyString) (codePoints s).
Proof.
  remember (String.length s) as n eqn:Hn.
  revert s Hn. induction n as [n IH] using lt_wf_ind. intros [|c1 s1] Hn; [constructor|].
  destruct (codePoints_step c1 s1) as (cp & rest & -> & _ & Hne & Hlt).
  constructor; [exact Hne|]. apply (IH (String.length rest)); [lia | reflexivity].
Qed.

Lemma joinCodePoints_empty l :
  Forall (fun cp => cp <> EmptyString) l -> joinCodePoints l = EmptyString -> l = [].
Proof.
  destruct 1 as [|cp l Hcp _]; [reflexivity|]. simpl.
  destruct cp; [contradiction | discriminate].
Qed.

Lemma dropWhile_incl {A} (f : A -> bool) l : incl (dropWhile f l) l.
Proof.
  induction l as [|x l IH]; simpl; [apply incl_refl|].
  destruct (f x); [now apply incl_tl | apply incl_refl].
Qed.

Lemma dropWhile_nil {A} (f : A -> bool) l :
  dropWhile f l = [] <-> Forall (fun x => f x = true) l.
Proof.
  induction l as [|x l IH]; simpl; [split; auto|].
  destruct (f x) eqn:E.
  - rewrite IH. split; [now constructor | now inversion 1].
  - split; [discriminate|]. inversion 1. congruence.
Qed.

Lemma dropWhile_head {A} (f : A -> bool) l x t :
  dropWhile f l = x :: t -> f x = false.
Proof.
  induction l as [|y l IH]; simpl; [discriminate|].
  destruct (f y) eqn:E; [exact IH | congruence].
Qed.

Lemma trim_empty s :
  trim s = EmptyString <-> Forall (fun cp => isWhiteSpace cp = true) (codePoints s).
Proof.
  unfold trim. rewrite <- dropWhile_nil.
  destruct (dropWhile isWhiteSpace (codePoints s)) as [|x t] eqn:Hdrop;
    [split; reflexivity|].
  split; [|discriminate]. intros H. exfalso.
  apply joinCodePoints_empty in H.
  - apply (f_equal (@rev string)) in H. rewrite rev_involutive in H.
    change (@rev string []) with (@nil string) in H.
    apply dropWhile_nil, Forall_rev in H. rewrite rev_involutive in H.
    apply dropWhile_head in Hdrop. inversion H. congruence.
  - apply List.Forall_forall. intros cp Hin. apply in_rev, dropWhile_incl in Hin.
    apply in_rev in Hin. rewrite <- Hdrop in Hin. apply dropWhile_incl in Hin.
    now apply (proj1 (List.Forall_forall _ _) (codePoints_nonEmpty s)).
Qed.

Lemma whiteSpace_utf8 : whiteSpace = map utf8 whiteSpaceCodePoints.
Proof. reflexivity. Qed.

Lemma isWhiteSpace_In cp : isWhiteSpace cp = true <-> In cp whiteSpace.
Proof.
  unfold isWhiteSpace. rewrite existsb_exists. split.
  - intros (w & Hin & Heq). apply String.eqb_eq in Heq. now subst.
  - intros Hin. exists cp. split; [exact Hin | apply String.eqb_refl].
Qed.

Lemma codePoints_whiteSpace w t :
  In w whiteSpace -> codePoints (w ++ t) = w :: codePoints t.
Proof.
  unfold whiteSpace. simpl In. intros H.
  repeat (destruct H as [<- | H]; [reflexivity|]). destruct H.
Qed.

Lemma blank_codePoints s :
  blank s <-> Forall (fun cp => isWhiteSpace cp = true) (codePoints s).
Proof.
  split.
  - intros (cps & Hall & ->). induction Hall as [|cp cps Hcp _ IH]; [constructor|].
    simpl. assert (Hin : In (utf8 cp) whiteSpace)
      by (rewrite whiteSpace_utf8; now apply in_map).
    rewrite (codePoints_whiteSpace _ _ Hin). constructor; [now apply isWhiteSpace_In | exact IH].
  - intros Hall.
    assert (Hlist : forall l,
               Forall (fun cp => isWhiteSpace cp = true) l ->
               exists cps, Forall (fun cp => In cp whiteSpaceCodePoints) cps
                           /\ l = map utf8 cps).
    { induction 1 as [|w l Hw _ (cps & Hcps & ->)]; [now exists []|].
      apply isWhiteSpace_In in Hw. rewrite whiteSpace_utf8 in Hw.
      apply in_map_iff in Hw as (cp & <- & Hcp). exists (cp :: cps).
      split; [now constructor | reflexivity]. }
    destruct (Hlist _ Hall) as (cps & Hcps & Heq). exists cps. split; [exact Hcps|].
    now rewrite <- Heq, joinCodePoints_codePoints.
Qed.

Lemma trim_nonBlank s : trim s <> EmptyString <-> nonBlank s.
Proof. unfold nonBlank. now rewrite trim_empty, blank_codePoints. Qed.

Lemma nonBlank_nonEmpty s : nonBlank s -> s <> EmptyString.
Proof. intros Hnb ->. apply Hnb. exists []. split; [constructor | reflexivity]. Qed.

(** ** [selectCurrentEpisode] *)

Lemma nthZ_Some {A} (l : list A) i x :
  nthZ l i = Some x <-> 0 <= i /\ l !! Z.to_nat i = Some x.
Proof.
  unfold nthZ. destruct (Z.ltb_spec i 0); split.
  - discriminate.
  - intros [? _]; lia.
  - auto.
  - tauto.
Qed.

Lemma nthZ_in_range {A} (l : list A) i :
  0 <= i < lengthZ l -> is_Some (nthZ l i).
Proof.
  unfold nthZ, lengthZ. intros H. destruct (Z.ltb_spec i 0); [lia|].
  apply lookup_lt_is_Some. lia.
Qed.

(** C10.  [selectCurrentEpisode] is a total function that reads
    [episodes] only inside its bounds: whenever the index is within
    [0 <= currentEpisodeIndex < episodes.length] the element read
    exists; it returns the episode at [currentEpisodeIndex] exactly
    when [episodes] is not empty, the index is within bounds and the
    URL of that episode does not consist of white space only (the
    code points of WhiteSpace and LineTerminator, which [trim] strips;
    the empty URL included), and it returns [undefined] in every other
    state. *)
Theorem selectCurrentEpisode_spec (state : PlayerState) :
  (0 <= currentEpisodeIndex state < lengthZ (episodes state) ->
   is_Some (nthZ (episodes state) (currentEpisodeIndex state)))
  /\ (forall episode,
        selectCurrentEpisode state = Some episode <->
        episodes state <> []
        /\ 0 <= currentEpisodeIndex state < lengthZ (episodes state)
        /\ episodes state !! Z.to_nat (currentEpisodeIndex state) = Some episode
        /\ nonBlank (ep_url episode))
  /\ (selectCurrentEpisode state = None <->
      ~ exists episode,
          episodes state <> []
          /\ 0 <= currentEpisodeIndex state < lengthZ (episodes state)
          /\ episodes state !! Z.to_nat (currentEpisodeIndex state) = Some episode
          /\ nonBlank (ep_url episode)).
Proof.
  assert (Hsome : forall episode,
        selectCurrentEpisode state = Some episode <->
        episodes state <> []
        /\ 0 <= currentEpisodeIndex state < lengthZ (episodes state)
        /\ episodes state !! Z.to_nat (currentEpisodeIndex state) = Some episode
        /\ nonBlank (ep_url episode)).
  { intros episode. unfold selectCurrentEpisode.
    destruct (Z.ltb_spec 0 (lengthZ (episodes state))) as [Hlen|Hlen];
      destruct (Z.leb_spec 0 (currentEpisodeIndex state)) as [Hlo|Hlo];
      destruct (Z.ltb_spec (currentEpisodeIndex state) (lengthZ (episodes state)))
        as [Hhi|Hhi]; simpl;
      try (split; [discriminate | intros (_ & ? & _); lia]).
    destruct (nthZ (episodes state) (currentEpisodeIndex state)) as [e|] eqn:Hnth.
    - apply nthZ_Some in Hnth as [_ Hnth].
      destruct (String.eqb_spec (ep_url e) "") as [He|He];
        destruct (String.eqb_spec (trim (ep_url e)) "") as [Ht|Ht]; simpl.
      + split; [discriminate|]. intros (_ & _ & Hl & Hb).
        rewrite Hnth in Hl. injection Hl as <-.
        now apply nonBlank_nonEmpty in Hb.
      + split; [discriminate|]. intros (_ & _ & Hl & Hb).
        rewrite Hnth in Hl. injection Hl as <-.
        now apply nonBlank_nonEmpty in Hb.
      + split; [discriminate|]. intros (_ & _ & Hl & Hb).
        rewrite Hnth in Hl. injection Hl as <-.
        now apply trim_nonBlank in Hb.
      + split.
        * intros [= <-]. repeat split; auto.
          -- intros Hnil. rewrite Hnil in Hlen. unfold lengthZ in Hlen. simpl in Hlen. lia.
          -- now apply trim_nonBlank.
        * intros (_ & _ & Hl & _). congruence.
    - destruct (nthZ_in_range (episodes state) (currentEpisodeIndex state)) as [e He];
        [lia | congruence]. }
  split; [apply nthZ_in_range|]. split; [exact Hsome|].
  split.
  - intros Hnone (e & He). apply Hsome in He. congruence.
  - intros Hno. destruct (selectCurrentEpisode state) as [e|] eqn:E; [|reflexivity].
    exfalso. apply Hno. exists e. now apply Hsome.
Qed.

(** ** Ranking and selection *)

Lemma resolutionPriority_range res :
  resolutionPriority res ∈ [0; 1; 2; 3; 4].
Proof.
  unfold resolutionPriority.
  repeat match goal with |- context [if ?b then _ else _] => destruct b end;
    set_solver.
Qed.

Lemma speedScore_range speed :
  speedScore speed ∈ [0; 1; 2; 3; 4].
Proof.
  unfold speedScore. destruct speed; [|set_solver].
  repeat match goal with |- context [if ?b then _ else _] => destruct b end;
    set_solver.
Qed.

Lemma totalScore_scoreOf a :
  totalScore a
  = scoreOf (resolutionPriority (default "" (sr_resolution a)))
            (speedScore (sr_networkSpeed a)).
Proof. reflexivity. Qed.

Ltac tiers_and_buckets H1 H2 :=
  repeat (apply elem_of_cons in H1 as [->|H1]);
  [repeat (apply elem_of_cons in H2 as [->|H2]);
   [..| now apply elem_of_nil in H2] ..| now apply elem_of_nil in H1].

(** The sign of the comparator is the order of the binary64 scores,
    which is the order of their keys. *)
Lemma scoreOf_compare r1 s1 r2 s2 :
  r1 ∈ [0; 1; 2; 3; 4] -> s1 ∈ [0; 1; 2; 3; 4] ->
  r2 ∈ [0; 1; 2; 3; 4] -> s2 ∈ [0; 1; 2; 3; 4] ->
  Float.ltb Float.zero (Float.sub (scoreOf r2 s2) (scoreOf r1 s1))
  = (floatKey (scoreOf r1 s1) <? floatKey (scoreOf r2 s2))
  /\ Float.ltb (scoreOf r1 s1) (scoreOf r2 s2)
     = (floatKey (scoreOf r1 s1) <? floatKey (scoreOf r2 s2))
  /\ (6 * r1 + 4 * (4 - s1) < 6 * r2 + 4 * (4 - s2) ->
      floatKey (scoreOf r1 s1) < floatKey (scoreOf r2 s2)).
Proof.
  intros H1 H2 H3 H4.
  tiers_and_buckets H1 H2; tiers_and_buckets H3 H4;
    vm_compute; (split; [reflexivity | split; [reflexivity | ]]);
    intros H; first [ reflexivity | discriminate H ].
Qed.

Lemma compareSources_key a b :
  Float.ltb Float.zero (compareSources a b)
  = (floatKey (totalScore a) <? floatKey (totalScore b)).
Proof.
  unfold compareSources. rewrite !totalScore_scoreOf.
  apply scoreOf_compare; auto using resolutionPriority_range, speedScore_range.
Qed.

Lemma totalScore_ltb a b :
  Float.ltb (totalScore a) (totalScore b)
  = (floatKey (totalScore a) <? floatKey (totalScore b)).
Proof.
  rewrite !totalScore_scoreOf.
  apply scoreOf_compare; auto using resolutionPriority_range, speedScore_range.
Qed.

Lemma exactScore10_key a b :
  floatKey (totalScore a) <= floatKey (totalScore b) ->
  exactScore10 a <= exactScore10 b.
Proof.
  intros Hle. destruct (Z.le_gt_cases (exactScore10 a) (exactScore10 b)) as [|Hgt];
    [assumption|]. exfalso.
  assert (floatKey (totalScore b) < floatKey (totalScore a)); [|lia].
  rewrite !totalScore_scoreOf.
  apply scoreOf_compare; auto using resolutionPriority_range, speedScore_range.
Qed.

Section SortHead.
Context {A : Type} (cmp : A -> A -> spec_float) (key : A -> Z).
Hypothesis cmp_key :
  forall x y, Float.ltb Float.zero (cmp x y) = (key x <? key y).

Lemma head_insertSorted x l :
  head (insertSorted cmp x l)
  = match head l with
    | Some y => if key x <? key y then Some y else Some x
    | None => Some x
    end.
Proof.
  destruct l as [|y l]; simpl; [reflexivity|].
  rewrite cmp_key. now destruct (key x <? key y).
Qed.

(** The head of the sorted array is the first element of highest
    key. *)
Lemma head_sortWith l : head (sortWith cmp l) = firstMaxBy key l.
Proof.
  induction l as [|x l IH]; simpl; [reflexivity|].
  unfold sortWith in *. simpl. now rewrite head_insertSorted, IH.
Qed.
End SortHead.

Lemma firstMaxBy_None {A} (key : A -> Z) l : firstMaxBy key l = None <-> l = [].
Proof.
  destruct l as [|x l]; simpl; [tauto|].
  split; [|discriminate].
  destruct (firstMaxBy key l); [destruct (key x <? _)|]; discriminate.
Qed.

Lemma firstMaxBy_Some {A} (key : A -> Z) l r :
  firstMaxBy key l = Some r ->
  exists l1 l2,
    l = (l1 ++ r :: l2)%list
    /\ (forall c, c ∈ l1 -> key c < key r)
    /\ (forall c, c ∈ l2 -> key c <= key r).
Proof.
  revert r. induction l as [|x l IH]; simpl; [discriminate|]. intros r.
  destruct (firstMaxBy key l) as [y|] eqn:E.
  - destruct (IH y eq_refl) as (l1 & l2 & -> & H1 & H2).
    destruct (Z.ltb_spec (key x) (key y)) as [Hlt|Hge]; intros [= <-].
    + exists (x :: l1), l2. split; [reflexivity|]. split; [|assumption].
      intros c [->|Hc]%elem_of_cons; auto.
    + exists [], (l1 ++ y :: l2)%list. split; [reflexivity|].
      split; [intros c Hc; now apply elem_of_nil in Hc|].
      intros c [Hc|[->|Hc]%elem_of_cons]%elem_of_app.
      * apply H1 in Hc. lia.
      * lia.
      * apply H2 in Hc. lia.
  - apply firstMaxBy_None in E as ->. intros [= <-].
    exists [], []. split; [reflexivity|].
    split; intros c Hc; now apply elem_of_nil in Hc.
Qed.

Lemma getNextAvailableSource_firstMax currentSource episodeIndex st :
  getNextAvailableSource currentSource episodeIndex st
  = firstMaxBy (fun c => floatKey (totalScore c))
      (availableSources currentSource episodeIndex st).
Proof.
  unfold getNextAvailableSource.
  rewrite (head_sortWith compareSources (fun c => floatKey (totalScore c)))
    by apply compareSources_key.
  now destruct (availableSources currentSource episodeIndex st).
Qed.

Lemma isAvailable_true currentSource episodeIndex failed result :
  isAvailable currentSource episodeIndex failed result = true <->
  sr_source result <> currentSource
  /\ (sr_source result ∉ failed)
  /\ episodeIndex < lengthZ (sr_episodes result).
Proof.
  unfold isAvailable. rewrite !andb_true_iff, !negb_true_iff, Z.ltb_lt.
  rewrite bool_decide_eq_false.
  destruct (String.eqb_spec (sr_source result) currentSource); intuition congruence.
Qed.

Lemma elem_of_availableSources currentSource episodeIndex st c :
  c ∈ availableSources currentSource episodeIndex st <->
  c ∈ searchResults st
  /\ sr_source c <> currentSource
  /\ (sr_source c ∉ failedSources st)
  /\ episodeIndex < lengthZ (sr_episodes c).
Proof.
  unfold availableSources.
  now rewrite list_elem_of_In, filter_In, <- list_elem_of_In, isAvailable_true.
Qed.

Lemma getNextAvailableSource_None currentSource episodeIndex st :
  getNextAvailableSource currentSource episodeIndex st = None <->
  availableSources currentSource episodeIndex st = [].
Proof. rewrite getNextAvailableSource_firstMax. apply firstMaxBy_None. Qed.

Lemma getNextAvailableSource_Some currentSource episodeIndex st r :
  getNextAvailableSource currentSource episodeIndex st = Some r ->
  r ∈ searchResults st
  /\ sr_source r <> currentSource
  /\ (sr_source r ∉ failedSources st)
  /\ episodeIndex < lengthZ (sr_episodes r).
Proof.
  rewrite getNextAvailableSource_firstMax.
  intros H. apply (firstMaxBy_Some (fun c => floatKey (totalScore c))) in H.
  destruct H as (l1 & l2 & Hl & _).
  apply elem_of_availableSources. rewrite Hl.
  apply elem_of_app. right. apply list_elem_of_here.
Qed.

(** C2.  When [getNextAvailableSource(currentSource, episodeIndex)]
    returns a candidate, it is one of [searchResults], its source is
    not [currentSource], its source is not in [failedSources], and it
    has more than [episodeIndex] episodes; and the call returns none
    exactly when no candidate of [searchResults] satisfies the three
    conditions of the filter. *)
Theorem getNextAvailableSource_filter
    (currentSource : string) (episodeIndex : Z) (st : DetailState) :
  (forall r,
     getNextAvailableSource currentSource episodeIndex st = Some r ->
     r ∈ searchResults st
     /\ sr_source r <> currentSource
     /\ (sr_source r ∉ failedSources st)
     /\ episodeIndex < lengthZ (sr_episodes r))
  /\ (getNextAvailableSource currentSource episodeIndex st = None <->
      forall c,
        c ∈ searchResults st ->
        ~ (sr_source c <> currentSource
           /\ (sr_source c ∉ failedSources st)
           /\ episodeIndex < lengthZ (sr_episodes c))).
Proof.
  split; [intros r; apply getNextAvailableSource_Some|].
  rewrite getNextAvailableSource_None. split.
  - intros Hnil c Hc Hok.
    assert (Hin : c ∈ availableSources currentSource episodeIndex st)
      by now apply elem_of_availableSources.
    rewrite Hnil in Hin. now apply elem_of_nil in Hin.
  - intros Hnone.
    destruct (availableSources currentSource episodeIndex st) as [|c l] eqn:E;
      [reflexivity|].
    assert (Hin : c ∈ availableSources currentSource episodeIndex st)
      by (rewrite E; apply list_elem_of_here).
    apply elem_of_availableSources in Hin as (Hc & Hok). now apply Hnone in Hc.
Qed.

(** C3, counterexample.  The selection of the code is not the one the
    claim describes.  A latency of 2500 ms falls in bucket 4, not 3:
    with a 720p source measured at 2500 ms discovered before a 480p
    source measured at 800 ms, the claim's scores are 2.2 and 2.0 and
    the former should win, but the code scores them 1.8 and 2.0 and
    returns the latter.  And equal real-valued scores are not always
    equal binary64 scores: 720p at 1500 ms and 360p at 100 ms both
    score 2.2, the 720p source was discovered first, and the code
    returns the 360p source. *)
Lemma getNextAvailableSource_not_spec_selectFallback :
  speedScore (Some 2500) <> spec_latencyBucket (Some 2500)
  /\ getNextAvailableSource "a" 0
       (Scenario.detailState [Scenario.hd_slow; Scenario.sd_medium] None ∅)
     <> spec_selectFallback "a" 0
          (Scenario.detailState [Scenario.hd_slow; Scenario.sd_medium] None ∅)
  /\ spec_score10 Scenario.hd_slowish = spec_score10 Scenario.low_fast
  /\ getNextAvailableSource "a" 0
       (Scenario.detailState [Scenario.hd_slowish; Scenario.low_fast] None ∅)
     <> spec_selectFallback "a" 0
          (Scenario.detailState [Scenario.hd_slowish; Scenario.low_fast] None ∅).
Proof. repeat split; vm_compute; discriminate. Qed.

(** C3, amended.  [getNextAvailableSource] scores every filtered
    candidate as [tier * 0.6 + (4 - bucket) * 0.4] in binary64, where
    the tier is 4, 3, 2, 1 for a resolution that contains 1080, 720,
    480, 360 and 0 otherwise, and the bucket is 0, 1, 2, 3 below 300,
    600, 1000, 2000 ms, 4 from 2000 ms on and 3 for a latency that was
    not measured.  It returns the first candidate, in discovery order,
    among those of highest binary64 score: every candidate before it
    scores strictly less and no candidate after it scores more.  A
    higher real-valued score is a higher binary64 score, so the
    returned candidate also has a highest real-valued score.  In
    particular, 720p at 100 ms is never returned while 1080p at 250 ms
    is available. *)
Theorem getNextAvailableSource_ranking
    (currentSource : string) (episodeIndex : Z) (st : DetailState) :
  (forall c,
     totalScore c
     = Float.add
         (Float.mul (Float.ofZ (resolutionPriority (default "" (sr_resolution c))))
                    Float.c0_6)
         (Float.mul (Float.ofZ (4 - speedScore (sr_networkSpeed c))) Float.c0_4))
  /\ (resolutionPriority "1080p" = 4 /\ resolutionPriority "720p" = 3
      /\ resolutionPriority "480p" = 2 /\ resolutionPriority "360p" = 1
      /\ resolutionPriority "" = 0)
  /\ (forall ms,
        speedScore (Some ms)
        = if ms <? 300 then 0 else if ms <? 600 then 1
          else if ms <? 1000 then 2 else if ms <? 2000 then 3 else 4)
  /\ speedScore None = 3
  /\ (forall r,
        getNextAvailableSource currentSource episodeIndex st = Some r ->
        exists before after,
          availableSources currentSource episodeIndex st = (before ++ r :: after)%list
          /\ (forall c, c ∈ before -> Float.ltb (totalScore c) (totalScore r) = true)
          /\ (forall c, c ∈ after -> Float.ltb (totalScore r) (totalScore c) = false)
          /\ (forall c, c ∈ availableSources currentSource episodeIndex st ->
                        exactScore10 c <= exactScore10 r))
  /\ (forall a b,
        sr_resolution a = Some "1080p" -> sr_networkSpeed a = Some 250 ->
        sr_resolution b = Some "720p" -> sr_networkSpeed b = Some 100 ->
        a ∈ availableSources currentSource episodeIndex st ->
        getNextAvailableSource currentSource episodeIndex st <> Some b).
Proof.
  assert (Hsel : forall r,
        getNextAvailableSource currentSource episodeIndex st = Some r ->
        exists before after,
          availableSources currentSource episodeIndex st = (before ++ r :: after)%list
          /\ (forall c, c ∈ before -> floatKey (totalScore c) < floatKey (totalScore r))
          /\ (forall c, c ∈ after -> floatKey (totalScore c) <= floatKey (totalScore r))).
  { intros r. rewrite getNextAvailableSource_firstMax. intros H.
    now apply (firstMaxBy_Some (fun c => floatKey (totalScore c))) in H. }
  split; [reflexivity|]. split; [now vm_compute|]. split; [reflexivity|].
  split; [reflexivity|]. split.
  - intros r (before & after & Hl & Hb & Ha)%Hsel. exists before, after.
    split; [assumption|]. split; [|split].
    + intros c Hc. rewrite totalScore_ltb. apply Z.ltb_lt. auto.
    + intros c Hc. rewrite totalScore_ltb. apply Z.ltb_ge. auto.
    + intros c Hc. apply exactScore10_key. rewrite Hl in Hc.
      apply elem_of_app in Hc as [Hc|[->|Hc]%elem_of_cons].
      * apply Hb in Hc. lia.
      * lia.
      * auto.
  - intros a b Har Has Hbr Hbs Hin (before & after & Hl & Hb & Ha)%Hsel.
    assert (Hlt : floatKey (totalScore b) < floatKey (totalScore a)).
    { unfold totalScore. rewrite Har, Has, Hbr, Hbs. now vm_compute. }
    rewrite Hl in Hin. apply elem_of_app in Hin as [Hc|[->|Hc]%elem_of_cons].
    + apply Hb in Hc. lia.
    + lia.
    + apply Ha in Hc. lia.
Qed.

(** The example of the specification: 720p at 100 ms was discovered
    first, 1080p at 250 ms is returned. *)
Example getNextAvailableSource_prefers_1080p :
  getNextAvailableSource "a" 0
    (Scenario.detailState [Scenario.hd_fast; Scenario.full_hd] None ∅)
  = Some Scenario.full_hd.
Proof. reflexivity. Qed.

(** ** Merging search results *)







(** ** The probe cache *)

Lemma fetchCount_emit_Fetch url range w :
  fetchCount (emit (Fetch url range) w) = S (fetchCount w).
Proof. reflexivity. Qed.





(** ** Fail-over: [handleVideoError] *)

Lemma markSourceAsFailed_again source st :
  markSourceAsFailed source (markSourceAsFailed source st)
  = markSourceAsFailed source st.
Proof.
  unfold markSourceAsFailed, set_failedSources. simpl. f_equal.
  apply set_eq. intros x. rewrite !elem_of_union. tauto.
Qed.

(** What [handleVideoError] does when no candidate is left. *)
Lemma handleVideoError_noFallback env now errorType failedUrl w d :
  detail (detailStore w) = Some d ->
  noFallback w ->
  handleVideoError env now errorType failedUrl w
  = onPlayer (set_isLoading false)
      (emit allSourcesUnavailable
         (onDetail (markSourceAsFailed (sr_source d))
            (emit (VideoErrorHandled errorType failedUrl) w))).
Proof.
  intros Hd Hno. unfold noFallback in Hno. rewrite Hd in Hno.
  unfold handleVideoError, selectNextSource. simpl. rewrite Hd. simpl.
  rewrite Hno. apply getNextAvailableSource_None in Hno. now rewrite Hno.
Qed.

Lemma handleVideoError_noFallback_keeps env now errorType failedUrl w d :
  detail (detailStore w) = Some d ->
  noFallback w ->
  let w' := handleVideoError env now errorType failedUrl w in
  detail (detailStore w') = Some d
  /\ episodes (player w') = episodes (player w)
  /\ exhaustedCount w' = S (exhaustedCount w)
  /\ noFallback w'.
Proof.
  intros Hd Hno. simpl. rewrite (handleVideoError_noFallback _ _ _ _ _ d Hd Hno).
  repeat split; try reflexivity; try assumption.
  unfold noFallback in *. simpl. rewrite Hd in *. simpl.
  now rewrite markSourceAsFailed_again.
Qed.

(** C4, counterexample.  With source a the only source of the title,
    two ticks that report the same playback error invoke
    [handleVideoError] twice, and the all-sources-unavailable failure
    is shown twice; so do two direct invocations. *)
Lemma handleVideoError_surfaces_twice :
  noFallback (Scenario.onlySource 1500)
  /\ exhaustedCount (Scenario.onlySource 1500) = 0%nat
  /\ exhaustedCount
       (run Scenario.quick
          [(1000, StatusUpdate (NotLoaded (Some "boom")));
           (2000, StatusUpdate (NotLoaded (Some "boom")))]
          (Scenario.onlySource 1500)) = 2%nat
  /\ exhaustedCount
       (handleVideoErrors Scenario.quick
          [(1000, other, "https://a/1.m3u8"); (2000, other, "https://a/1.m3u8")]
          (Scenario.onlySource 1500)) = 2%nat.
Proof. repeat split; vm_compute; reflexivity. Qed.

(** C4, amended.  When [getNextAvailableSource] returns no candidate,
    every invocation of [handleVideoError] leaves the active detail and
    the episodes list as they were and shows the
    all-sources-unavailable failure once: after any sequence of such
    invocations the detail and the episodes are unchanged and the
    failure has been shown once per invocation. *)
Theorem handleVideoErrors_noFallback (env : Env)
    (calls : list (Z * ErrorType * string)) (w : World) (d : SearchResult) :
  detail (detailStore w) = Some d ->
  noFallback w ->
  detail (detailStore (handleVideoErrors env calls w)) = Some d
  /\ episodes (player (handleVideoErrors env calls w)) = episodes (player w)
  /\ exhaustedCount (handleVideoErrors env calls w)
     = (length calls + exhaustedCount w)%nat.
Proof.
  revert w. induction calls as [|[[now errorType] failedUrl] calls IH];
    intros w Hd Hno; simpl; [auto|].
  destruct (handleVideoError_noFallback_keeps env now errorType failedUrl w d Hd Hno)
    as (Hd' & He' & Hc' & Hno').
  destruct (IH _ Hd' Hno') as (H1 & H2 & H3).
  unfold handleVideoErrors in *. simpl. rewrite H1, H2, H3, He', Hc'.
  repeat split. lia.
Qed.

Lemma handleVideoErrors_noFallback_witness :
  let w := Scenario.onlySource 1500 in
  let calls := [(1000, other, "https://a/1.m3u8"); (2000, network, "https://a/1.m3u8")] in
  detail (detailStore (handleVideoErrors Scenario.quick calls w)) = Some Scenario.source_a
  /\ episodes (player (handleVideoErrors Scenario.quick calls w)) = episodes (player w)
  /\ exhaustedCount (handleVideoErrors Scenario.quick calls w)
     = (length calls + exhaustedCount w)%nat.
Proof.
  apply (handleVideoErrors_noFallback Scenario.quick _ (Scenario.onlySource 1500)).
  - reflexivity.
  - vm_compute. reflexivity.
Defined.

Lemma emitAll_frame es w :
  player (emitAll es w) = player w
  /\ detailStore (emitAll es w) = detailStore w
  /\ storage (emitAll es w) = storage w
  /\ timers (emitAll es w) = timers w
  /\ nextTimerId (emitAll es w) = nextTimerId w.
Proof.
  revert w. induction es as [|e es IH]; intros w; simpl; [now repeat split|].
  destruct (IH (emit e w)) as (H1 & H2 & H3 & H4 & H5).
  unfold emitAll in *. simpl. now rewrite H1, H2, H3, H4, H5.
Qed.

(** What [handleVideoError] does when a candidate is found and the
    favourite look-up of [setDetail] resolves. *)
Lemma handleVideoError_switch env now errorType failedUrl w d fallbackSource b :
  detail (detailStore w) = Some d ->
  getNextAvailableSource (sr_source d) (currentEpisodeIndex (player w))
    (markSourceAsFailed (sr_source d) (detailStore w)) = Some fallbackSource ->
  isFavoritedLookup env (sr_source fallbackSource) (sr_id fallbackSource) = Some b ->
  let w' := handleVideoError env now errorType failedUrl w in
  detail (detailStore w') = Some fallbackSource
  /\ failedSources (detailStore w') = {[sr_source d]} ∪ failedSources (detailStore w)
  /\ episodes (player w') = mapEpisodes (sr_episodes fallbackSource)
  /\ initialPosition (player w')
     = match status (player w) with
       | Some (Loaded st) => positionMillis st
       | _ => 0
       end
  /\ currentEpisodeIndex (player w') = currentEpisodeIndex (player w)
  /\ isLoading (player w') = false.
Proof.
  intros Hd Hfb Hfav.
  pose proof (getNextAvailableSource_Some _ _ _ _ Hfb) as (_ & _ & _ & Hlen).
  apply Z.ltb_lt in Hlen.
  unfold handleVideoError, selectNextSource, setDetail. simpl. rewrite Hd. simpl.
  rewrite Hfb, Hfav. simpl. rewrite Hlen.
  generalize (List.filter (needsSpeedTest now)
                (availableSources (sr_source d) (currentEpisodeIndex (player w))
                   (markSourceAsFailed (sr_source d) (detailStore w)))).
  intros l.
  set (w0 := onDetail (markSourceAsFailed (sr_source d))
               (emit (VideoErrorHandled errorType failedUrl) w)).
  destruct (emitAll_frame (map (fun r => SpeedTest (sr_source r)) l) w0)
    as (Hp1 & Hp2 & _).
  destruct (nthZ _ _); simpl; rewrite Hp1, Hp2; now repeat split.
Qed.






(** ** The active source and the failed sources *)

(** When [handleVideoError] switches, the new active source is not
    among the failed sources. *)
Lemma handleVideoError_switch_not_failed env now errorType failedUrl w d fallbackSource b :
  detail (detailStore w) = Some d ->
  getNextAvailableSource (sr_source d) (currentEpisodeIndex (player w))
    (markSourceAsFailed (sr_source d) (detailStore w)) = Some fallbackSource ->
  isFavoritedLookup env (sr_source fallbackSource) (sr_id fallbackSource) = Some b ->
  sr_source fallbackSource
    ∉ failedSources (detailStore (handleVideoError env now errorType failedUrl w)).
Proof.
  intros Hd Hfb Hfav.
  pose proof (getNextAvailableSource_Some _ _ _ _ Hfb) as (_ & _ & Hnf & _).
  destruct (handleVideoError_switch env now errorType failedUrl w d fallbackSource b
              Hd Hfb Hfav) as (_ & H2 & _).
  simpl in H2. now rewrite H2.
Qed.

(** C6, the failing input.  Source a is active and nothing has failed;
    the probe of its first episode is rejected and the probe of source
    b answers.  [loadVideo] switches the detail to source b and then
    marks the source of the reassigned [detail], b, as failed: the
    active source is a failed source, and a, the source whose preload
    failed, is not. *)
Theorem loadVideo_marks_fallback_failed :
  let env := Scenario.env ["https://a/1.m3u8"] (fun _ => 120) in
  let w := Scenario.twoSources 1500 in
  let w' := loadVideo env 1000 (mkLoadOptions "a" "7" "Title" 0 None) w in
  detail (detailStore w) = Some Scenario.source_a
  /\ failedSources (detailStore w) = ∅
  /\ detail (detailStore w') = Some Scenario.source_b
  /\ map ep_url (episodes (player w')) = sr_episodes Scenario.source_b
  /\ isLoading (player w') = false
  /\ "b" ∈ failedSources (detailStore w')
  /\ "a" ∉ failedSources (detailStore w').
Proof.
  repeat split; try (vm_compute; reflexivity).
  intros Hin. vm_compute in Hin. discriminate.
Qed.

(** ** Progress persistence *)

Lemma _savePlayRecord_storage now updates immediate w d st :
  detail (detailStore w) = Some d ->
  status (player w) = Some (Loaded st) ->
  immediate = true \/ _isRecordSaveThrottled (player w) = false ->
  exists record,
    storage (_savePlayRecord now updates immediate w)
    = PlayRecordManager_save (sr_source d) (sr_id d) record (storage w)
    /\ pr_play_time record = positionMillis st / 1000
    /\ pr_introEndTime record
       = spread (introEndTime (player w)) (upd_introEndTime updates)
    /\ pr_outroStartTime record
       = spread (outroStartTime (player w)) (upd_outroStartTime updates).
Proof.
  intros Hd Hst Hgo. unfold _savePlayRecord.
  assert (negb immediate && _isRecordSaveThrottled (player w) = false) as ->.
  { destruct Hgo as [-> | ->]; [reflexivity | apply andb_false_r]. }
  destruct immediate; simpl; rewrite Hd, Hst; simpl;
    eexists; (split; [reflexivity|]); now repeat split.
Qed.

(** C8, counterexample.  A record saved while the status reports
    position 1500 ms is read back by [loadVideo], for the same source
    and title id, as [initialPosition] 1000 ms. *)
Lemma save_then_load_truncates :
  let w := Scenario.onlySource 1500 in
  let saved := _savePlayRecord 1000 noUpdates true w in
  let loaded :=
    loadVideo Scenario.quick 2000 (mkLoadOptions "a" "7" "Title" 0 None) saved in
  status (player w) = Some (Loaded (Scenario.playing 1500))
  /\ detail (detailStore loaded) = detail (detailStore w)
  /\ isLoading (player loaded) = false
  /\ initialPosition (player loaded) = 1000
  /\ initialPosition (player loaded) <> 1500.
Proof. repeat split; vm_compute; (reflexivity || discriminate). Qed.

(** [loadVideo] either gives up, leaving [initialPosition] and the
    markers as they were, or ends with [restoreFromStorage]; it never
    writes to the storage. *)
Lemma preloadBlock_storage env now episodeIndex d eps w :
  match preloadBlock env now episodeIndex d eps w with
  | Continue _ _ w' => storage w' = storage w
  | Thrown w' => storage w' = storage w
  end.
Proof.
  assert (Hprobe : forall now url w, storage (_preloadAndTestSource env now url w).2 = storage w).
  { intros now' url w'. unfold _preloadAndTestSource, probeSource.
    repeat match goal with
           | |- context [match ?x with _ => _ end] => destruct x; simpl; try reflexivity
           end. }
  assert (Hsel : forall now cur idx w, storage (selectNextSource now cur idx w).2 = storage w).
  { intros now' cur idx w'. unfold selectNextSource. simpl.
    now destruct (emitAll_frame
      (map (fun r => SpeedTest (sr_source r))
         (List.filter (needsSpeedTest now') (availableSources cur idx (detailStore w')))) w')
      as (_ & _ & -> & _). }
  assert (Hset : forall fb w, storage (setDetail env fb w).2 = storage w).
  { intros fb w'. unfold setDetail. now destruct (isFavoritedLookup env _ _). }
  assert (Hpf : forall url w,
             storage (preloadOrFallback env now episodeIndex url d eps w).2 = storage w).
  { intros url w'. unfold preloadOrFallback.
    pose proof (Hprobe now url w') as H1.
    destruct (_preloadAndTestSource env now url w') as [good w1]. simpl in H1.
    destruct good; [exact H1|].
    pose proof (Hsel now (sr_source d) episodeIndex w1) as H2.
    destruct (selectNextSource now (sr_source d) episodeIndex w1) as [[fb|] w2];
      simpl in H2; [|simpl; congruence].
    destruct (episodeIndex <? lengthZ (sr_episodes fb)); [|simpl; congruence].
    destruct (nthZ (sr_episodes fb) episodeIndex) as [fallbackUrl|]; [|simpl; congruence].
    pose proof (Hprobe now fallbackUrl w2) as H3.
    destruct (_preloadAndTestSource env now fallbackUrl w2) as [good2 w3]. simpl in H3.
    destruct good2; [|simpl; congruence].
    pose proof (Hset fb w3) as H4.
    destruct (setDetail env fb w3) as [resolved w4]. simpl in H4.
    destruct resolved; simpl; congruence. }
  unfold preloadBlock.
  destruct (episodeIndex <? lengthZ eps); [|reflexivity].
  destruct (nthZ eps episodeIndex) as [episodeUrl|]; [|reflexivity].
  destruct (negb _); [|reflexivity].
  pose proof (Hpf episodeUrl (onPlayer (set__preloadingEpisode (Some episodeUrl)) w)) as H.
  destruct (preloadOrFallback env now episodeIndex episodeUrl d eps _) as [r w2].
  simpl in H. destruct r as [[d1 eps1]|]; simpl; [|assumption].
  now destruct (nthZ eps1 (episodeIndex + 1)).
Qed.

Lemma loadVideo_restores env now o w :
  (exists d eps w',
     loadVideo env now o w = restoreFromStorage o d eps w'
     /\ storage w' = storage w)
  \/ (storage (loadVideo env now o w) = storage w
      /\ initialPosition (player (loadVideo env now o w)) = initialPosition (player w)
      /\ introEndTime (player (loadVideo env now o w)) = introEndTime (player w)
      /\ outroStartTime (player (loadVideo env now o w)) = outroStartTime (player w)).
Proof.
  assert (Hframe : forall w1 : World,
            storage w1 = storage w ->
            initialPosition (player w1) = initialPosition (player w) ->
            introEndTime (player w1) = introEndTime (player w) ->
            outroStartTime (player w1) = outroStartTime (player w) ->
            forall r w2,
              (r, w2) = resolveDetailAfterInit env o w1 \/
              (exists d eps, (r, w2) = resolveCached o d eps w1) ->
              storage w2 = storage w
              /\ initialPosition (player w2) = initialPosition (player w)
              /\ introEndTime (player w2) = introEndTime (player w)
              /\ outroStartTime (player w2) = outroStartTime (player w)).
  { intros w1 H1 H2 H3 H4 r w2 [Hr | (d & eps & Hr)].
    - unfold resolveDetailAfterInit in Hr.
      repeat match type of Hr with
             | context [match ?x with _ => _ end] => destruct x
             end; injection Hr as -> ->; now repeat split.
    - unfold resolveCached in Hr.
      repeat match type of Hr with
             | context [match ?x with _ => _ end] => destruct x
             end; injection Hr as -> ->; now repeat split. }
  unfold loadVideo.
  set (w1 := onPlayer (set_isLoading true) w).
  match goal with
  | |- context [let (resolved, w2) := ?e in _] =>
      destruct e as [resolved w2] eqn:E
  end.
  assert (Hw2 : storage w2 = storage w
                /\ initialPosition (player w2) = initialPosition (player w)
                /\ introEndTime (player w2) = introEndTime (player w)
                /\ outroStartTime (player w2) = outroStartTime (player w)).
  { apply (Hframe w1 eq_refl eq_refl eq_refl eq_refl resolved w2).
    destruct (detail (detailStore w)) as [d|]; [|left; now rewrite E].
    destruct (_ || _); [left; now rewrite E | right; exists d; eexists; now rewrite E]. }
  destruct resolved as [[d1 eps1]|]; [|right; exact Hw2].
  pose proof (preloadBlock_storage env now (lo_episodeIndex o) d1 eps1 w2) as Hpb.
  destruct (preloadBlock env now (lo_episodeIndex o) d1 eps1 w2) as [d2 eps2 w3|w3] eqn:E2.
  - left. exists d2, eps2, w3. split; [reflexivity|]. destruct Hw2. congruence.
  - right. revert E2. unfold preloadBlock.
    destruct (lo_episodeIndex o <? lengthZ eps1); [|discriminate].
    destruct (nthZ eps1 (lo_episodeIndex o)); [|intros [= <-]; exact Hw2].
    destruct (negb _); [|discriminate].
    destruct (preloadOrFallback _ _ _ _ _ _ _) as [[[? ?]|] ?]; discriminate.
Qed.

(** C8, amended.  After [_savePlayRecord] has written the record of
    the active detail, the part of [loadVideo] that reads it back for
    the same source and title id, with no explicit position, sets
    [initialPosition] to the saved position truncated to whole seconds,
    and sets each intro or outro marker that was set (non-zero) when
    the record was saved to exactly the saved value; a marker that was
    not set is taken from the player settings. *)
Theorem save_restore_roundtrip (now : Z) (updates : RecordUpdates) (immediate : bool)
    (w w' : World) (d d' : SearchResult) (st : LoadedStatus) (o : LoadOptions)
    (eps : list string) :
  detail (detailStore w) = Some d ->
  status (player w) = Some (Loaded st) ->
  immediate = true \/ _isRecordSaveThrottled (player w) = false ->
  storage w' = storage (_savePlayRecord now updates immediate w) ->
  sr_source d' = sr_source d ->
  sr_id d' = sr_id d ->
  truthyZ (lo_position o) = false ->
  let savedIntro := spread (introEndTime (player w)) (upd_introEndTime updates) in
  let savedOutro := spread (outroStartTime (player w)) (upd_outroStartTime updates) in
  let settings := PlayerSettingsManager_get (sr_source d) (sr_id d) (storage w) in
  let p' := player (restoreFromStorage o d' eps w') in
  initialPosition p' = 1000 * (positionMillis st / 1000)
  /\ introEndTime p'
     = (if truthyZ savedIntro then savedIntro else settings ≫= ps_introEndTime)
  /\ outroStartTime p'
     = (if truthyZ savedOutro then savedOutro else settings ≫= ps_outroStartTime).
Proof.
  intros Hd Hst Hgo Hsto Hsrc Hid Hpos.
  destruct (_savePlayRecord_storage now updates immediate w d st Hd Hst Hgo)
    as (record & Hsaved & Hpt & Hintro & Houtro).
  unfold restoreFromStorage. simpl.
  unfold PlayRecordManager_get, PlayerSettingsManager_get.
  rewrite Hsto, Hsaved, Hsrc, Hid, Hpos. simpl.
  rewrite lookup_insert_eq. simpl. rewrite Hpt, Hintro, Houtro.
  split; [|now split].
  destruct (Z.eqb_spec (positionMillis st / 1000) 0) as [->|]; lia.
Qed.

Lemma save_restore_roundtrip_witness :
  let w := Scenario.onlySource 61500 in
  let updates := mkRecordUpdates (Some (Some 61500)) None in
  let o := mkLoadOptions "a" "7" "Title" 0 None in
  let p' := player (restoreFromStorage o Scenario.source_a
                      (sr_episodes Scenario.source_a)
                      (_savePlayRecord 1000 updates true w)) in
  initialPosition p' = 1000 * (61500 / 1000)
  /\ introEndTime p' = Some 61500
  /\ outroStartTime p' = None.
Proof.
  apply (save_restore_roundtrip 1000 (mkRecordUpdates (Some (Some 61500)) None) true
           (Scenario.onlySource 61500) _ Scenario.source_a Scenario.source_a
           (Scenario.playing 61500) (mkLoadOptions "a" "7" "Title" 0 None)
           (sr_episodes Scenario.source_a));
    try reflexivity.
  now left.
Defined.

(** ** Buffering escalation *)

(** C1, counterexample.  From a state that plays source a with source b
    available, three ticks that stay loaded, not playing and buffering
    at a nonzero position over 21 seconds, with no user pause and no
    seek: the timer fires once, seeks back five seconds, and
    [handleVideoError] is not invoked. *)
Lemma stalled_ticks_no_failover :
  let w := Scenario.twoSources 30000 in
  Forall (fun tk => stalled tk.2 = true) Scenario.stallTicks
  /\ isUserPaused (player w) = false
  /\ _lastSeekTime (player w) = None
  /\ 20000 < 22000 - 1000
  /\ failoverCount w = 0%nat
  /\ failoverCount (runTicks Scenario.quick Scenario.stallTicks 22000 w) <> 1%nat
  /\ effects (runTicks Scenario.quick Scenario.stallTicks 22000 w) = [SeekTo 25000].
Proof.
  repeat split; try (vm_compute; (reflexivity || discriminate)).
  repeat constructor.
Qed.

Lemma bufferingTimers_app l1 l2 :
  bufferingTimers (l1 ++ l2) = (bufferingTimers l1 ++ bufferingTimers l2)%list.
Proof. apply List.filter_app. Qed.

Lemma bufferingTimers_filter p l :
  bufferingTimers (List.filter p l) = List.filter p (bufferingTimers l).
Proof.
  unfold bufferingTimers. induction l as [|t l IH]; simpl; [reflexivity|].
  destruct (p t) eqn:Hp, (isPendingBuffering t) eqn:Hb; simpl;
    rewrite ?Hp, ?Hb, IH; reflexivity.
Qed.

Lemma bufferingTimers_insertByDue t l :
  bufferingTimers (insertByDue t l) ≡ₚ bufferingTimers (t :: l).
Proof.
  induction l as [|t' l IH]; simpl; [reflexivity|].
  destruct (timerDue t <? timerDue t'); [reflexivity|].
  simpl in *. destruct (isPendingBuffering t'), (isPendingBuffering t);
    rewrite IH; (reflexivity || apply Permutation_swap).
Qed.

Lemma bufferingTimers_dueOrder l :
  bufferingTimers (dueOrder l) ≡ₚ bufferingTimers l.
Proof.
  unfold dueOrder.
  assert (H : forall acc,
             bufferingTimers (foldl (fun acc t => insertByDue t acc) acc l)
             ≡ₚ (bufferingTimers acc ++ bufferingTimers l)%list).
  { induction l as [|t l IH]; intros acc; simpl.
    - now rewrite app_nil_r.
    - rewrite IH, bufferingTimers_insertByDue. simpl.
      destruct (isPendingBuffering t); [|reflexivity].
      simpl. apply Permutation_middle. }
  now rewrite H.
Qed.

(** Firing the due timers when none of them is a buffering timer, and
    when exactly one is. *)
Lemma fire_others env (P : World -> Prop) l w :
  (forall tm w, isPendingBuffering tm = false -> P w -> P (fireTimer env tm w)) ->
  bufferingTimers l = [] ->
  P w ->
  P (foldl (fun w t => fireTimer env t w) w l).
Proof.
  intros Hother. revert w. induction l as [|tm l IH]; intros w Hl Hw; simpl; [assumption|].
  unfold bufferingTimers in Hl. simpl in Hl.
  destruct (isPendingBuffering tm) eqn:Htm; [discriminate|].
  apply IH; auto.
Qed.

Lemma fire_one env (P Q : World -> Prop) bt l w :
  (forall tm w, isPendingBuffering tm = false -> P w -> P (fireTimer env tm w)) ->
  (forall tm w, isPendingBuffering tm = false -> Q w -> Q (fireTimer env tm w)) ->
  (forall w, P w -> Q (fireTimer env bt w)) ->
  bufferingTimers l = [bt] ->
  P w ->
  Q (foldl (fun w t => fireTimer env t w) w l).
Proof.
  intros HP HQ Hbt. revert w. induction l as [|tm l IH]; intros w Hl Hw; simpl.
  - discriminate.
  - unfold bufferingTimers in Hl. simpl in Hl.
    destruct (isPendingBuffering tm) eqn:Htm.
    + injection Hl as -> Hl. apply fire_others; auto.
    + apply IH; auto.
Qed.

(** What the parts of the status handler leave untouched. *)
Lemma playEpisode_frame env now index w :
  escalationState (playEpisode env now index w) = escalationState w
  /\ timers (playEpisode env now index w) = timers w
  /\ status (player (playEpisode env now index w)) = status (player w).
Proof.
  unfold playEpisode. destruct (_ && _); [destruct (replayAsync env now)|];
    now repeat split.
Qed.

Lemma _savePlayRecord_frame now updates immediate w :
  escalationState (_savePlayRecord now updates immediate w) = escalationState w
  /\ bufferingTimers (timers (_savePlayRecord now updates immediate w))
     = bufferingTimers (timers w)
  /\ status (player (_savePlayRecord now updates immediate w)) = status (player w).
Proof.
  unfold _savePlayRecord. destruct (negb immediate && _); [now repeat split|].
  destruct immediate; simpl.
  - destruct (detail (detailStore w)); [|now repeat split].
    destruct (status (player w)) as [[|]|] eqn:E; repeat split; try reflexivity;
      simpl; now rewrite E.
  - destruct (detail (detailStore w)); simpl;
      [destruct (status (player w)) as [[|]|] eqn:E; simpl|];
      (split; [reflexivity|]); (split; [|simpl; now rewrite ?E]);
      rewrite bufferingTimers_app; apply app_nil_r.
Qed.

Lemma trackProgress_frame env now st s0 detail0 w :
  escalationState (trackProgress env now st s0 detail0 w) = escalationState w
  /\ bufferingTimers (timers (trackProgress env now st s0 detail0 w))
     = bufferingTimers (timers w)
  /\ (truthyZ (outroStartTime s0) = false ->
      status (player (trackProgress env now st s0 detail0 w)) = Some (Loaded st)).
Proof.
  assert (Hrest : forall w3 : World,
            escalationState w3 = escalationState w ->
            bufferingTimers (timers w3) = bufferingTimers (timers w) ->
            forall b : bool,
              let w4 := if b then playEpisode env now (currentEpisodeIndex s0 + 1) w3
                        else w3 in
              escalationState (onPlayer (set_status (Some (Loaded st))) w4)
              = escalationState w
              /\ bufferingTimers (timers (onPlayer (set_status (Some (Loaded st))) w4))
                 = bufferingTimers (timers w)
              /\ status (player (onPlayer (set_status (Some (Loaded st))) w4))
                 = Some (Loaded st)).
  { intros w3 H3 H3' b. simpl. split; [|split; [|reflexivity]].
    - rewrite <- H3. destruct b; [|reflexivity].
      destruct (playEpisode_frame env now (currentEpisodeIndex s0 + 1) w3) as (H4 & _).
      rewrite <- H4. reflexivity.
    - rewrite <- H3'. destruct b; [|reflexivity].
      destruct (playEpisode_frame env now (currentEpisodeIndex s0 + 1) w3)
        as (_ & H4 & _).
      simpl. now rewrite H4. }
  assert (Hsave : forall b : bool,
            let w3 := if b then _savePlayRecord now noUpdates false w else w in
            escalationState w3 = escalationState w
            /\ bufferingTimers (timers w3) = bufferingTimers (timers w)).
  { intros [|]; simpl; [|now split].
    now destruct (_savePlayRecord_frame now noUpdates false w) as (-> & -> & _). }
  unfold trackProgress.
  match goal with
  | |- context [if ?c then playEpisode _ _ _ w else _] => destruct c eqn:Hc
  end.
  - destruct (playEpisode_frame env now (currentEpisodeIndex s0 + 1) w) as (-> & -> & _).
    split; [reflexivity|]. split; [reflexivity|].
    intros Houtro. rewrite Houtro in Hc. discriminate.
  - destruct (Hsave (bool_decide (is_Some detail0) && truthyZ (durationMillis st)))
      as [H3 H3'].
    destruct (Hrest _ H3 H3'
                (didJustFinish st
                 && (currentEpisodeIndex s0 <? lengthZ (episodes s0) - 1)))
      as (H5 & H6 & H7).
    split; [exact H5|]. split; [exact H6|]. intros _. exact H7.
Qed.

Lemma fireTimer_other_frame env tm w :
  isPendingBuffering tm = false ->
  escalationState (fireTimer env tm w) = escalationState w
  /\ timers (fireTimer env tm w) = timers w
  /\ status (player (fireTimer env tm w)) = status (player w).
Proof.
  destruct tm as [| |due episodeIndex url]; [discriminate| |]; intros _; simpl.
  - now repeat split.
  - destruct (_ =? _); [|now repeat split].
    unfold _preloadAndTestSource, probeSource.
    repeat match goal with
           | |- context [match ?x with _ => _ end] => destruct x; simpl
           end; now repeat split.
Qed.

Lemma seekedWithin_later ls t0 t :
  seekedWithin 15000 t0 ls = false -> t0 <= t -> seekedWithin 10000 t ls = false.
Proof.
  unfold seekedWithin. destruct ls as [s|]; [|reflexivity].
  destruct (s =? 0); [reflexivity|].
  rewrite !Z.ltb_ge. lia.
Qed.

Lemma stalled_fields st :
  stalled st = true ->
  isPlaying st = false /\ isBuffering st = true
  /\ (0 <? positionMillis st) = true /\ (0 <? default 0 (durationMillis st)) = true.
Proof.
  unfold stalled. rewrite !andb_true_iff, negb_true_iff. tauto.
Qed.

(** A stalled tick changes nothing of the escalation once the
    buffering has started. *)
Lemma detectBuffering_started t st w ls r t0 outro det c :
  escalationState w = (false, ls, r, Some t0, outro, det, c) ->
  stalled st = true -> 0 < t0 ->
  seekedWithin 10000 t ls = false ->
  detectBuffering t st (player w) (detail (detailStore w)) w = w.
Proof.
  intros He (Hplay & Hbuf & Hpos & Hdur)%stalled_fields Ht0 Hseek.
  unfold escalationState in He. injection He as Hup Hls Hr Hstart _ _ _.
  unfold detectBuffering.
  rewrite Hplay, Hup, Hls, Hseek, Hpos, Hdur, Hbuf, Hstart. simpl.
  now destruct (Z.eqb_spec t0 0); [lia|].
Qed.

Lemma tick_armed env t st w ls outro det c t0 pendingTimers :
  armed ls outro det c t0 pendingTimers w ->
  stalled st = true -> 0 < t0 -> seekedWithin 10000 t ls = false ->
  armed ls outro det c t0 pendingTimers
    (handlePlaybackStatusUpdate env t (Loaded st) w).
Proof.
  intros (He & Htm & Hst) Hstalled Ht0 Hseek. simpl.
  rewrite (detectBuffering_started t st w ls 0 t0 outro det c He Hstalled Ht0 Hseek).
  destruct (trackProgress_frame env t st (player w) (detail (detailStore w)) w)
    as (H1 & H2 & H3).
  split; [now rewrite H1|]. split; [now rewrite H2|].
  intros _ Houtro. exists st. split; [|assumption]. apply H3.
  unfold escalationState in He. now injection He as _ _ _ _ -> _ _.
Qed.

Lemma tick_fired env t st w ls outro det c t0 :
  fired ls outro det c t0 w ->
  stalled st = true -> 0 < t0 -> seekedWithin 10000 t ls = false ->
  fired ls outro det c t0 (handlePlaybackStatusUpdate env t (Loaded st) w).
Proof.
  intros (r & He & Htm & Hr) Hstalled Ht0 Hseek. simpl.
  rewrite (detectBuffering_started t st w ls r t0 outro det c He Hstalled Ht0 Hseek).
  destruct (trackProgress_frame env t st (player w) (detail (detailStore w)) w)
    as (H1 & H2 & _).
  exists r. split; [now rewrite H1|]. split; [now rewrite H2|]. assumption.
Qed.

(** The first stalled tick arms the timer. *)
Lemma tick_first env t0 st w ls r start outro det c :
  escalationState w = (false, ls, r, start, outro, det, c) ->
  notBuffering w ->
  stalled st = true -> 0 < t0 -> seekedWithin 10000 t0 ls = false ->
  armed ls outro det c t0
    [BufferingTimer (nextTimerId w) (t0 + 20000) t0 det (currentEpisodeIndex (player w))]
    (handlePlaybackStatusUpdate env t0 (Loaded st) w).
Proof.
  intros He [Hstart Htm] Hstalled Ht0 Hseek. simpl.
  pose proof Hstalled as (Hplay & Hbuf & Hpos & Hdur)%stalled_fields.
  unfold escalationState in He. injection He as Hup Hls Hr Hs Houtro Hdet Hc.
  set (w1 := detectBuffering t0 st (player w) (detail (detailStore w)) w).
  assert (H1 : escalationState w1 = (false, ls, 0, Some t0, outro, det, c)
               /\ bufferingTimers (timers w1)
                  = [BufferingTimer (nextTimerId w) (t0 + 20000) t0 det
                       (currentEpisodeIndex (player w))]).
  { subst w1. unfold detectBuffering.
    rewrite Hplay, Hup, Hls, Hseek, Hpos, Hdur, Hbuf, Hstart. simpl.
    unfold escalationState. simpl. rewrite Hup, Hls, Houtro, Hdet.
    split; [now rewrite <- Hc|].
    rewrite bufferingTimers_app, Htm. reflexivity. }
  destruct H1 as [H1 H1'].
  destruct (trackProgress_frame env t0 st (player w) (detail (detailStore w)) w1)
    as (H2 & H3 & H4).
  split; [now rewrite H2|]. split; [now rewrite H3|].
  intros _ Ho. exists st. split; [|assumption]. apply H4. now rewrite Houtro.
Qed.

(** A tick that is not playing keeps the pause. *)
Lemma tick_paused env t st w c :
  paused c w -> isPlaying st = false ->
  paused c (handlePlaybackStatusUpdate env t (Loaded st) w).
Proof.
  intros (Hup & Htm & Hc) Hplay. simpl.
  set (w1 := detectBuffering t st (player w) (detail (detailStore w)) w).
  assert (H1 : paused c w1).
  { subst w1. unfold detectBuffering. rewrite Hplay, Hup. simpl.
    destruct (truthyZ (_bufferingStartTime (player w)));
      destruct (_bufferingTimeout (player w)); unfold paused; simpl;
      rewrite ?Hup, ?Hc; repeat split; try assumption;
      fold (bufferingTimers
              (List.filter (fun t => negb (isBufferingTimer n t)) (timers w)));
      now rewrite bufferingTimers_filter, Htm. }
  destruct H1 as (H1 & H2 & H3).
  destruct (trackProgress_frame env t st (player w) (detail (detailStore w)) w1)
    as (H4 & H5 & _).
  unfold escalationState in H4. injection H4 as H4 _ _ _ _ _ H4'.
  split; [congruence|]. split; congruence.
Qed.

(** The timer fires at attempt zero: the attempt is counted and
    [handleVideoError] is not invoked. *)
Lemma bufferingTimedOut_armed env at_ w ls outro det c t0 currentEpisodeIndex0 :
  armed ls outro det c t0 [] w ->
  seekedWithin 15000 t0 ls = false ->
  fired ls outro det c t0 (bufferingTimedOut env at_ t0 det currentEpisodeIndex0 w).
Proof.
  intros (He & Htm & Hst) Hseek.
  pose proof He as He'. unfold escalationState in He'.
  injection He' as Hup Hls Hr Hstart Houtro Hdet Hc.
  unfold bufferingTimedOut. rewrite Hup, Hls, Hseek, Hr. simpl.
  assert (Hstay : (is_Some det -> truthyZ outro = false -> False) ->
                  fired ls outro det c t0 w).
  { intros Hweak. exists 0. repeat split; try assumption; try lia.
    intros H1 H2. destruct (Hweak H1 H2). }
  destruct (status (player w)) as [[err|cs]|] eqn:Hstatus.
  - apply Hstay. intros H1 H2. destruct (Hst H1 H2) as (st & [=] & _).
  - match goal with
    | |- context [if ?cond then _ else w] => destruct cond eqn:Hcond
    end.
    + exists 1. unfold escalationState.
      destruct (nthZ (episodes (player w)) currentEpisodeIndex0);
        [destruct (10000 <? positionMillis cs)|]; simpl;
        rewrite Hup, Hls, Hstart, Houtro, Hdet; unfold failoverCount in Hc; simpl;
        (split; [now rewrite <- Hc|]); (split; [assumption|]); split; (lia || auto).
    + apply Hstay. intros H1 H2. destruct (Hst H1 H2) as (st & [= <-] & Hstalled).
      apply stalled_fields in Hstalled as (Hplay & Hbuf & Hpos & _).
      rewrite Hplay, Hbuf, Hpos in Hcond.
      now rewrite (bool_decide_eq_true_2 _ H1) in Hcond.
  - apply Hstay. intros H1 H2. destruct (Hst H1 H2) as (st & [=] & _).
Qed.

Lemma Permutation_nil_eq (l : list Timer) : l ≡ₚ [] -> l = [].
Proof. intros H. symmetry in H. now apply Permutation_nil in H. Qed.

Lemma Permutation_singleton_eq (t : Timer) (l : list Timer) : l ≡ₚ [t] -> l = [t].
Proof. intros H. symmetry in H. now apply Permutation_length_1_inv in H. Qed.

Lemma armed_other env tm w ls outro det c t0 pendingTimers :
  isPendingBuffering tm = false ->
  armed ls outro det c t0 pendingTimers w ->
  armed ls outro det c t0 pendingTimers (fireTimer env tm w).
Proof.
  intros Htm (H1 & H2 & H3).
  destruct (fireTimer_other_frame env tm w Htm) as (F1 & F2 & F3).
  unfold armed. now rewrite F1, F2, F3.
Qed.

Lemma fired_other env tm w ls outro det c t0 :
  isPendingBuffering tm = false ->
  fired ls outro det c t0 w ->
  fired ls outro det c t0 (fireTimer env tm w).
Proof.
  intros Htm (r & H1 & H2 & H3).
  destruct (fireTimer_other_frame env tm w Htm) as (F1 & F2 & _).
  exists r. now rewrite F1, F2.
Qed.

Lemma paused_other env tm w c :
  isPendingBuffering tm = false ->
  paused c w -> paused c (fireTimer env tm w).
Proof.
  intros Htm (H1 & H2 & H3).
  destruct (fireTimer_other_frame env tm w Htm) as (F1 & F2 & _).
  unfold escalationState in F1. injection F1 as F1 _ _ _ _ _ F1'.
  unfold paused. now rewrite F1, F2, F1'.
Qed.

(** The clock advances while the timer is pending, when it comes due,
    and after it has fired. *)
Lemma advance_armed_early env t w ls outro det c t0 id currentEpisodeIndex0 :
  let bt := BufferingTimer id (t0 + 20000) t0 det currentEpisodeIndex0 in
  armed ls outro det c t0 [bt] w ->
  t < t0 + 20000 ->
  armed ls outro det c t0 [bt] (advance env t w).
Proof.
  intros bt (H1 & H2 & H3) Ht. unfold advance.
  apply fire_others.
  - intros tm w'. apply armed_other.
  - apply Permutation_nil_eq. rewrite bufferingTimers_dueOrder, bufferingTimers_filter, H2.
    simpl. now destruct (Z.leb_spec (t0 + 20000) t); [lia|].
  - split; [exact H1|]. split; [|exact H3]. simpl.
    rewrite bufferingTimers_filter, H2. simpl.
    now destruct (Z.leb_spec (t0 + 20000) t); [lia|].
Qed.

Lemma advance_armed_late env t w ls outro det c t0 id currentEpisodeIndex0 :
  let bt := BufferingTimer id (t0 + 20000) t0 det currentEpisodeIndex0 in
  armed ls outro det c t0 [bt] w ->
  seekedWithin 15000 t0 ls = false ->
  t0 + 20000 <= t ->
  fired ls outro det c t0 (advance env t w).
Proof.
  intros bt (H1 & H2 & H3) Hseek Ht. unfold advance.
  apply (fire_one env (armed ls outro det c t0 []) (fired ls outro det c t0) bt).
  - intros tm w'. apply armed_other.
  - intros tm w'. apply fired_other.
  - intros w' Hw'. now apply bufferingTimedOut_armed.
  - apply Permutation_singleton_eq.
    rewrite bufferingTimers_dueOrder, bufferingTimers_filter, H2.
    simpl. now destruct (Z.leb_spec (t0 + 20000) t); [|lia].
  - split; [exact H1|]. split; [|exact H3]. simpl.
    rewrite bufferingTimers_filter, H2. simpl.
    now destruct (Z.leb_spec (t0 + 20000) t); [|lia].
Qed.

Lemma advance_fired env t w ls outro det c t0 :
  fired ls outro det c t0 w -> fired ls outro det c t0 (advance env t w).
Proof.
  intros (r & H1 & H2 & H3). unfold advance.
  apply fire_others.
  - intros tm w'. apply fired_other.
  - apply Permutation_nil_eq.
    now rewrite bufferingTimers_dueOrder, bufferingTimers_filter, H2.
  - exists r. split; [exact H1|]. split; [|exact H3]. simpl.
    now rewrite bufferingTimers_filter, H2.
Qed.

Lemma advance_paused env t w c : paused c w -> paused c (advance env t w).
Proof.
  intros (H1 & H2 & H3). unfold advance.
  apply fire_others.
  - intros tm w'. apply paused_other.
  - apply Permutation_nil_eq.
    now rewrite bufferingTimers_dueOrder, bufferingTimers_filter, H2.
  - split; [exact H1|]. split; [|exact H3]. simpl.
    now rewrite bufferingTimers_filter, H2.
Qed.

Lemma advance_notBuffering env t w e :
  escalationState w = e -> notBuffering w ->
  escalationState (advance env t w) = e /\ notBuffering (advance env t w).
Proof.
  intros He [Hs Htm]. unfold advance.
  apply (fire_others env (fun w => escalationState w = e /\ notBuffering w)).
  - intros tm w' Hb [H1 [H2 H3]].
    destruct (fireTimer_other_frame env tm w' Hb) as (F1 & F2 & _).
    split; [congruence|]. unfold notBuffering. rewrite F2. split; [|assumption].
    unfold escalationState in F1. injection F1 as _ _ _ F1 _ _ _. now rewrite F1.
  - apply Permutation_nil_eq.
    now rewrite bufferingTimers_dueOrder, bufferingTimers_filter, Htm.
  - split; [exact He|]. split; [exact Hs|]. simpl.
    now rewrite bufferingTimers_filter, Htm.
Qed.

Lemma run_stalled env ticks w ls outro det c t0 id currentEpisodeIndex0 :
  let bt := BufferingTimer id (t0 + 20000) t0 det currentEpisodeIndex0 in
  armed ls outro det c t0 [bt] w \/ fired ls outro det c t0 w ->
  0 < t0 ->
  seekedWithin 15000 t0 ls = false ->
  Forall (fun tk => stalled tk.2 = true /\ t0 <= tk.1) ticks ->
  armed ls outro det c t0 [bt]
    (run env (map (fun tk => (tk.1, StatusUpdate (Loaded tk.2))) ticks) w)
  \/ fired ls outro det c t0
       (run env (map (fun tk => (tk.1, StatusUpdate (Loaded tk.2))) ticks) w).
Proof.
  intros bt Hw Ht0 Hseek Hticks. revert w Hw.
  induction Hticks as [|[t st] ticks [Hst Ht] _ IH]; intros w Hw; simpl; [assumption|].
  simpl in Hst, Ht. apply IH.
  pose proof (seekedWithin_later ls t0 t Hseek Ht) as Hseek'.
  destruct Hw as [Hw|Hw].
  - destruct (Z.lt_ge_cases t (t0 + 20000)) as [Hearly|Hlate].
    + left. apply tick_armed; auto. now apply advance_armed_early.
    + right. apply tick_fired; auto. now apply (advance_armed_late env t w _ _ _ _ _ id currentEpisodeIndex0).
  - right. apply tick_fired; auto. now apply advance_fired.
Qed.

Lemma run_paused env ticks w c :
  paused c w ->
  Forall (fun tk : Z * LoadedStatus => isPlaying tk.2 = false) ticks ->
  paused c (run env (map (fun tk => (tk.1, StatusUpdate (Loaded tk.2))) ticks) w).
Proof.
  intros Hw Hticks. revert w Hw.
  induction Hticks as [|[t st] ticks Hst _ IH]; intros w Hw; simpl; [assumption|].
  apply IH. apply tick_paused; [|assumption]. now apply advance_paused.
Qed.

(** C1, amended.  Take a state in which no buffering is tracked and a
    sequence of status ticks, the first at [t0], that stay loaded, not
    playing and buffering at a nonzero position of a stream of known
    duration, observed until [T].
    - If [isUserPaused] is true at the start (and so throughout),
      [handlePlaybackStatusUpdate] and its timer never invoke
      [handleVideoError].
    - If the user has not paused, no seek happened in the 15 seconds
      before [t0] and the sequence lasts more than 20 and less than 40
      seconds, the timer armed at [t0] fires as retry attempt 0:
      [handleVideoError] is not invoked, and [_bufferingRetryCount] is
      at most 1, exactly 1 when a detail is loaded and no outro
      marker is set. *)
Theorem stalled_ticks_first_attempt (env : Env) (w : World) (t0 : Z)
    (s0 : LoadedStatus) (ticks : list (Z * LoadedStatus)) (T : Z) :
  notBuffering w ->
  0 < t0 ->
  stalled s0 = true ->
  Forall (fun tk => stalled tk.2 = true /\ t0 <= tk.1) ticks ->
  let w' := runTicks env ((t0, s0) :: ticks) T w in
  (isUserPaused (player w) = true -> failoverCount w' = failoverCount w)
  /\ (isUserPaused (player w) = false ->
      seekedWithin 15000 t0 (_lastSeekTime (player w)) = false ->
      t0 + 20000 < T < t0 + 40000 ->
      failoverCount w' = failoverCount w
      /\ _bufferingRetryCount (player w') <= 1
      /\ (is_Some (detail (detailStore w)) ->
          truthyZ (outroStartTime (player w)) = false ->
          _bufferingRetryCount (player w') = 1)).
Proof.
  intros Hquiet Ht0 Hs0 Hticks. split.
  - intros Hup.
    assert (Hp : paused (failoverCount w) w) by (destruct Hquiet; now repeat split).
    assert (Hall : Forall (fun tk : Z * LoadedStatus => isPlaying tk.2 = false)
                          ((t0, s0) :: ticks)).
    { apply Forall_cons. split; [now apply stalled_fields in Hs0|].
      eapply Forall_impl; [exact Hticks|]. intros tk [Hst _].
      now apply stalled_fields in Hst. }
    unfold runTicks.
    now destruct (advance_paused env T _ _ (run_paused env _ w _ Hp Hall)) as (_ & _ & ?).
  - intros Hup Hseek [HT _].
    remember (escalationState w) as e eqn:He. symmetry in He.
    pose proof He as He'. unfold escalationState in He'. rewrite Hup in He'.
    destruct (advance_notBuffering env t0 w e He Hquiet) as [He0 Hq0].
    set (wa := advance env t0 w) in *.
    assert (Harmed :
      armed (_lastSeekTime (player w)) (outroStartTime (player w))
        (detail (detailStore w)) (failoverCount w) t0
        [BufferingTimer (nextTimerId wa) (t0 + 20000) t0 (detail (detailStore w))
           (currentEpisodeIndex (player wa))]
        (handlePlaybackStatusUpdate env t0 (Loaded s0) wa)).
    { eapply tick_first; eauto.
      - rewrite He0, <- He'. reflexivity.
      - apply (seekedWithin_later _ t0 t0 Hseek). lia. }
    pose proof (run_stalled env ticks _ _ _ _ _ _ _ _ (or_introl Harmed) Ht0 Hseek Hticks)
      as Hrun.
    assert (Hfired :
      fired (_lastSeekTime (player w)) (outroStartTime (player w))
        (detail (detailStore w)) (failoverCount w) t0
        (runTicks env ((t0, s0) :: ticks) T w)).
    { unfold runTicks. simpl. fold wa. destruct Hrun as [Hrun|Hrun].
      - eapply advance_armed_late; eauto. lia.
      - now apply advance_fired. }
    destruct Hfired as (r & Hr & _ & Hle & Hone).
    unfold escalationState in Hr. injection Hr as _ _ Hr _ _ _ Hc.
    simpl. rewrite Hr, Hc. auto.
Qed.

Lemma stalled_ticks_first_attempt_witness :
  let w := Scenario.twoSources 30000 in
  let w' := runTicks Scenario.quick Scenario.stallTicks 22000 w in
  (isUserPaused (player w) = true -> failoverCount w' = failoverCount w)
  /\ (isUserPaused (player w) = false ->
      seekedWithin 15000 1000 (_lastSeekTime (player w)) = false ->
      1000 + 20000 < 22000 < 1000 + 40000 ->
      failoverCount w' = failoverCount w
      /\ _bufferingRetryCount (player w') <= 1
      /\ (is_Some (detail (detailStore w)) ->
          truthyZ (outroStartTime (player w)) = false ->
          _bufferingRetryCount (player w') = 1)).
Proof.
  apply (stalled_ticks_first_attempt Scenario.quick (Scenario.twoSources 30000) 1000
           (Scenario.stalledAt 30000)
           [(11000, Scenario.stalledAt 30000); (22000, Scenario.stalledAt 30000)] 22000).
  - split; reflexivity.
  - lia.
  - reflexivity.
  - repeat constructor; simpl; lia.
Defined.

(** * Further properties of the two stores *)

(** ** Ranking *)

Lemma scoreOf_monotone r1 s1 r2 s2 :
  r1 ∈ [0; 1; 2; 3; 4] -> s1 ∈ [0; 1; 2; 3; 4] ->
  r2 ∈ [0; 1; 2; 3; 4] -> s2 ∈ [0; 1; 2; 3; 4] ->
  r1 <= r2 -> s2 <= s1 ->
  floatKey (scoreOf r1 s1) <= floatKey (scoreOf r2 s2)
  /\ (r1 < r2 \/ s2 < s1 -> floatKey (scoreOf r1 s1) < floatKey (scoreOf r2 s2)).
Proof.
  intros H1 H2 H3 H4.
  tiers_and_buckets H1 H2; tiers_and_buckets H3 H4;
    intros Hr Hs; try (exfalso; lia);
    (split; [now vm_compute | intros [Hlt|Hlt]; (now vm_compute) || (exfalso; lia)]).
Qed.

(** X1.  The binary64 score is monotone: a candidate whose resolution
    tier is at least as high and whose latency bucket is at least as
    good never scores below the other, and scores strictly above it
    when the tier is higher or the bucket better.  Rounding never
    inverts such a pair. *)
Theorem totalScore_monotone (a b : SearchResult) :
  resolutionPriority (default "" (sr_resolution a))
    <= resolutionPriority (default "" (sr_resolution b)) ->
  speedScore (sr_networkSpeed b) <= speedScore (sr_networkSpeed a) ->
  Float.ltb (totalScore b) (totalScore a) = false
  /\ (resolutionPriority (default "" (sr_resolution a))
        < resolutionPriority (default "" (sr_resolution b))
      \/ speedScore (sr_networkSpeed b) < speedScore (sr_networkSpeed a) ->
      Float.ltb (totalScore a) (totalScore b) = true).
Proof.
  intros Hr Hs. rewrite !totalScore_ltb, !totalScore_scoreOf.
  destruct (scoreOf_monotone _ _ _ _
              (resolutionPriority_range (default "" (sr_resolution a)))
              (speedScore_range (sr_networkSpeed a))
              (resolutionPriority_range (default "" (sr_resolution b)))
              (speedScore_range (sr_networkSpeed b)) Hr Hs) as [Hle Hlt].
  split; [now apply Z.ltb_ge|]. intros H. apply Z.ltb_lt. auto.
Qed.

Lemma totalScore_monotone_witness :
  Float.ltb (totalScore Scenario.full_hd) (totalScore Scenario.hd_slow) = false
  /\ (resolutionPriority (default "" (sr_resolution Scenario.hd_slow))
        < resolutionPriority (default "" (sr_resolution Scenario.full_hd))
      \/ speedScore (sr_networkSpeed Scenario.full_hd)
           < speedScore (sr_networkSpeed Scenario.hd_slow) ->
      Float.ltb (totalScore Scenario.hd_slow) (totalScore Scenario.full_hd) = true).
Proof.
  apply (totalScore_monotone Scenario.hd_slow Scenario.full_hd).
  - vm_compute. discriminate.
  - vm_compute. discriminate.
Defined.

(** ** Seeking *)

(** X2.  On a loaded status of known positive duration, [seek] asks the
    media layer for exactly one position, the requested one clamped to
    [0, duration]; the time of the seek is recorded when, and only
    when, the media layer accepts the command, and nothing else of the
    player changes. *)
Theorem seek_clamps (env : Env) (now duration : Z) (w : World)
    (st : LoadedStatus) (dur : Z) :
  status (player w) = Some (Loaded st) ->
  durationMillis st = Some dur ->
  0 < dur ->
  let target := Z.max 0 (Z.min (positionMillis st + duration) dur) in
  let w' := seek env now duration w in
  0 <= target <= dur
  /\ (0 <= positionMillis st + duration <= dur -> target = positionMillis st + duration)
  /\ List.filter (fun e => match e with SeekTo _ => true | _ => false end) (effects w')
     = SeekTo target
       :: List.filter (fun e => match e with SeekTo _ => true | _ => false end) (effects w)
  /\ _lastSeekTime (player w')
     = (if setPositionAsync env now then Some now else _lastSeekTime (player w))
  /\ status (player w') = status (player w)
  /\ episodes (player w') = episodes (player w)
  /\ currentEpisodeIndex (player w') = currentEpisodeIndex (player w).
Proof.
  intros Hst Hdur Hpos. simpl. unfold seek. rewrite Hst, Hdur.
  destruct (Z.eqb_spec dur 0); [lia|].
  split; [lia|]. split; [lia|].
  destruct (setPositionAsync env now); simpl; now rewrite ?Hst.
Qed.

Lemma seek_clamps_witness :
  let w := Scenario.twoSources 30000 in
  let target := Z.max 0 (Z.min (30000 + 9000000) 3600000) in
  let w' := seek Scenario.quick 5000 9000000 w in
  0 <= target <= 3600000
  /\ (0 <= 30000 + 9000000 <= 3600000 -> target = 30000 + 9000000)
  /\ List.filter (fun e => match e with SeekTo _ => true | _ => false end) (effects w')
     = SeekTo target
       :: List.filter (fun e => match e with SeekTo _ => true | _ => false end) (effects w)
  /\ _lastSeekTime (player w')
     = (if setPositionAsync Scenario.quick 5000 then Some 5000
        else _lastSeekTime (player w))
  /\ status (player w') = status (player w)
  /\ episodes (player w') = episodes (player w)
  /\ currentEpisodeIndex (player w') = currentEpisodeIndex (player w).
Proof.
  apply (seek_clamps Scenario.quick 5000 9000000 (Scenario.twoSources 30000)
           (Scenario.playing 30000) 3600000).
  - reflexivity.
  - reflexivity.
  - lia.
Defined.

(** ** The probe *)

Lemma probeSource_cache env now url w :
  let r := probeSource env now url w in
  fetchCount r.2 = S (fetchCount w)
  /\ (forall url', url' <> url ->
        _cachedSources (player r.2) !! url' = _cachedSources (player w) !! url')
  /\ (r.1 = true ->
      exists c, _cachedSources (player r.2) !! url = Some c
                /\ cs_responseTime c < 4000 /\ cs_timestamp c = now)
  /\ (fetch env now url = Rejected ->
      r.1 = false /\ _cachedSources (player r.2) = _cachedSources (player w)).
Proof.
  unfold probeSource. simpl.
  destruct (fetch env now url) as [ok httpStatus elapsed|]; simpl.
  - destruct (7000 <=? elapsed); simpl;
      [repeat split; (discriminate || auto)|].
    match goal with |- context [if ?c then (false, _) else _] => destruct c end; simpl;
      [repeat split; (discriminate || auto)|].
    split; [reflexivity|]. split; [|split; [|discriminate]].
    + intros url' Hne. now apply lookup_insert_ne.
    + intros Hlt%Z.ltb_lt. eexists. split; [apply lookup_insert_eq|]. now split.
  - repeat split; (discriminate || auto).
Qed.

(** X3.  A probe that answers [true] is always backed by a cached
    measurement: afterwards the cache holds an entry for the URL that
    is less than five minutes old and whose response time is below
    4000 ms. *)
Theorem probe_true_is_cached (env : Env) (now : Z) (url : string) (w w' : World) :
  _preloadAndTestSource env now url w = (true, w') ->
  exists c,
    _cachedSources (player w') !! url = Some c
    /\ cs_responseTime c < 4000
    /\ now - cs_timestamp c < 5 * 60 * 1000.
Proof.
  unfold _preloadAndTestSource.
  assert (Hprobe : probeSource env now url w = (true, w') ->
                   exists c, _cachedSources (player w') !! url = Some c
                             /\ cs_responseTime c < 4000
                             /\ now - cs_timestamp c < 5 * 60 * 1000).
  { intros Hp. destruct (probeSource_cache env now url w) as (_ & _ & Htrue & _).
    rewrite Hp in Htrue. simpl in Htrue.
    destruct (Htrue eq_refl) as (c & Hc & Hrt & Hts). exists c. repeat split; auto. lia. }
  destruct (_cachedSources (player w) !! url) as [c|] eqn:Hc; [|exact Hprobe].
  destruct (Z.ltb_spec (now - cs_timestamp c) (5 * 60 * 1000)); [|exact Hprobe].
  intros [= Hv <-]. apply Z.ltb_lt in Hv. exists c. repeat split; auto. lia.
Qed.

Lemma probe_true_is_cached_witness :
  exists c,
    _cachedSources
      (player (_preloadAndTestSource Scenario.quick 1000 Scenario.url_b
                 (Scenario.world Scenario.idlePlayer Scenario.emptyDetail)).2)
      !! Scenario.url_b = Some c
    /\ cs_responseTime c < 4000
    /\ 1000 - cs_timestamp c < 5 * 60 * 1000.
Proof.
  apply (probe_true_is_cached Scenario.quick 1000 Scenario.url_b
           (Scenario.world Scenario.idlePlayer Scenario.emptyDetail)).
  reflexivity.
Defined.

(** X4.  A probe issues at most one fetch, never touches the cache
    entries of other URLs, and caches nothing when its fetch is
    rejected: the verdict is then [false] and the cache is exactly as
    it was. *)
Theorem probe_is_local (env : Env) (now : Z) (url : string) (w : World) :
  let r := _preloadAndTestSource env now url w in
  (fetchCount r.2 <= S (fetchCount w))%nat
  /\ (forall url', url' <> url ->
        _cachedSources (player r.2) !! url' = _cachedSources (player w) !! url')
  /\ (fetch env now url = Rejected ->
      coldCache now url w ->
      r.1 = false
      /\ fetchCount r.2 = S (fetchCount w)
      /\ _cachedSources (player r.2) = _cachedSources (player w)).
Proof.
  simpl. unfold _preloadAndTestSource.
  destruct (probeSource_cache env now url w) as (Hf & Ho & _ & Hr).
  destruct (_cachedSources (player w) !! url) as [c|] eqn:Hc.
  - destruct (Z.ltb_spec (now - cs_timestamp c) (5 * 60 * 1000)) as [Hfresh|Hold]; simpl.
    + split; [lia|]. split; [auto|]. intros _ Hcold. now destruct (Hcold c Hc).
    + split; [lia|]. split; [exact Ho|]. intros Hrej _.
      destruct (Hr Hrej). auto.
  - split; [lia|]. split; [exact Ho|]. intros Hrej _. destruct (Hr Hrej). auto.
Qed.

(** ** Reset *)

Lemma reset_cache now w url c :
  _cachedSources (player (reset now w)) !! url = Some c <->
  _cachedSources (player w) !! url = Some c
  /\ now - cs_timestamp c <= 30 * 60 * 1000.
Proof.
  unfold reset.
  assert (Hp : forall w1 : World,
            player w1 = player w ->
            _cachedSources
              (player
                 (onPlayer
                    (fun p =>
                       {| currentEpisodeIndex := 0; episodes := []; status := None;
                          isLoading := true; initialPosition := 0;
                          introEndTime := None; outroStartTime := None;
                          isUserPaused := false;
                          _isRecordSaveThrottled := _isRecordSaveThrottled p;
                          _bufferingStartTime := None; _bufferingTimeout := None;
                          _bufferingRetryCount := 0; _preloadingEpisode := None;
                          _lastSeekTime := None;
                          _cachedSources :=
                            filter
                              (fun kv => negb (30 * 60 * 1000 <? now - cs_timestamp kv.2)
                                         = true)
                              (_cachedSources (player w)) |}) w1))
            = filter (fun kv => negb (30 * 60 * 1000 <? now - cs_timestamp kv.2) = true)
                     (_cachedSources (player w))) by reflexivity.
  destruct (_bufferingTimeout (player w)); rewrite Hp by reflexivity;
    rewrite map_lookup_filter_Some; simpl;
    rewrite negb_true_iff, Z.ltb_ge; reflexivity.
Qed.

(** X5.  [reset] keeps exactly the cache entries that are at most
    thirty minutes old, unchanged, and adds none; so a probe verdict
    cached before a reset is still served from the cache after it: a
    probe of the same URL less than five minutes after the measurement
    issues no fetch. *)
Theorem reset_keeps_fresh_probes (env : Env) (resetAt probeAt : Z) (w : World) :
  (forall url c,
     _cachedSources (player (reset resetAt w)) !! url = Some c <->
     _cachedSources (player w) !! url = Some c
     /\ resetAt - cs_timestamp c <= 30 * 60 * 1000)
  /\ (forall url c,
        _cachedSources (player w) !! url = Some c ->
        resetAt <= probeAt ->
        probeAt - cs_timestamp c < 5 * 60 * 1000 ->
        _preloadAndTestSource env probeAt url (reset resetAt w)
        = (cs_responseTime c <? 3000, reset resetAt w)).
Proof.
  split; [intros url c; apply reset_cache|].
  intros url c Hc Hle Hfresh. unfold _preloadAndTestSource.
  assert (Hkept : _cachedSources (player (reset resetAt w)) !! url = Some c)
    by (apply reset_cache; split; [assumption | lia]).
  rewrite Hkept. now destruct (Z.ltb_spec (probeAt - cs_timestamp c) (5 * 60 * 1000)); [|lia].
Qed.

(** ** Merging search results, continued *)

Lemma processAndSetResults_merge env results aborted st :
  let st' := processAndSetResults env results true aborted st in
  searchResults st `prefix_of` searchResults st'
  /\ (forall d, detail st = Some d -> detail st' = Some d)
  /\ (aborted = false ->
      forall r, r ∈ results -> sr_source r ∈ sourcesOf (searchResults st')).
Proof.
  simpl. unfold processAndSetResults. destruct aborted; simpl.
  - split; [reflexivity|]. split; [auto|discriminate].
  - split; [now apply prefix_app_r|]. split; [now intros d ->|].
    intros _ r Hr. unfold sourcesOf. rewrite map_app.
    destruct (decide (sr_source r ∈ map sr_source (searchResults st))) as [Hin|Hnew].
    + apply elem_of_app. now left.
    + apply elem_of_app. right.
      apply (list_elem_of_fmap_2' sr_source _ (detectResolution env r)); [|reflexivity].
      apply list_elem_of_In, filter_In. split.
      * apply list_elem_of_In. now apply list_elem_of_fmap_2.
      * apply negb_true_iff, bool_decide_eq_false. simpl.
        now rewrite elem_of_list_to_set.
Qed.

(** X6.  Merging never loses a candidate.  In a sequence of calls of
    [processAndSetResults] with [merge] set, the results already in
    [searchResults] stay where they are, in order, at the front; a
    detail that is set is never replaced; and every result of every
    call that was not aborted has its source in [searchResults] at the
    end. *)
Theorem mergeAll_keeps_results (env : Env)
    (batches : list (list SearchResult * bool * bool)) (st : DetailState) :
  Forall (fun b => b.1.2 = true) batches ->
  searchResults st `prefix_of` searchResults (mergeAll env batches st)
  /\ (forall d, detail st = Some d -> detail (mergeAll env batches st) = Some d)
  /\ (forall b r,
        b ∈ batches -> b.2 = false -> r ∈ b.1.1 ->
        sr_source r ∈ sourcesOf (searchResults (mergeAll env batches st))).
Proof.
  intros Hall. revert st.
  induction Hall as [|[[results merge] aborted] batches Hm _ IH]; intros st; simpl.
  - split; [reflexivity|]. split; [auto|]. intros b r Hb. now apply elem_of_nil in Hb.
  - simpl in Hm. subst merge.
    destruct (processAndSetResults_merge env results aborted st) as (H1 & H2 & H3).
    destruct (IH (processAndSetResults env results true aborted st)) as (I1 & I2 & I3).
    split; [now transitivity (searchResults (processAndSetResults env results true aborted st))|].
    split; [auto|].
    intros b r [->|Hb]%elem_of_cons Ha Hr.
    + simpl in Ha, Hr. specialize (H3 Ha r Hr).
      unfold sourcesOf in *. apply list_elem_of_fmap in H3 as (x & -> & Hx).
      apply list_elem_of_fmap_2. destruct I1 as [k ->]. apply elem_of_app. now left.
    + now apply (I3 b r).
Qed.

Lemma mergeAll_keeps_results_witness :
  let batches :=
    [([Scenario.hd_slow], true, false);
     ([Scenario.hd_sequel; Scenario.sd_medium], true, false)] in
  let st := Scenario.emptyDetail in
  searchResults st `prefix_of` searchResults (mergeAll Scenario.quick batches st)
  /\ (forall d, detail st = Some d -> detail (mergeAll Scenario.quick batches st) = Some d)
  /\ (forall b r,
        b ∈ batches -> b.2 = false -> r ∈ b.1.1 ->
        sr_source r ∈ sourcesOf (searchResults (mergeAll Scenario.quick batches st))).
Proof.
  apply (mergeAll_keeps_results Scenario.quick
           [([Scenario.hd_slow], true, false);
            ([Scenario.hd_sequel; Scenario.sd_medium], true, false)]
           Scenario.emptyDetail).
  repeat constructor.
Defined.

(** ** Fail-over, continued *)

Lemma effects_emitAll es w : effects (emitAll es w) = (rev es ++ effects w)%list.
Proof.
  revert w. induction es as [|e es IH]; intros w; simpl; [reflexivity|].
  unfold emitAll in *. simpl. rewrite IH. simpl. now rewrite <- app_assoc.
Qed.

Lemma exhaustedCount_speedTests (l : list SearchResult) w :
  exhaustedCount (emitAll (map (fun r => SpeedTest (sr_source r)) l) w)
  = exhaustedCount w.
Proof.
  unfold exhaustedCount. rewrite effects_emitAll, List.filter_app, length_app.
  assert (List.filter isAllSourcesUnavailable
            (rev (map (fun r => SpeedTest (sr_source r)) l)) = []) as ->; [|reflexivity].
  rewrite <- map_rev. induction (rev l) as [|x xs IH]; simpl; auto.
Qed.

(** One invocation of [handleVideoError] with a detail: the current
    source is marked, the results are kept, and either the failure is
    shown or another unfailed source becomes active. *)
Lemma handleVideoError_step env now errorType failedUrl w d :
  detail (detailStore w) = Some d ->
  let w' := handleVideoError env now errorType failedUrl w in
  searchResults (detailStore w') = searchResults (detailStore w)
  /\ failedSources (detailStore w') = {[sr_source d]} ∪ failedSources (detailStore w)
  /\ ((detail (detailStore w') = Some d
       /\ exhaustedCount w' = S (exhaustedCount w))
      \/ (exists fallbackSource,
            detail (detailStore w') = Some fallbackSource
            /\ sr_source fallbackSource ∈ unfailedSources (detailStore w')
            /\ exhaustedCount w' = exhaustedCount w)).
Proof.
  intros Hd. simpl. unfold handleVideoError, selectNextSource, setDetail. simpl.
  rewrite Hd. simpl.
  set (st1 := markSourceAsFailed (sr_source d) (detailStore w)).
  set (w0 := onDetail (markSourceAsFailed (sr_source d))
               (emit (VideoErrorHandled errorType failedUrl) w)).
  set (tests := map (fun r => SpeedTest (sr_source r))
                  (List.filter (needsSpeedTest now)
                     (availableSources (sr_source d) (currentEpisodeIndex (player w)) st1))).
  destruct (emitAll_frame tests w0) as (Hp & Hds & _).
  pose proof (exhaustedCount_speedTests
                (List.filter (needsSpeedTest now)
                   (availableSources (sr_source d) (currentEpisodeIndex (player w)) st1))
                w0) as Hcount.
  fold tests in Hcount.
  destruct (getNextAvailableSource (sr_source d) (currentEpisodeIndex (player w)) st1)
    as [fb|] eqn:Hfb; simpl.
  - apply getNextAvailableSource_Some in Hfb as (Hin & _ & Hnf & _).
    assert (Havail : sr_source fb ∈ unfailedSources st1).
    { unfold unfailedSources. apply elem_of_difference. split; [|exact Hnf].
      apply elem_of_list_to_set. unfold sourcesOf. now apply list_elem_of_fmap_2. }
    destruct (isFavoritedLookup env (sr_source fb) (sr_id fb)); simpl;
      [destruct (currentEpisodeIndex (player w) <? lengthZ (sr_episodes fb)); simpl;
       [destruct (nthZ (sr_episodes fb) (currentEpisodeIndex (player w))); simpl|]|];
      rewrite Hds; simpl; (split; [reflexivity|]); (split; [reflexivity|]);
      right; exists fb; (split; [reflexivity|]); (split; [exact Havail|]);
      unfold exhaustedCount in *; simpl; exact Hcount.
  - rewrite Hds. simpl. split; [reflexivity|]. split; [reflexivity|].
    left. rewrite Hd. split; [reflexivity|].
    unfold exhaustedCount in *. simpl. now rewrite Hcount.
Qed.

Lemma handleVideoErrors_grows env calls w :
  is_Some (detail (detailStore w)) ->
  (exhaustedCount w <= exhaustedCount (handleVideoErrors env calls w))%nat.
Proof.
  revert w. induction calls as [|[[now errorType] failedUrl] calls IH];
    intros w [d Hd]; simpl; [lia|].
  destruct (handleVideoError_step env now errorType failedUrl w d Hd)
    as (_ & _ & [[Hd' Hc]|(fb & Hd' & _ & Hc)]);
    simpl in *; etransitivity; [| apply IH; eauto | | apply IH; eauto]; lia.
Qed.

Lemma unfailedSources_step (st st' : DetailState) (s : string) :
  searchResults st' = searchResults st ->
  failedSources st' = {[s]} ∪ failedSources st ->
  s ∈ unfailedSources st ->
  S (size (unfailedSources st')) = size (unfailedSources st).
Proof.
  intros Hr Hf Hs. unfold unfailedSources in *. rewrite Hr, Hf.
  set (X := list_to_set (sourcesOf (searchResults st)) : gset string) in *.
  assert (Heq : X ∖ ({[s]} ∪ failedSources st) = (X ∖ failedSources st) ∖ {[s]}).
  { apply set_eq. intros x.
    rewrite !elem_of_difference, elem_of_union, elem_of_singleton. tauto. }
  rewrite Heq, size_difference, size_singleton.
  - assert (0 < size (X ∖ failedSources st))%nat; [|lia].
    destruct (size (X ∖ failedSources st)) eqn:E; [|lia].
    apply size_empty_inv in E. apply E in Hs. now apply elem_of_empty in Hs.
  - now apply singleton_subseteq_l.
Qed.

Lemma handleVideoErrors_exhausts env calls w d :
  detail (detailStore w) = Some d ->
  sr_source d ∈ unfailedSources (detailStore w) ->
  (size (unfailedSources (detailStore w)) <= length calls)%nat ->
  (exhaustedCount w < exhaustedCount (handleVideoErrors env calls w))%nat.
Proof.
  revert w d. induction calls as [|[[now errorType] failedUrl] calls IH];
    intros w d Hd Hin Hsize; simpl in *.
  - assert (size (unfailedSources (detailStore w)) = 0%nat) as E by lia.
    apply size_empty_inv in E. apply E in Hin. now apply elem_of_empty in Hin.
  - destruct (handleVideoError_step env now errorType failedUrl w d Hd)
      as (Hr & Hf & Hcase). simpl in *.
    pose proof (unfailedSources_step _ _ _ Hr Hf Hin) as Hstep.
    destruct Hcase as [[Hd' Hc]|(fb & Hd' & Hfb & Hc)].
    + pose proof (handleVideoErrors_grows env calls
                    (handleVideoError env now errorType failedUrl w)
                    (ex_intro _ d Hd')).
      unfold handleVideoErrors in *. lia.
    + specialize (IH _ fb Hd' Hfb). unfold handleVideoErrors in *. lia.
Qed.

Lemma size_list_to_set_le (l : list string) :
  (size (list_to_set l : gset string) <= length l)%nat.
Proof.
  induction l as [|x l IH]; simpl; [apply Nat.eq_le_incl; reflexivity|].
  rewrite size_union_alt, size_singleton.
  assert (size (list_to_set l ∖ {[x]} : gset string) <= size (list_to_set l : gset string))%nat;
    [|lia].
  apply subseteq_size. intros y. rewrite elem_of_difference. tauto.
Qed.

(** X7.  Fail-over terminates.  [handleVideoError] never comes back to
    a source that has failed, so when it is invoked more times in a row
    than there are search results, starting with a detail, at least one
    of the invocations finds no candidate and shows the
    all-sources-unavailable failure; whether the favourite look-ups
    resolve does not matter. *)
Theorem failover_terminates (env : Env) (calls : list (Z * ErrorType * string))
    (w : World) :
  is_Some (detail (detailStore w)) ->
  (length (searchResults (detailStore w)) < length calls)%nat ->
  (exhaustedCount w < exhaustedCount (handleVideoErrors env calls w))%nat.
Proof.
  intros [d Hd] Hlen.
  destruct calls as [|[[now errorType] failedUrl] calls]; simpl in *; [lia|].
  destruct (handleVideoError_step env now errorType failedUrl w d Hd)
    as (Hr & Hf & Hcase). simpl in *.
  destruct Hcase as [[Hd' Hc]|(fb & Hd' & Hfb & Hc)].
  - pose proof (handleVideoErrors_grows env calls
                  (handleVideoError env now errorType failedUrl w)
                  (ex_intro _ d Hd')).
    unfold handleVideoErrors in *. lia.
  - pose proof (handleVideoErrors_exhausts env calls _ fb Hd' Hfb) as Hex.
    unfold handleVideoErrors in *. rewrite <- Hc. apply Hex.
    assert (Hsub : (size (unfailedSources
                            (detailStore (handleVideoError env now errorType failedUrl w)))
                    <= size (list_to_set (sourcesOf (searchResults (detailStore w)))
                             : gset string))%nat).
    { apply subseteq_size. unfold unfailedSources. rewrite Hr.
      intros x. rewrite elem_of_difference. tauto. }
    pose proof (size_list_to_set_le (sourcesOf (searchResults (detailStore w)))) as Hle.
    unfold sourcesOf in Hle at 2. rewrite length_map in Hle. lia.
Qed.

Lemma failover_terminates_witness :
  Nat.lt
    (exhaustedCount (Scenario.twoSources 1500))
    (exhaustedCount
       (handleVideoErrors Scenario.quick
          [(1000, other, "u"); (2000, other, "u"); (3000, network, "u")]
          (Scenario.twoSources 1500))).
Proof.
  apply (failover_terminates Scenario.quick
           [(1000, other, "u"); (2000, other, "u"); (3000, network, "u")]
           (Scenario.twoSources 1500)).
  - now exists Scenario.source_a.
  - simpl. lia.
Defined.


Lemma lengthZ_mapEpisodes eps : lengthZ (mapEpisodes eps) = lengthZ eps.
Proof. unfold lengthZ, mapEpisodes. now rewrite length_imap. Qed.



(** ** The episode index *)

(** [handleVideoError] is its first part followed at once by its
    second. *)
Lemma handleVideoError_split env now errorType failedUrl w :
  handleVideoError env now errorType failedUrl w
  = match handleVideoError_begin now errorType failedUrl w with
    | (Some k, w1) => handleVideoError_resume env k w1
    | (None, w1) => w1
    end.
Proof.
  unfold handleVideoError, handleVideoError_begin, handleVideoError_resume, setDetail.
  destruct (detail (detailStore (emit (VideoErrorHandled errorType failedUrl) w)))
    as [d|]; [|reflexivity].
  destruct (selectNextSource _ _ _ _) as [[fallbackSource|] w2]; [|reflexivity].
  simpl. now destruct (isFavoritedLookup env _ _).
Qed.

Lemma detectBuffering_player now st s0 detail0 w :
  currentEpisodeIndex (player (detectBuffering now st s0 detail0 w))
  = currentEpisodeIndex (player w)
  /\ episodes (player (detectBuffering now st s0 detail0 w)) = episodes (player w).
Proof.
  unfold detectBuffering.
  repeat match goal with
         | |- context [if ?c then _ else _] => destruct c; simpl
         | |- context [match ?x with Some _ => _ | None => _ end] => destruct x; simpl
         end; now split.
Qed.

(** X9.  [handleVideoError] and [playEpisode] race.  While
    [handleVideoError] awaits [setDetail], a [playEpisode] to an index
    that the current episodes have and the fallback lacks goes through;
    when the look-up resolves, [handleVideoError] tests the index it
    read before the [await] and installs the fallback's episodes: the
    episode index is then outside the episodes list and
    [selectCurrentEpisode] has no episode. *)
Theorem handleVideoError_playEpisode_race (env : Env) (now t index : Z)
    (errorType : ErrorType) (failedUrl : string) (w w1 : World) (k : Suspended)
    (b : bool) :
  handleVideoError_begin now errorType failedUrl w = (Some k, w1) ->
  isFavoritedLookup env (sr_source (su_fallbackSource k)) (sr_id (su_fallbackSource k))
    = Some b ->
  lengthZ (sr_episodes (su_fallbackSource k)) <= index < lengthZ (episodes (player w)) ->
  let w3 := handleVideoError_resume env k (playEpisode env t index w1) in
  detail (detailStore w3) = Some (su_fallbackSource k)
  /\ episodes (player w3) = mapEpisodes (sr_episodes (su_fallbackSource k))
  /\ currentEpisodeIndex (player w3) = index
  /\ ~ indexInBounds w3
  /\ selectCurrentEpisode (player w3) = None.
Proof.
  intros Hbegin Hfav [Hlo Hhi]. cbv zeta.
  unfold handleVideoError_begin in Hbegin.
  destruct (detail (detailStore (emit (VideoErrorHandled errorType failedUrl) w)))
    as [d|] eqn:Hd; [|discriminate].
  unfold selectNextSource in Hbegin. simpl in Hbegin.
  destruct (getNextAvailableSource _ _ _) as [fallbackSource|] eqn:Hfb; [|discriminate].
  injection Hbegin as <- <-. simpl in *.
  apply getNextAvailableSource_Some in Hfb as (_ & _ & _ & Hlen).
  match goal with
  | |- context [emitAll ?es ?w0] =>
      destruct (emitAll_frame es w0) as (Hp & Hds & _);
      generalize dependent (emitAll es w0)
  end.
  intros wt Hp Hds. simpl in Hp, Hds.
  assert (Hgo : 0 <= index) by (unfold lengthZ in *; lia).
  unfold playEpisode. simpl. rewrite Hp.
  destruct (Z.leb_spec 0 index); [|lia].
  destruct (Z.ltb_spec index (lengthZ (episodes (player w)))); [|lia]. simpl.
  set (w2 := if replayAsync env t then _ else _).
  assert (H2 : currentEpisodeIndex (player w2) = index
               /\ detail (detailStore w2) = Some fallbackSource).
  { subst w2. destruct (replayAsync env t); now split. }
  clearbody w2. destruct H2 as [Hidx Hdet].
  unfold handleVideoError_resume. simpl. rewrite Hfav.
  apply Z.ltb_lt in Hlen. rewrite Hlen.
  assert (Hout : ~ 0 <= index < lengthZ (mapEpisodes (sr_episodes fallbackSource)))
    by (rewrite lengthZ_mapEpisodes; lia).
  assert (Hsel : forall p : PlayerState,
             currentEpisodeIndex p = index ->
             episodes p = mapEpisodes (sr_episodes fallbackSource) ->
             selectCurrentEpisode p = None).
  { intros p Hi He. unfold selectCurrentEpisode. rewrite Hi, He, lengthZ_mapEpisodes.
    destruct (Z.ltb_spec index (lengthZ (sr_episodes fallbackSource))); [lia|].
    now rewrite !andb_false_r. }
  destruct (nthZ _ _); unfold indexInBounds; simpl; rewrite Hidx, Hdet;
    (split; [reflexivity|]); (split; [reflexivity|]); (split; [reflexivity|]);
    (split; [exact Hout | now apply Hsel]).
Qed.

Lemma handleVideoError_playEpisode_race_witness :
  let k := mkSuspended Scenario.hd_slow 0 30000 in
  let w1 :=
    (handleVideoError_begin 1000 network "https://a/1.m3u8" Scenario.shortFallback).2 in
  let w3 := handleVideoError_resume Scenario.quick k (playEpisode Scenario.quick 1100 1 w1) in
  detail (detailStore w3) = Some Scenario.hd_slow
  /\ episodes (player w3) = mapEpisodes (sr_episodes Scenario.hd_slow)
  /\ currentEpisodeIndex (player w3) = 1
  /\ ~ indexInBounds w3
  /\ selectCurrentEpisode (player w3) = None.
Proof.
  apply (handleVideoError_playEpisode_race Scenario.quick 1000 1100 1 network
           "https://a/1.m3u8" Scenario.shortFallback
           (handleVideoError_begin 1000 network "https://a/1.m3u8" Scenario.shortFallback).2
           (mkSuspended Scenario.hd_slow 0 30000) false).
  - vm_compute. reflexivity.
  - reflexivity.
  - vm_compute. split; [discriminate | reflexivity].
Defined.

(** ** Buffering, continued *)

(** The registered timeout and the seeks asked of the media layer. *)
Lemma playEpisode_seeks env now index w :
  _bufferingTimeout (player (playEpisode env now index w)) = _bufferingTimeout (player w)
  /\ List.filter isSeekTo (effects (playEpisode env now index w))
     = List.filter isSeekTo (effects w).
Proof.
  unfold playEpisode. destruct (_ && _); [destruct (replayAsync env now)|]; now split.
Qed.

Lemma _savePlayRecord_seeks now updates immediate w :
  _bufferingTimeout (player (_savePlayRecord now updates immediate w))
  = _bufferingTimeout (player w)
  /\ List.filter isSeekTo (effects (_savePlayRecord now updates immediate w))
     = List.filter isSeekTo (effects w).
Proof.
  unfold _savePlayRecord. destruct (negb immediate && _); [now split|].
  destruct immediate; simpl;
    (destruct (detail (detailStore w)); simpl;
     [destruct (status (player w)) as [[|]|]; simpl|]); now split.
Qed.

Lemma trackProgress_seeks env now st s0 detail0 w :
  _bufferingTimeout (player (trackProgress env now st s0 detail0 w))
  = _bufferingTimeout (player w)
  /\ List.filter isSeekTo (effects (trackProgress env now st s0 detail0 w))
     = List.filter isSeekTo (effects w).
Proof.
  unfold trackProgress.
  match goal with
  | |- context [if ?c then playEpisode _ _ _ w else _] => destruct c
  end; [apply playEpisode_seeks|].
  set (w3 := if bool_decide (is_Some detail0) && truthyZ (durationMillis st)
             then _savePlayRecord now noUpdates false w else w).
  assert (H3 : _bufferingTimeout (player w3) = _bufferingTimeout (player w)
               /\ List.filter isSeekTo (effects w3) = List.filter isSeekTo (effects w)).
  { subst w3. destruct (_ && _); [apply _savePlayRecord_seeks | now split]. }
  destruct H3 as [H3 H3'].
  destruct (didJustFinish st && _); simpl; [|now split].
  destruct (playEpisode_seeks env now (currentEpisodeIndex s0 + 1) w3) as [H4 H4'].
  split; congruence.
Qed.

Lemma fireTimer_other_seeks env tm w :
  isPendingBuffering tm = false ->
  _bufferingTimeout (player (fireTimer env tm w)) = _bufferingTimeout (player w)
  /\ List.filter isSeekTo (effects (fireTimer env tm w))
     = List.filter isSeekTo (effects w).
Proof.
  destruct tm as [| |due episodeIndex url]; [discriminate| |]; intros _; simpl.
  - now split.
  - destruct (_ =? _); [|now split].
    unfold _preloadAndTestSource, probeSource.
    repeat match goal with
           | |- context [match ?x with _ => _ end] => destruct x; simpl
           end; now split.
Qed.

(** Advancing the clock when no due timer is a buffering timer keeps
    whatever the other timers keep. *)
Lemma advance_others env now w (P : World -> Prop) :
  (forall tm w, isPendingBuffering tm = false -> P w -> P (fireTimer env tm w)) ->
  List.filter (fun t => timerDue t <=? now) (bufferingTimers (timers w)) = [] ->
  P (mkWorld (player w) (detailStore w) (storage w)
       (List.filter (fun t => negb (timerDue t <=? now)) (timers w))
       (nextTimerId w) (effects w)) ->
  P (advance env now w).
Proof.
  intros Hother Hdue H0. unfold advance. apply fire_others; [exact Hother| |exact H0].
  apply Permutation_nil_eq. now rewrite bufferingTimers_dueOrder, bufferingTimers_filter, Hdue.
Qed.

(** The state right after the tick that arms the timer. *)
Lemma tick_first_registered env t0 st w ls r start outro det c :
  escalationState w = (false, ls, r, start, outro, det, c) ->
  notBuffering w ->
  stalled st = true -> 0 < t0 -> seekedWithin 10000 t0 ls = false ->
  let w' := handlePlaybackStatusUpdate env t0 (Loaded st) w in
  escalationState w' = (false, ls, 0, Some t0, outro, det, c)
  /\ bufferingTimers (timers w')
     = [BufferingTimer (nextTimerId w) (t0 + 20000) t0 det (currentEpisodeIndex (player w))]
  /\ _bufferingTimeout (player w') = Some (nextTimerId w)
  /\ List.filter isSeekTo (effects w') = List.filter isSeekTo (effects w).
Proof.
  intros He Hq Hstalled Ht0 Hseek.
  destruct (tick_first env t0 st w ls r start outro det c He Hq Hstalled Ht0 Hseek)
    as (H1 & H2 & _).
  simpl. split; [exact H1|]. split; [exact H2|].
  destruct (trackProgress_seeks env t0 st (player w) (detail (detailStore w))
              (detectBuffering t0 st (player w) (detail (detailStore w)) w)) as [-> ->].
  destruct Hq as [Hstart _].
  pose proof Hstalled as (Hplay & Hbuf & Hpos & Hdur)%stalled_fields.
  unfold escalationState in He. injection He as Hup Hls _ _ _ _ _.
  unfold detectBuffering.
  rewrite Hplay, Hup, Hls, Hseek, Hpos, Hdur, Hbuf, Hstart. simpl. now split.
Qed.

(** X10.  A stall that ends within 20 seconds has no consequence.  From
    a state in which no buffering is tracked, the user has not paused
    and no seek is recent, a stalled tick at [t0] followed, before
    [t0 + 20000], by a tick that reports playing cancels the timer:
    however long the clock runs afterwards, no buffering timer is
    pending, the start of the buffering is cleared, the retry count is
    0, no seek is asked of the media layer and [handleVideoError] is
    not invoked. *)
Theorem stall_then_play_recovers (env : Env) (w : World) (t0 t1 T : Z)
    (s0 s1 : LoadedStatus) :
  notBuffering w ->
  isUserPaused (player w) = false ->
  seekedWithin 10000 t0 (_lastSeekTime (player w)) = false ->
  0 < t0 ->
  stalled s0 = true ->
  isPlaying s1 = true ->
  t1 < t0 + 20000 ->
  let w' :=
    advance env T
      (run env [(t0, StatusUpdate (Loaded s0)); (t1, StatusUpdate (Loaded s1))] w) in
  _bufferingStartTime (player w') = None
  /\ _bufferingRetryCount (player w') = 0
  /\ bufferingTimers (timers w') = []
  /\ failoverCount w' = failoverCount w
  /\ List.filter isSeekTo (effects w') = List.filter isSeekTo (effects w).
Proof.
  intros Hq Hup Hseek Ht0 Hs0 Hs1 Ht1. cbv zeta. cbn [run handle].
  set (c := failoverCount w). set (sk := List.filter isSeekTo (effects w)).
  set (ls := _lastSeekTime (player w)) in *.
  set (outro := outroStartTime (player w)). set (det := detail (detailStore w)).
  (* the clock reaches t0 *)
  set (P0 := fun x : World =>
               escalationState x
               = (false, ls, _bufferingRetryCount (player w),
                  _bufferingStartTime (player w), outro, det, c)
               /\ notBuffering x
               /\ List.filter isSeekTo (effects x) = sk).
  assert (Hother0 : forall tm x, isPendingBuffering tm = false -> P0 x ->
                                 P0 (fireTimer env tm x)).
  { intros tm x Htm (H1 & [H2 H3] & H4).
    destruct (fireTimer_other_frame env tm x Htm) as (F1 & F2 & _).
    destruct (fireTimer_other_seeks env tm x Htm) as (_ & F4).
    pose proof F1 as F1'. unfold escalationState in F1'.
    injection F1' as _ _ _ F5 _ _ _.
    unfold P0, notBuffering. now rewrite F1, F2, F4, F5. }
  assert (Ha : P0 (advance env t0 w)).
  { destruct Hq as [Hq1 Hq2]. apply advance_others; [exact Hother0| |].
    - now rewrite Hq2.
    - unfold P0, notBuffering, escalationState. simpl.
      rewrite Hup, bufferingTimers_filter, Hq2. now repeat split. }
  destruct Ha as (Ha1 & Ha2 & Ha3).
  set (wa := advance env t0 w) in *. clearbody wa.
  (* the stalled tick *)
  destruct (tick_first_registered env t0 s0 wa _ _ _ _ _ _ Ha1 Ha2 Hs0 Ht0 Hseek)
    as (Hb1 & Hb2 & Hb3 & Hb4).
  set (wb := handlePlaybackStatusUpdate env t0 (Loaded s0) wa) in *. clearbody wb.
  set (bt := BufferingTimer (nextTimerId wa) (t0 + 20000) t0 det
               (currentEpisodeIndex (player wa))) in *.
  (* the clock reaches t1 *)
  set (P1 := fun x : World =>
               escalationState x = (false, ls, 0, Some t0, outro, det, c)
               /\ bufferingTimers (timers x) = [bt]
               /\ _bufferingTimeout (player x) = Some (nextTimerId wa)
               /\ List.filter isSeekTo (effects x) = sk).
  assert (Hc : P1 (advance env t1 wb)).
  { apply advance_others.
    - intros tm x Htm (H1 & H2 & H3 & H4).
      destruct (fireTimer_other_frame env tm x Htm) as (F1 & F2 & _).
      destruct (fireTimer_other_seeks env tm x Htm) as (F3 & F4).
      unfold P1. now rewrite F1, F2, F3, F4.
    - rewrite Hb2. simpl. now destruct (Z.leb_spec (t0 + 20000) t1); [lia|].
    - unfold P1. simpl. rewrite bufferingTimers_filter, Hb2. simpl.
      destruct (Z.leb_spec (t0 + 20000) t1); [lia|]. simpl.
      split; [exact Hb1|]. split; [reflexivity|]. split; [exact Hb3|].
      rewrite Hb4. exact Ha3. }
  destruct Hc as (Hc1 & Hc2 & Hc3 & Hc4).
  set (wc := advance env t1 wb) in *. clearbody wc.
  (* the playing tick *)
  set (P2 := fun x : World =>
               _bufferingStartTime (player x) = None
               /\ _bufferingRetryCount (player x) = 0
               /\ bufferingTimers (timers x) = []
               /\ failoverCount x = c
               /\ List.filter isSeekTo (effects x) = sk).
  assert (Hd : P2 (handlePlaybackStatusUpdate env t1 (Loaded s1) wc)).
  { cbn [handlePlaybackStatusUpdate].
    set (w1 := detectBuffering t1 s1 (player wc) (detail (detailStore wc)) wc).
    assert (H1 : P2 w1).
    { subst w1. unfold detectBuffering.
      pose proof Hc1 as Hc1'. unfold escalationState in Hc1'.
      injection Hc1' as Hup' _ _ Hstart' _ _ Hcount'.
      rewrite Hs1, Hup', Hstart', Hc3. simpl.
      destruct (Z.eqb_spec t0 0); [lia|]. simpl.
      unfold P2. simpl. repeat split; try assumption.
      fold (bufferingTimers
              (List.filter (fun t => negb (isBufferingTimer (nextTimerId wa) t))
                 (timers wc))).
      rewrite bufferingTimers_filter, Hc2. unfold bt. simpl.
      now rewrite Nat.eqb_refl. }
    destruct H1 as (H1 & H2 & H3 & H4 & H5). clearbody w1.
    destruct (trackProgress_frame env t1 s1 (player wc) (detail (detailStore wc)) w1)
      as (F1 & F2 & _).
    destruct (trackProgress_seeks env t1 s1 (player wc) (detail (detailStore wc)) w1)
      as (_ & F4).
    unfold escalationState in F1. injection F1 as _ _ F5 F6 _ _ F7.
    unfold P2. now rewrite F5, F6, F7, F2, F4. }
  (* the clock runs on *)
  set (wd := handlePlaybackStatusUpdate env t1 (Loaded s1) wc) in *. clearbody wd.
  assert (He : P2 (advance env T wd)).
  { destruct Hd as (H1 & H2 & H3 & H4 & H5). apply advance_others.
    - intros tm x Htm (G1 & G2 & G3 & G4 & G5).
      destruct (fireTimer_other_frame env tm x Htm) as (F1 & F2 & _).
      destruct (fireTimer_other_seeks env tm x Htm) as (_ & F4).
      unfold escalationState in F1. injection F1 as _ _ F5 F6 _ _ F7.
      unfold P2. now rewrite F5, F6, F7, F2, F4.
    - now rewrite H3.
    - unfold P2. simpl. rewrite bufferingTimers_filter, H3. now repeat split. }
  exact He.
Qed.

Lemma stall_then_play_recovers_witness :
  let w := Scenario.twoSources 30000 in
  let w' :=
    advance Scenario.quick 500000
      (run Scenario.quick
         [(1000, StatusUpdate (Loaded (Scenario.stalledAt 30000)));
          (9000, StatusUpdate (Loaded (Scenario.playing 30500)))] w) in
  _bufferingStartTime (player w') = None
  /\ _bufferingRetryCount (player w') = 0
  /\ bufferingTimers (timers w') = []
  /\ failoverCount w' = failoverCount w
  /\ List.filter isSeekTo (effects w') = List.filter isSeekTo (effects w).
Proof.
  apply (stall_then_play_recovers Scenario.quick (Scenario.twoSources 30000)
           1000 9000 500000 (Scenario.stalledAt 30000) (Scenario.playing 30500)).
  - split; reflexivity.
  - reflexivity.
  - reflexivity.
  - lia.
  - reflexivity.
  - reflexivity.
  - lia.
Defined.

(** X11.  A seek is never mistaken for a stall.  After a seek that the
    media layer accepted at [t], a status tick that arrives less than
    ten seconds later, whatever it reports, starts no buffering: no
    timer is armed and no start of buffering is recorded. *)
Theorem seek_suppresses_buffering (env : Env) (w : World) (t duration t' dur : Z)
    (st st' : LoadedStatus) :
  notBuffering w ->
  status (player w) = Some (Loaded st) ->
  durationMillis st = Some dur ->
  dur <> 0 ->
  setPositionAsync env t = true ->
  t <> 0 ->
  t' - t < 10000 ->
  notBuffering
    (handlePlaybackStatusUpdate env t' (Loaded st') (advance env t' (seek env t duration w))).
Proof.
  intros [Hq1 Hq2] Hst Hdur Hnz Hok Ht Hlt.
  set (P := fun x : World =>
              _lastSeekTime (player x) = Some t /\ notBuffering x).
  assert (Hs : P (seek env t duration w)).
  { unfold seek. rewrite Hst, Hdur. destruct (Z.eqb_spec dur 0); [contradiction|].
    rewrite Hok. unfold P, notBuffering. simpl. auto. }
  set (ws := seek env t duration w) in *. clearbody ws.
  assert (Ha : P (advance env t' ws)).
  { destruct Hs as (H1 & H2 & H3). apply advance_others.
    - intros tm x Htm (G1 & G2 & G3).
      destruct (fireTimer_other_frame env tm x Htm) as (F1 & F2 & _).
      unfold escalationState in F1. injection F1 as _ F3 _ F4 _ _ _.
      unfold P, notBuffering. now rewrite F3, F4, F2.
    - now rewrite H3.
    - unfold P, notBuffering. simpl. now rewrite bufferingTimers_filter, H3. }
  set (wa := advance env t' ws) in *. clearbody wa.
  destruct Ha as (H1 & H2 & H3). cbn [handlePlaybackStatusUpdate].
  set (w1 := detectBuffering t' st' (player wa) (detail (detailStore wa)) wa).
  assert (Hd : notBuffering w1).
  { subst w1. unfold detectBuffering. rewrite H1, H2.
    assert (seekedWithin 10000 t' (Some t) = true) as ->.
    { unfold seekedWithin. destruct (Z.eqb_spec t 0); [contradiction|]. now apply Z.ltb_lt. }
    replace (negb (isPlaying st') && negb (isUserPaused (player wa)) && negb true
             && (0 <? positionMillis st') && (0 <? default 0 (durationMillis st'))
             && isBuffering st') with false
      by (destruct (isPlaying st'), (isUserPaused (player wa)); reflexivity).
    destruct (isPlaying st' && isUserPaused (player wa));
      destruct (_bufferingTimeout (player wa)); unfold notBuffering; simpl;
      (split; [assumption|]); try assumption;
      fold (bufferingTimers
              (List.filter (fun t => negb (isBufferingTimer n t)) (timers wa)));
      now rewrite bufferingTimers_filter, H3. }
  clearbody w1. destruct Hd as [Hd1 Hd2].
  destruct (trackProgress_frame env t' st' (player wa) (detail (detailStore wa)) w1)
    as (F1 & F2 & _).
  unfold escalationState in F1. injection F1 as _ _ _ F4 _ _ _.
  unfold notBuffering. now rewrite F4, F2.
Qed.

Lemma seek_suppresses_buffering_witness :
  notBuffering
    (handlePlaybackStatusUpdate Scenario.quick 9000 (Loaded (Scenario.stalledAt 40000))
       (advance Scenario.quick 9000 (seek Scenario.quick 1000 10000 (Scenario.twoSources 30000)))).
Proof.
  apply (seek_suppresses_buffering Scenario.quick (Scenario.twoSources 30000)
           1000 10000 9000 3600000 (Scenario.playing 30000) (Scenario.stalledAt 40000)).
  - split; reflexivity.
  - reflexivity.
  - reflexivity.
  - discriminate.
  - reflexivity.
  - discriminate.
  - lia.
Defined.

(** X12.  A pause by the user is never mistaken for a stall.  After
    [togglePlayPause] has paused a playing video, no sequence of ticks
    that report not playing, however long and whatever else they
    report, arms a buffering timer or invokes [handleVideoError]. *)
Theorem user_pause_never_escalates (env : Env) (w : World) (t T : Z)
    (st : LoadedStatus) (ticks : list (Z * LoadedStatus)) :
  status (player w) = Some (Loaded st) ->
  isPlaying st = true ->
  pauseAsync env t = true ->
  bufferingTimers (timers w) = [] ->
  Forall (fun tk : Z * LoadedStatus => isPlaying tk.2 = false) ticks ->
  let w' := runTicks env ticks T (togglePlayPause env t w) in
  isUserPaused (player w') = true
  /\ bufferingTimers (timers w') = []
  /\ failoverCount w' = failoverCount w.
Proof.
  intros Hst Hplay Hok Htm Hticks.
  assert (Hp : paused (failoverCount w) (togglePlayPause env t w)).
  { unfold togglePlayPause. rewrite Hst, Hplay, Hok. now repeat split. }
  unfold runTicks. apply advance_paused. now apply run_paused.
Qed.

Lemma user_pause_never_escalates_witness :
  let w := Scenario.twoSources 30000 in
  let w' := runTicks Scenario.quick Scenario.stallTicks 900000
              (togglePlayPause Scenario.quick 500 w) in
  isUserPaused (player w') = true
  /\ bufferingTimers (timers w') = []
  /\ failoverCount w' = failoverCount w.
Proof.
  apply (user_pause_never_escalates Scenario.quick (Scenario.twoSources 30000)
           500 900000 (Scenario.playing 30000) Scenario.stallTicks).
  - reflexivity.
  - reflexivity.
  - reflexivity.
  - reflexivity.
  - repeat constructor.
Defined.

Lemma insertByDue_perm t l : insertByDue t l ≡ₚ t :: l.
Proof.
  induction l as [|t' l IH]; simpl; [reflexivity|].
  destruct (_ <? _); [reflexivity|]. rewrite IH. apply perm_swap.
Qed.

Lemma dueOrder_perm l : dueOrder l ≡ₚ l.
Proof.
  unfold dueOrder.
  assert (H : forall acc, foldl (fun acc t => insertByDue t acc) acc l ≡ₚ (acc ++ l)%list).
  { induction l as [|t l IH]; intros acc; simpl.
    - now rewrite app_nil_r.
    - rewrite IH, insertByDue_perm. simpl. apply Permutation_middle. }
  apply (H []).
Qed.

Lemma handleVideoError_throttle env now errorType failedUrl w :
  _isRecordSaveThrottled (player (handleVideoError env now errorType failedUrl w))
  = _isRecordSaveThrottled (player w).
Proof.
  unfold handleVideoError, selectNextSource, setDetail. simpl.
  destruct (detail (detailStore w)) as [d|]; simpl; [|reflexivity].
  match goal with
  | |- context [emitAll ?es ?w0] =>
      destruct (emitAll_frame es w0) as (Hp & _); generalize dependent (emitAll es w0)
  end.
  intros wt Hp. simpl in Hp.
  destruct (getNextAvailableSource _ _ _) as [fb|]; simpl; [|now rewrite Hp].
  destruct (isFavoritedLookup env _ _); simpl; [|now rewrite Hp].
  destruct (_ <? _); simpl; [|now rewrite Hp].
  destruct (nthZ _ _); simpl; now rewrite Hp.
Qed.

Lemma fireTimer_keeps_throttle env tm w :
  isThrottleTimer tm = false ->
  _isRecordSaveThrottled (player (fireTimer env tm w)) = _isRecordSaveThrottled (player w).
Proof.
  destruct tm as [id due now0 det cei| |due episodeIndex url]; [| discriminate |];
    intros _; simpl.
  - unfold bufferingTimedOut.
    destruct (status (player w)) as [[st|]|]; try reflexivity.
    destruct (_ && _); [|reflexivity].
    destruct (nthZ _ _); [|reflexivity].
    destruct (_ =? 0); [now destruct (_ <? _)|].
    destruct (_ =? 1); [reflexivity|].
    destruct (2 <=? _); [|reflexivity].
    now rewrite handleVideoError_throttle.
  - destruct (_ =? _); [|reflexivity].
    unfold _preloadAndTestSource, probeSource.
    repeat match goal with
           | |- context [match ?x with _ => _ end] => destruct x; simpl
           end; reflexivity.
Qed.

Lemma fireTimer_throttle_off env tm w :
  _isRecordSaveThrottled (player w) = false ->
  _isRecordSaveThrottled (player (fireTimer env tm w)) = false.
Proof.
  intros H. destruct (isThrottleTimer tm) eqn:Htm.
  - destruct tm; try discriminate. reflexivity.
  - now rewrite fireTimer_keeps_throttle.
Qed.

Lemma fire_all_throttle_off env l w :
  _isRecordSaveThrottled (player w) = false ->
  _isRecordSaveThrottled (player (foldl (fun w t => fireTimer env t w) w l)) = false.
Proof.
  revert w. induction l as [|tm l IH]; intros w H; simpl; [exact H|].
  apply IH. now apply fireTimer_throttle_off.
Qed.

(** X13.  Progress saves are throttled to one per ten seconds.  After a
    throttled save at [now] that went through, a throttled save at any
    [t1] before [now + 10000] changes nothing at all, and once the
    clock has reached [now + 10000] the throttle is lifted again,
    whatever other timers fire in between. *)
Theorem save_is_throttled (env : Env) (now t1 t2 : Z) (updates updates' : RecordUpdates)
    (w : World) :
  _isRecordSaveThrottled (player w) = false ->
  List.filter isThrottleTimer (timers w) = [] ->
  t1 < now + 10000 <= t2 ->
  let ws := _savePlayRecord now updates false w in
  _isRecordSaveThrottled (player ws) = true
  /\ _savePlayRecord t1 updates' false (advance env t1 ws) = advance env t1 ws
  /\ _isRecordSaveThrottled (player (advance env t2 ws)) = false.
Proof.
  intros Hoff Hnone [Ht1 Ht2].
  set (ws := _savePlayRecord now updates false w).
  assert (Hs : _isRecordSaveThrottled (player ws) = true
               /\ timers ws = (timers w ++ [ThrottleTimer (now + 10000)])%list).
  { subst ws. unfold _savePlayRecord. rewrite Hoff. simpl.
    destruct (detail (detailStore w)); [destruct (status (player w)) as [[|]|]|];
      now split. }
  clearbody ws. destruct Hs as [Hon Htimers]. cbv zeta.
  split; [exact Hon|]. split.
  - assert (Hflag : _isRecordSaveThrottled (player (advance env t1 ws)) = true).
    { unfold advance.
      set (w0 := mkWorld _ _ _ _ _ _).
      assert (H0 : _isRecordSaveThrottled (player w0) = true) by exact Hon.
      clearbody w0.
      assert (Hall : Forall (fun tm => isThrottleTimer tm = false)
                       (dueOrder (List.filter (fun t0 => timerDue t0 <=? t1) (timers ws)))).
      { rewrite dueOrder_perm, Htimers, List.filter_app. simpl.
        destruct (Z.leb_spec (now + 10000) t1); [lia|]. rewrite app_nil_r.
        apply Forall_forall. intros tm Hin. apply list_elem_of_In, filter_In in Hin.
        destruct Hin as [Hin _]. destruct (isThrottleTimer tm) eqn:Htm; [|reflexivity].
        assert (Hmem : In tm (List.filter isThrottleTimer (timers w)))
          by (apply filter_In; now split).
        rewrite Hnone in Hmem. destruct Hmem. }
      revert w0 H0. induction Hall as [|tm l Htm _ IH]; intros w0 H0; simpl; [exact H0|].
      apply IH. now rewrite fireTimer_keeps_throttle. }
    unfold _savePlayRecord. now rewrite Hflag.
  - unfold advance.
    set (w0 := mkWorld _ _ _ _ _ _). clearbody w0.
    assert (Hin : ThrottleTimer (now + 10000)
                  ∈ dueOrder (List.filter (fun t0 => timerDue t0 <=? t2) (timers ws))).
    { rewrite dueOrder_perm, Htimers, List.filter_app. simpl.
      destruct (Z.leb_spec (now + 10000) t2); [|lia].
      apply elem_of_app. right. apply list_elem_of_here. }
    revert w0 Hin.
    generalize (dueOrder (List.filter (fun t0 => timerDue t0 <=? t2) (timers ws))).
    intros l. induction l as [|tm l IH]; intros w0 Hin; [inversion Hin|].
    simpl. apply elem_of_cons in Hin. destruct Hin as [<- | Hin]; [|now apply IH].
    apply fire_all_throttle_off. reflexivity.
Qed.

Lemma save_is_throttled_witness :
  let ws := _savePlayRecord 1000 noUpdates false (Scenario.onlySource 1500) in
  _isRecordSaveThrottled (player ws) = true
  /\ _savePlayRecord 4000 noUpdates false (advance Scenario.quick 4000 ws)
     = advance Scenario.quick 4000 ws
  /\ _isRecordSaveThrottled (player (advance Scenario.quick 11000 ws)) = false.
Proof.
  apply (save_is_throttled Scenario.quick 1000 4000 11000 noUpdates noUpdates
           (Scenario.onlySource 1500)); [reflexivity | reflexivity | lia].
Defined.

(** X14.  The intro marker is a toggle that is persisted at once.  With
    no marker set, [setIntroEndTime] records the current position in
    the store and in the saved play record of the active detail; a
    second call clears both.  Neither save waits for the throttle of
    the progress saves. *)
Theorem setIntroEndTime_toggles (now now' : Z) (w : World) (d : SearchResult)
    (st : LoadedStatus) :
  detail (detailStore w) = Some d ->
  status (player w) = Some (Loaded st) ->
  truthyZ (introEndTime (player w)) = false ->
  positionMillis st <> 0 ->
  let saved := fun x : World =>
    PlayRecordManager_get (sr_source d) (sr_id d) (storage x) ≫= pr_introEndTime in
  let w1 := setIntroEndTime now w in
  let w2 := setIntroEndTime now' w1 in
  introEndTime (player w1) = Some (positionMillis st)
  /\ saved w1 = Some (positionMillis st)
  /\ introEndTime (player w2) = None
  /\ saved w2 = None.
Proof.
  intros Hd Hst Hunset Hpos. cbv zeta.
  assert (H1 : setIntroEndTime now w
               = emit (Toast "success" "设置成功" "片头时间已记录。")
                   (_savePlayRecord now
                      (mkRecordUpdates (Some (Some (positionMillis st))) None) true
                      (onPlayer (set_introEndTime (Some (positionMillis st))) w))).
  { unfold setIntroEndTime. now rewrite Hst, Hd, Hunset. }
  destruct (_savePlayRecord_storage now
              (mkRecordUpdates (Some (Some (positionMillis st))) None) true
              (onPlayer (set_introEndTime (Some (positionMillis st))) w) d st Hd Hst
              (or_introl eq_refl)) as (r1 & Hs1 & _ & Hi1 & _).
  set (wa := _savePlayRecord now _ true _) in *.
  assert (Hpa : introEndTime (player wa) = Some (positionMillis st)
                /\ status (player wa) = Some (Loaded st)
                /\ detail (detailStore wa) = Some d).
  { subst wa. unfold _savePlayRecord. simpl. rewrite Hd, Hst. now repeat split. }
  clearbody wa. destruct Hpa as (Hia & Hsta & Hda).
  rewrite H1. simpl.
  split; [exact Hia|]. split.
  { rewrite Hs1. unfold PlayRecordManager_get, PlayRecordManager_save. simpl.
    rewrite lookup_insert_eq. simpl. exact Hi1. }
  assert (Hset : truthyZ (Some (positionMillis st)) = true).
  { simpl. now destruct (Z.eqb_spec (positionMillis st) 0). }
  assert (H2 : setIntroEndTime now'
                 (emit (Toast "success" "设置成功" "片头时间已记录。") wa)
               = emit (Toast "info" "已清除片头时间" "")
                   (_savePlayRecord now' (mkRecordUpdates (Some None) None) true
                      (onPlayer (set_introEndTime None)
                         (emit (Toast "success" "设置成功" "片头时间已记录。") wa)))).
  { unfold setIntroEndTime. simpl. now rewrite Hsta, Hda, Hia, Hset. }
  rewrite H2. simpl.
  set (wb := onPlayer (set_introEndTime None)
               (emit (Toast "success" "设置成功" "片头时间已记录。") wa)).
  destruct (_savePlayRecord_storage now' (mkRecordUpdates (Some None) None) true
              wb d st Hda Hsta (or_introl eq_refl)) as (r2 & Hs2 & _ & Hi2 & _).
  split.
  { unfold _savePlayRecord. simpl. now rewrite Hda, Hsta. }
  rewrite Hs2. unfold PlayRecordManager_get, PlayRecordManager_save. simpl.
  rewrite lookup_insert_eq. simpl. exact Hi2.
Qed.

Lemma setIntroEndTime_toggles_witness :
  let d := Scenario.source_a in
  let saved := fun x : World =>
    PlayRecordManager_get (sr_source d) (sr_id d) (storage x) ≫= pr_introEndTime in
  let w1 := setIntroEndTime 1000 (Scenario.onlySource 61500) in
  let w2 := setIntroEndTime 2000 w1 in
  introEndTime (player w1) = Some 61500
  /\ saved w1 = Some 61500
  /\ introEndTime (player w2) = None
  /\ saved w2 = None.
Proof.
  apply (setIntroEndTime_toggles 1000 2000 (Scenario.onlySource 61500)
           Scenario.source_a (Scenario.playing 61500));
    [reflexivity | reflexivity | reflexivity | discriminate].
Defined.

(** X15.  The outro marker skips the credits.  After
    [setOutroStartTime] has set the marker at some position of an
    episode that is not the last one, the first status tick of the
    same duration at that position or later starts the next episode
    from its beginning instead of recording the tick. *)
Theorem outro_marker_advances (env : Env) (now t dur : Z) (w : World)
    (d : SearchResult) (st st' : LoadedStatus) :
  detail (detailStore w) = Some d ->
  status (player w) = Some (Loaded st) ->
  truthyZ (outroStartTime (player w)) = false ->
  durationMillis st = Some dur ->
  dur <> 0 ->
  dur - positionMillis st <> 0 ->
  durationMillis st' = Some dur ->
  positionMillis st <= positionMillis st' ->
  0 <= currentEpisodeIndex (player w) + 1 < lengthZ (episodes (player w)) ->
  let w1 := setOutroStartTime now w in
  let w2 := handlePlaybackStatusUpdate env t (Loaded st') w1 in
  outroStartTime (player w1) = Some (dur - positionMillis st)
  /\ currentEpisodeIndex (player w2) = currentEpisodeIndex (player w) + 1
  /\ initialPosition (player w2) = 0
  /\ Replay ∈ effects w2
  /\ status (player w2) = Some (Loaded st).
Proof.
  intros Hd Hst Hunset Hdur Hnz Hmark Hdur' Hpos Hnext. cbv zeta.
  set (w1 := setOutroStartTime now w).
  assert (H1 : outroStartTime (player w1) = Some (dur - positionMillis st)
               /\ currentEpisodeIndex (player w1) = currentEpisodeIndex (player w)
               /\ episodes (player w1) = episodes (player w)
               /\ status (player w1) = Some (Loaded st)).
  { subst w1. unfold setOutroStartTime. rewrite Hst, Hd, Hunset, Hdur.
    destruct (Z.eqb_spec dur 0); [contradiction|].
    unfold _savePlayRecord. simpl. rewrite Hd, Hst. now repeat split. }
  clearbody w1. destruct H1 as (Ho & Hc & He & Hs). split; [exact Ho|].
  cbn [handlePlaybackStatusUpdate].
  set (wd := detectBuffering t st' (player w1) (detail (detailStore w1)) w1).
  assert (Hwd : episodes (player wd) = episodes (player w)
                /\ status (player wd) = Some (Loaded st)).
  { subst wd. destruct (detectBuffering_player t st' (player w1) (detail (detailStore w1)) w1)
      as [_ ->]. split; [exact He|].
    unfold detectBuffering.
    repeat match goal with
           | |- context [if ?c then _ else _] => destruct c; simpl
           | |- context [match ?x with Some _ => _ | None => _ end] => destruct x; simpl
           end; exact Hs. }
  clearbody wd. destruct Hwd as [Hde Hds].
  unfold trackProgress. rewrite Ho, Hdur', Hc, He. simpl.
  destruct (Z.eqb_spec (dur - positionMillis st) 0); [contradiction|].
  destruct (Z.eqb_spec dur 0); [contradiction|]. simpl.
  destruct (Z.leb_spec (dur - (dur - positionMillis st)) (positionMillis st')); [|lia].
  destruct (Z.ltb_spec (currentEpisodeIndex (player w))
              (lengthZ (episodes (player w)) - 1)); [|lia].
  simpl. unfold playEpisode. rewrite Hde.
  destruct (Z.leb_spec 0 (currentEpisodeIndex (player w) + 1)); [|lia].
  destruct (Z.ltb_spec (currentEpisodeIndex (player w) + 1)
              (lengthZ (episodes (player w)))); [|lia].
  simpl. destruct (replayAsync env t); simpl; repeat split; try exact Hds.
  - apply list_elem_of_here.
  - apply list_elem_of_further, list_elem_of_here.
Qed.

Lemma outro_marker_advances_witness :
  let w := Scenario.onlySource 3000000 in
  let w1 := setOutroStartTime 1000 w in
  let w2 := handlePlaybackStatusUpdate Scenario.quick 2000
              (Loaded (Scenario.playing 3000500)) w1 in
  outroStartTime (player w1) = Some (3600000 - 3000000)
  /\ currentEpisodeIndex (player w2) = currentEpisodeIndex (player w) + 1
  /\ initialPosition (player w2) = 0
  /\ Replay ∈ effects w2
  /\ status (player w2) = Some (Loaded (Scenario.playing 3000000)).
Proof.
  apply (outro_marker_advances Scenario.quick 1000 2000 3600000
           (Scenario.onlySource 3000000) Scenario.source_a
           (Scenario.playing 3000000) (Scenario.playing 3000500));
    try reflexivity; try discriminate; vm_compute;
    first [discriminate | split; [discriminate | reflexivity]].
Defined.

(** X16.  [loadVideo] only reads the storage: whichever way it ends,
    through [DetailStore.init] or the cached detail, with or without a
    fallback, no play record and no player settings are written. *)
Theorem loadVideo_keeps_storage (env : Env) (now : Z) (o : LoadOptions) (w : World) :
  storage (loadVideo env now o w) = storage w.
Proof.
  destruct (loadVideo_restores env now o w) as [(d & eps & w' & -> & Hs) | [Hs _]];
    [exact Hs | exact Hs].
Qed.

Lemma lengthZ_nonempty {A} (l : list A) : l <> [] -> (lengthZ l =? 0) = false.
Proof.
  intros H. destruct l; [contradiction|]. unfold lengthZ. simpl length.
  apply Z.eqb_neq. lia.
Qed.

(** X17.  A negative episode index is not rejected.  When the detail
    of the title is already in the store with episodes, [loadVideo]
    with a negative index passes the length check, reads [undefined]
    from the episode list and fails on it before any handler is in
    place: the player is left with [isLoading] set and is otherwise
    unchanged, and nothing is probed. *)
Theorem loadVideo_negative_index (env : Env) (now : Z) (o : LoadOptions) (w : World)
    (d : SearchResult) :
  detail (detailStore w) = Some d ->
  sr_title d = lo_title o ->
  initialEpisodes o (detailStore w) <> [] ->
  lo_episodeIndex o < 0 ->
  loadVideo env now o w = onPlayer (set_isLoading true) w.
Proof.
  intros Hd Htitle Heps Hneg. unfold loadVideo. rewrite Hd.
  rewrite (lengthZ_nonempty _ Heps), Htitle, String.eqb_refl. simpl.
  unfold resolveCached. simpl detailStore.
  set (eps := if negb (sr_source d =? "")%string && negb (sr_source d =? lo_source o)%string
              then _ else _).
  assert (Hne : eps <> []).
  { subst eps. pose proof Heps as Hsel. unfold initialEpisodes in Hsel. rewrite Hd in Hsel.
    destruct (negb (sr_source d =? "")%string) eqn:Hsrc; simpl; [|exact Heps].
    destruct (negb (sr_source d =? lo_source o)%string); simpl; [|exact Heps].
    now rewrite (lengthZ_nonempty _ Hsel). }
  clearbody eps. rewrite (lengthZ_nonempty _ Hne).
  unfold preloadBlock.
  assert ((lo_episodeIndex o <? lengthZ eps) = true) as ->
    by (apply Z.ltb_lt; unfold lengthZ; lia).
  unfold nthZ. assert ((lo_episodeIndex o <? 0) = true) as -> by now apply Z.ltb_lt.
  reflexivity.
Qed.

Lemma loadVideo_negative_index_witness :
  loadVideo Scenario.quick 1000 (mkLoadOptions "a" "7" "Title" (-1) None)
    (Scenario.twoSources 0)
  = onPlayer (set_isLoading true) (Scenario.twoSources 0).
Proof.
  apply (loadVideo_negative_index Scenario.quick 1000
           (mkLoadOptions "a" "7" "Title" (-1) None) (Scenario.twoSources 0)
           Scenario.source_a); [reflexivity | reflexivity | discriminate | reflexivity].
Defined.

(** ** The video handlers *)

Lemma handleVideoError_failoverCount env now errorType failedUrl w :
  failoverCount (handleVideoError env now errorType failedUrl w) = S (failoverCount w).
Proof.
  unfold handleVideoError, selectNextSource, setDetail. simpl.
  destruct (detail (detailStore w)) as [d|]; simpl; [|reflexivity].
  set (w0 := onDetail (markSourceAsFailed (sr_source d))
               (emit (VideoErrorHandled errorType failedUrl) w)).
  assert (Htests : forall l : list SearchResult,
             failoverCount (emitAll (map (fun r => SpeedTest (sr_source r)) l) w0)
             = S (failoverCount w)).
  { intros l. unfold failoverCount. rewrite effects_emitAll, List.filter_app, length_app.
    assert (List.filter isVideoErrorHandled
              (rev (map (fun r => SpeedTest (sr_source r)) l)) = []) as ->; [|reflexivity].
    rewrite <- map_rev. induction (rev l) as [|x xs IH]; simpl; auto. }
  match goal with
  | |- context [emitAll (map _ ?l) w0] => specialize (Htests l)
  end.
  destruct (getNextAvailableSource _ _ _) as [fb|]; simpl; [|exact Htests].
  destruct (isFavoritedLookup env _ _); simpl; [|exact Htests].
  destruct (_ <? _); simpl; [|exact Htests].
  destruct (nthZ _ _); simpl; exact Htests.
Qed.

Lemma orZeroOf_own key (obj : gmap string Z) :
  inherited key = false ->
  orZeroOf (getProperty key obj) = Some (orZero (obj !! key)).
Proof.
  intros Hkey. unfold getProperty, orZero. rewrite Hkey.
  destruct (obj !! key) as [z|]; simpl; [|reflexivity].
  now destruct (z =? 0).
Qed.

Lemma onError_budget env now ep errorString h urlKey (c : Z) :
  failsUnder urlKey (VideoFailed (Some ep) errorString) = true ->
  inherited urlKey = false ->
  orZero (retryCountRef h !! urlKey) = c ->
  0 <= c <= 2 ->
  let h' := onError env now (Some ep) errorString h in
  (c < 2 ->
   failoverCount (stores h') = failoverCount (stores h)
   /\ orZero (retryCountRef h' !! urlKey) = c + 1)
  /\ (c = 2 ->
      failoverCount (stores h') = S (failoverCount (stores h))
      /\ orZero (retryCountRef h' !! urlKey) = 0).
Proof.
  intros Hf Hown Hc Hrange. simpl in Hf. apply andb_true_iff in Hf as [Hurl Hkey].
  apply String.eqb_eq in Hkey. apply negb_true_iff in Hurl.
  assert (Hproto : (urlKey =? "__proto__")%string = false).
  { destruct (String.eqb_spec urlKey "__proto__") as [->|]; [discriminate Hown | reflexivity]. }
  cbv zeta. unfold onError. rewrite Hurl, Hkey, (orZeroOf_own _ _ Hown), Hc. simpl.
  destruct (Z.leb_spec (c + 1) 2) as [Hle | Hgt]; split; intros Hlt; try lia.
  - simpl. unfold setProperty at 1. rewrite Hproto, lookup_insert_eq. split.
    + now destruct (_ && _).
    + unfold orZero. simpl. destruct (Z.eqb_spec (c + 1) 0); [lia | reflexivity].
  - simpl. rewrite lookup_delete_eq. split; [|reflexivity].
    rewrite handleVideoError_failoverCount.
    now destruct (match orZeroOf _ with Some _ => _ | None => _ end).
Qed.

(** X18.  The retry budget of the screen is two errors per URL key,
    and only a fail-over resets it.  Starting with no count for a key,
    among errors of episodes whose URLs share that key (the first 50
    characters), with retries in between that reload the video, every
    third error and no other invokes [handleVideoError]: after [n]
    errors there were [n / 3] fail-overs and the count stands at
    [n mod 3]. *)
Theorem every_third_error_fails_over (env : Env) (urlKey : string)
    (events : list (Z * ScreenEvent)) (h : Handlers) :
  inherited urlKey = false ->
  retryCountRef h !! urlKey = None ->
  Forall (fun e => failsUnder urlKey e.2 || retryKept e.2 = true) events ->
  let n := length (List.filter (fun e => failsUnder urlKey e.2) events) in
  let h' := runScreen env events h in
  failoverCount (stores h') = (failoverCount (stores h) + n / 3)%nat
  /\ orZero (retryCountRef h' !! urlKey) = Z.of_nat (n mod 3).
Proof.
  intros Hown Hnone Hall. cbv zeta.
  assert (Hgen : forall (h0 : Handlers) (c q r : nat),
             orZero (retryCountRef h0 !! urlKey) = Z.of_nat c ->
             (c <= 2)%nat -> (r < 3)%nat ->
             (c + length (List.filter (fun e => failsUnder urlKey e.2) events) = 3 * q + r)%nat ->
             failoverCount (stores (runScreen env events h0))
             = (failoverCount (stores h0) + q)%nat
             /\ orZero (retryCountRef (runScreen env events h0) !! urlKey) = Z.of_nat r).
  { clear Hnone h. unfold runScreen. induction Hall as [|[now e] events He _ IH];
      intros h0 c q r Hc Hle Hr Hsum; simpl in *.
    - split; [|rewrite Hc]; f_equal; lia.
    - destruct (failsUnder urlKey e) eqn:Hf; simpl in *.
      + destruct e as [[ep|] errorString | ]; try discriminate.
        change (handleScreen env now (VideoFailed (Some ep) errorString) h0)
          with (onError env now (Some ep) errorString h0).
        destruct (onError_budget env now ep errorString h0 urlKey (Z.of_nat c) Hf Hown Hc
                    ltac:(lia)) as [Hlow Hhigh].
        destruct (Nat.eq_dec c 2%nat) as [-> | Hne].
        * destruct (Hhigh eq_refl) as [Hcount Hzero].
          destruct q as [|q]; [lia|].
          destruct (IH (onError env now (Some ep) errorString h0) 0%nat q r Hzero
                      ltac:(lia) Hr ltac:(lia)) as [I1 I2].
          split; [rewrite I1, Hcount; lia | exact I2].
        * destruct (Hlow ltac:(lia)) as [Hcount Hnext].
          destruct (IH (onError env now (Some ep) errorString h0) (S c) q r
                      ltac:(rewrite Hnext; lia) ltac:(lia) Hr ltac:(lia)) as [I1 I2].
          split; [rewrite I1, Hcount; lia | exact I2].
      + destruct e as [|mounted reloaded]; [discriminate|]. simpl in He.
        assert (Hsame : retryCountRef (handleScreen env now (RetryTimerFired mounted reloaded) h0)
                        = retryCountRef h0
                        /\ stores (handleScreen env now (RetryTimerFired mounted reloaded) h0)
                           = stores h0).
        { simpl. destruct (retryTimerRef h0) as [rt|]; [|now split].
          destruct (_ <=? _); [|now split]. unfold retryTimedOut.
          destruct mounted; [|now split]. destruct reloaded; [now split | discriminate]. }
        destruct Hsame as [Hs1 Hs2].
        destruct (IH (handleScreen env now (RetryTimerFired mounted reloaded) h0) c q r
                    ltac:(now rewrite Hs1) Hle Hr Hsum) as [I1 I2].
        split; [now rewrite I1, Hs2 | exact I2]. }
  set (n := length (List.filter (fun e => failsUnder urlKey e.2) events)) in *.
  apply (Hgen h 0%nat (n / 3)%nat (n mod 3)%nat).
  - now rewrite Hnone.
  - lia.
  - apply Nat.mod_upper_bound. lia.
  - change (0 + n)%nat with n. apply Nat.div_mod_eq.
Qed.

Lemma every_third_error_fails_over_witness :
  let urlKey := "https://cdn.example.org/videos/series-one/season-1" in
  let n := length (List.filter (fun e => failsUnder urlKey e.2) Scenario.errorBurst) in
  let h' := runScreen Scenario.quick Scenario.errorBurst Scenario.screen in
  failoverCount (stores h') = (failoverCount (stores Scenario.screen) + n / 3)%nat
  /\ orZero (retryCountRef h' !! urlKey) = Z.of_nat (n mod 3).
Proof.
  apply (every_third_error_fails_over Scenario.quick
           "https://cdn.example.org/videos/series-one/season-1"
           Scenario.errorBurst Scenario.screen).
  - reflexivity.
  - reflexivity.
  - repeat constructor.
Defined.

(** X25.  A URL key that names a property of [Object.prototype] has no
    retry budget.  For such a key with no count of its own, [onError]
    reads the inherited property, the count it computes is not a
    number, and the first error already invokes [handleVideoError]; no
    count is left behind and no retry is pending. *)
Theorem onError_prototype_key (env : Env) (now : Z) (ep : Episode)
    (errorString : string) (h : Handlers) :
  ep_url ep <> "" ->
  inherited (substring0 50 (ep_url ep)) = true ->
  retryCountRef h !! substring0 50 (ep_url ep) = None ->
  let h' := onError env now (Some ep) errorString h in
  failoverCount (stores h') = S (failoverCount (stores h))
  /\ retryCountRef h' !! substring0 50 (ep_url ep) = None
  /\ retryTimerRef h' = None.
Proof.
  intros Hurl Hkey Hnone. cbv zeta. unfold onError.
  destruct (String.eqb_spec (ep_url ep) ""); [contradiction|].
  assert (Hcount : orZeroOf (getProperty (substring0 50 (ep_url ep)) (retryCountRef h))
                   = None)
    by (unfold getProperty; now rewrite Hnone, Hkey).
  rewrite Hcount. simpl.
  rewrite lookup_delete_eq, handleVideoError_failoverCount.
  split; [|now split].
  now destruct (match orZeroOf _ with Some _ => _ | None => _ end).
Qed.

Lemma onError_prototype_key_witness :
  let ep := mkEpisode "constructor" "1" in
  let h' := onError Scenario.quick 5000 (Some ep) "java.io.IOException" Scenario.screen in
  failoverCount (stores h') = S (failoverCount (stores Scenario.screen))
  /\ retryCountRef h' !! substring0 50 (ep_url ep) = None
  /\ retryTimerRef h' = None.
Proof.
  apply (onError_prototype_key Scenario.quick 5000 (mkEpisode "constructor" "1")
           "java.io.IOException" Scenario.screen);
    [discriminate | reflexivity | reflexivity].
Defined.



(** ** Speed tests *)

(** X20.  A measured source is not measured again for ten minutes.
    Once [measureNetworkSpeed] has recorded a non-zero latency for a
    source, a source selection within ten minutes of the measurement
    starts no speed test for that source. *)
Theorem measured_source_not_retested (now t : Z) (currentSource source : string)
    (episodeIndex latency : Z) (w : World) :
  latency <> 0 ->
  now <> 0 ->
  t - now <= 10 * 60 * 1000 ->
  let w1 := onDetail (recordNetworkSpeed now source latency) w in
  let w2 := (selectNextSource t currentSource episodeIndex w1).2 in
  speedTestsOf source w2 = speedTestsOf source w.
Proof.
  intros Hlat Hnow Hfresh. cbv zeta. unfold selectNextSource, speedTestsOf. simpl.
  rewrite effects_emitAll, List.filter_app, length_app. simpl.
  match goal with
  | |- (length (List.filter _ (rev (map _ ?l))) + _)%nat = _ =>
      assert (Hall : Forall (fun r => sr_source r <> source) l)
  end.
  { apply Forall_forall. intros r Hin Hsrc.
    apply list_elem_of_In, filter_In in Hin as [Hin Hneeds].
    unfold availableSources in Hin. apply filter_In in Hin as [Hin _].
    unfold recordNetworkSpeed in Hin. simpl in Hin.
    apply in_map_iff in Hin as (x & Hx & _).
    destruct (String.eqb_spec (sr_source x) source) as [Heq | Hne].
    - subst r. unfold needsSpeedTest in Hneeds. simpl in Hneeds.
      destruct (Z.eqb_spec latency 0); [contradiction|].
      destruct (Z.eqb_spec now 0); [contradiction|]. simpl in Hneeds.
      apply Z.ltb_lt in Hneeds. lia.
    - subst r. contradiction. }
  match goal with
  | |- (length (List.filter _ (rev (map _ ?l0))) + _)%nat = _ =>
      induction Hall as [|r l Hr Hall IH]; simpl; [reflexivity|]
  end.
  rewrite List.filter_app, length_app. simpl.
  destruct (String.eqb_spec (sr_source r) source); [contradiction|]. simpl.
  rewrite Nat.add_0_r. now apply IH.
Qed.

Lemma measured_source_not_retested_witness :
  let w1 := onDetail (recordNetworkSpeed 1000 "b" 350) (Scenario.twoSources 30000) in
  let w2 := (selectNextSource 500000 "a" 0 w1).2 in
  speedTestsOf "b" w2 = speedTestsOf "b" (Scenario.twoSources 30000).
Proof.
  apply (measured_source_not_retested 1000 500000 "a" "b" 0 350 (Scenario.twoSources 30000));
    [discriminate | discriminate | lia].
Defined.

(** ** The search cache *)

Section SearchCache.

Variable Result : Type.
Variable maxCacheItems cacheTimeout : Z.
Variable toLowerCase : string -> string.

Lemma Map_get_set key value (m : SearchCacheManager.Cache Result) :
  SearchCacheManager.Map_get key (SearchCacheManager.Map_set key value m) = Some value.
Proof.
  unfold SearchCacheManager.Map_get.
  induction m as [|[k v] m IH]; simpl.
  - now rewrite String.eqb_refl.
  - destruct (String.eqb_spec k key) as [->|Hne]; simpl.
    + now rewrite String.eqb_refl.
    + destruct (String.eqb_spec k key); [contradiction | exact IH].
Qed.

Lemma Map_get_set_ne key key' value (m : SearchCacheManager.Cache Result) :
  key' <> key ->
  SearchCacheManager.Map_get key' (SearchCacheManager.Map_set key value m)
  = SearchCacheManager.Map_get key' m.
Proof.
  intros Hne. unfold SearchCacheManager.Map_get.
  induction m as [|[k v] m IH]; simpl.
  - destruct (String.eqb_spec key key'); [congruence | reflexivity].
  - destruct (String.eqb_spec k key) as [->|Hk]; simpl.
    + destruct (String.eqb_spec key key'); [congruence | reflexivity].
    + destruct (String.eqb_spec k key'); [reflexivity | exact IH].
Qed.

Lemma Map_get_delete key (m : SearchCacheManager.Cache Result) :
  SearchCacheManager.Map_get key (SearchCacheManager.Map_delete key m) = None.
Proof.
  unfold SearchCacheManager.Map_get, SearchCacheManager.Map_delete.
  induction m as [|[k v] m IH]; simpl; [reflexivity|].
  destruct (String.eqb_spec k key) as [->|Hk]; simpl; [exact IH|].
  destruct (String.eqb_spec k key); [contradiction | exact IH].
Qed.

Lemma Map_get_delete_ne key key' (m : SearchCacheManager.Cache Result) :
  key' <> key ->
  SearchCacheManager.Map_get key' (SearchCacheManager.Map_delete key m)
  = SearchCacheManager.Map_get key' m.
Proof.
  intros Hne. unfold SearchCacheManager.Map_get, SearchCacheManager.Map_delete.
  induction m as [|[k v] m IH]; simpl; [reflexivity|].
  destruct (String.eqb_spec k key) as [->|Hk]; simpl.
  - destruct (String.eqb_spec key key'); [congruence | exact IH].
  - destruct (String.eqb_spec k key'); [reflexivity | exact IH].
Qed.

Lemma Map_get_Some key c (m : SearchCacheManager.Cache Result) :
  NoDup (SearchCacheManager.keys m) -> (key, c) ∈ m ->
  SearchCacheManager.Map_get key m = Some c.
Proof.
  unfold SearchCacheManager.Map_get, SearchCacheManager.keys.
  induction m as [|[k v] m IH]; simpl; intros Hnd Hin; [now apply elem_of_nil in Hin|].
  apply NoDup_cons in Hnd as [Hk Hnd]. apply elem_of_cons in Hin as [Heq | Hin].
  - injection Heq as -> ->. now rewrite String.eqb_refl.
  - destruct (String.eqb_spec k key) as [->|Hne]; [|now apply IH].
    exfalso. apply Hk. apply list_elem_of_fmap. now exists (key, c).
Qed.

Lemma Map_get_elem key c (m : SearchCacheManager.Cache Result) :
  SearchCacheManager.Map_get key m = Some c -> (key, c) ∈ m.
Proof.
  unfold SearchCacheManager.Map_get.
  destruct (List.find _ m) as [[k v]|] eqn:Hfind; [|discriminate].
  intros [= <-]. apply find_some in Hfind as [Hin Hk]. simpl in Hk.
  apply String.eqb_eq in Hk. subst k. now apply list_elem_of_In.
Qed.

(** X21.  What the cache stores it gives back until it expires.  After
    [set] at [now], at any size of the cache, [get] of the same query
    returns exactly the entry stored as long as less than
    [cacheTimeout] has passed; from then on it returns null and
    removes the entry, leaving the other queries as they are. *)
Theorem set_then_get (cache : SearchCacheManager.Cache Result) (now t1 t2 : Z)
    (query : string) (results : list Result) (total : Z) :
  t1 - now < cacheTimeout <= t2 - now ->
  let cache' := SearchCacheManager.set maxCacheItems now query results total cache in
  SearchCacheManager.get cacheTimeout t1 query cache'
  = (Some (SearchCacheManager.mkSearchCache query results total now), cache')
  /\ (SearchCacheManager.get cacheTimeout t2 query cache').1 = None
  /\ SearchCacheManager.Map_get query
       (SearchCacheManager.get cacheTimeout t2 query cache').2 = None
  /\ (forall query', query' <> query ->
        SearchCacheManager.Map_get query'
          (SearchCacheManager.get cacheTimeout t2 query cache').2
        = SearchCacheManager.Map_get query' cache').
Proof.
  intros [Hfresh Hexpired]. cbv zeta.
  unfold SearchCacheManager.get, SearchCacheManager.set.
  rewrite Map_get_set. simpl.
  destruct (Z.ltb_spec (t1 - now) cacheTimeout); [|lia].
  destruct (Z.ltb_spec (t2 - now) cacheTimeout); [lia|]. simpl.
  split; [reflexivity|]. split; [reflexivity|].
  split; [apply Map_get_delete|]. intros query' Hne. now apply Map_get_delete_ne.
Qed.

Lemma length_Map_set key value (m : SearchCacheManager.Cache Result) :
  lengthZ (SearchCacheManager.Map_set key value m) <= lengthZ m + 1.
Proof.
  unfold lengthZ. induction m as [|[k v] m IH]; simpl length; [simpl; lia|].
  simpl. destruct (String.eqb k key); simpl length; lia.
Qed.

Lemma length_Map_delete key (m : SearchCacheManager.Cache Result) :
  lengthZ (SearchCacheManager.Map_delete key m) <= lengthZ m.
Proof.
  unfold lengthZ, SearchCacheManager.Map_delete.
  pose proof (filter_length_le
                (fun kv : string * SearchCacheManager.SearchCache Result =>
                   negb (String.eqb kv.1 key)) m).
  lia.
Qed.

Lemma keys_Map_delete key (m : SearchCacheManager.Cache Result) :
  SearchCacheManager.keys (SearchCacheManager.Map_delete key m)
  = List.filter (fun k => negb (String.eqb k key)) (SearchCacheManager.keys m).
Proof.
  unfold SearchCacheManager.keys, SearchCacheManager.Map_delete.
  induction m as [|[k v] m IH]; simpl; [reflexivity|].
  destruct (String.eqb k key); simpl; now rewrite IH.
Qed.

Lemma NoDup_Map_delete key (m : SearchCacheManager.Cache Result) :
  NoDup (SearchCacheManager.keys m) ->
  NoDup (SearchCacheManager.keys (SearchCacheManager.Map_delete key m)).
Proof.
  intros H. rewrite keys_Map_delete. apply NoDup_ListNoDup, List.NoDup_filter.
  now apply NoDup_ListNoDup.
Qed.

Lemma keys_Map_set key value (m : SearchCacheManager.Cache Result) :
  SearchCacheManager.keys (SearchCacheManager.Map_set key value m)
  = SearchCacheManager.keys m
  \/ ((key ∉ SearchCacheManager.keys m)
      /\ SearchCacheManager.keys (SearchCacheManager.Map_set key value m)
         = (SearchCacheManager.keys m ++ [key])%list).
Proof.
  unfold SearchCacheManager.keys. induction m as [|[k v] m IH]; simpl.
  - right. split; [apply not_elem_of_nil | reflexivity].
  - destruct (String.eqb_spec k key) as [->|Hne]; simpl; [now left|].
    destruct IH as [-> | [Hnot ->]]; [now left|].
    right. split; [|reflexivity]. apply not_elem_of_cons. split; [congruence | exact Hnot].
Qed.

Lemma NoDup_Map_set key value (m : SearchCacheManager.Cache Result) :
  NoDup (SearchCacheManager.keys m) ->
  NoDup (SearchCacheManager.keys (SearchCacheManager.Map_set key value m)).
Proof.
  intros H. destruct (keys_Map_set key value m) as [-> | [Hnot ->]]; [exact H|].
  apply NoDup_app. split; [exact H|]. split; [|apply NoDup_singleton].
  intros x Hx Hin. apply list_elem_of_singleton in Hin. now subst x.
Qed.

Lemma Forall_Map_set (P : string * SearchCacheManager.SearchCache Result -> Prop)
    key value (m : SearchCacheManager.Cache Result) :
  P (key, value) -> Forall P m -> Forall P (SearchCacheManager.Map_set key value m).
Proof.
  intros Hp. induction 1 as [|[k v] m Hkv Hm IH]; simpl; [now repeat constructor|].
  destruct (String.eqb k key); constructor; assumption.
Qed.

Lemma Forall_Map_delete (P : string * SearchCacheManager.SearchCache Result -> Prop)
    key (m : SearchCacheManager.Cache Result) :
  Forall P m -> Forall P (SearchCacheManager.Map_delete key m).
Proof.
  intros H. unfold SearchCacheManager.Map_delete.
  apply Forall_forall. intros kv Hin. apply list_elem_of_In, filter_In in Hin as [Hin _].
  apply (proj1 (Forall_forall _ _) H). now apply list_elem_of_In.
Qed.

Lemma get_wellFormed now query (cache : SearchCacheManager.Cache Result) :
  SearchCacheManager.wellFormed maxCacheItems cache ->
  SearchCacheManager.wellFormed maxCacheItems
    (SearchCacheManager.get cacheTimeout now query cache).2.
Proof.
  intros (Hlen & Hnd & Hq). unfold SearchCacheManager.get.
  destruct (SearchCacheManager.Map_get query cache) as [c|];
    [|split; [exact Hlen | split; [exact Hnd | exact Hq]]].
  destruct (_ <? _); simpl; [split; [exact Hlen | split; [exact Hnd | exact Hq]]|].
  split; [pose proof (length_Map_delete query cache); lia|].
  split; [now apply NoDup_Map_delete | now apply Forall_Map_delete].
Qed.

Lemma set_wellFormed now query results total (cache : SearchCacheManager.Cache Result) :
  1 <= maxCacheItems ->
  SearchCacheManager.wellFormed maxCacheItems cache ->
  SearchCacheManager.wellFormed maxCacheItems
    (SearchCacheManager.set maxCacheItems now query results total cache).
Proof.
  intros Hmax (Hlen & Hnd & Hq). unfold SearchCacheManager.set.
  set (cache1 := if maxCacheItems <=? lengthZ cache then _ else cache).
  assert (H1 : lengthZ cache1 <= maxCacheItems - 1
               /\ NoDup (SearchCacheManager.keys cache1)
               /\ Forall (fun kv => SearchCacheManager.sc_query kv.2 = kv.1) cache1).
  { subst cache1.
    destruct (Z.leb_spec maxCacheItems (lengthZ cache)); [|split; [lia | now split]].
    destruct cache as [|[k v] rest]; [unfold lengthZ in *; simpl in *; lia|].
    split; [|split].
    - unfold SearchCacheManager.Map_delete. simpl. rewrite String.eqb_refl. simpl.
      pose proof (length_Map_delete k rest) as Hd.
      unfold SearchCacheManager.Map_delete in Hd.
      unfold lengthZ in *. simpl length in *. lia.
    - now apply NoDup_Map_delete.
    - now apply Forall_Map_delete. }
  clearbody cache1. destruct H1 as (H1 & H2 & H3).
  split; [|split].
  - pose proof (length_Map_set query
                  (SearchCacheManager.mkSearchCache query results total now) cache1).
    lia.
  - now apply NoDup_Map_set.
  - now apply Forall_Map_set.
Qed.

(** X22.  The cache of the search screen stays within its bound.  From
    a new manager, after any calls of [get], [set], [findSimilarCache]
    and [clear] at any times, the cache holds at most [maxCacheItems]
    entries, no query twice, each entry under its own query. *)
Theorem calls_wellFormed (cs : list (Z * SearchCacheManager.Call Result)) :
  1 <= maxCacheItems ->
  let cache := SearchCacheManager.calls maxCacheItems cacheTimeout toLowerCase cs in
  lengthZ cache <= maxCacheItems
  /\ NoDup (SearchCacheManager.keys cache)
  /\ Forall (fun kv => SearchCacheManager.sc_query kv.2 = kv.1) cache.
Proof.
  intros Hmax. cbv zeta. unfold SearchCacheManager.calls.
  assert (Hgen : forall cache : SearchCacheManager.Cache Result,
             SearchCacheManager.wellFormed maxCacheItems cache ->
             SearchCacheManager.wellFormed maxCacheItems
               (foldl (fun cache c =>
                         SearchCacheManager.call maxCacheItems cacheTimeout toLowerCase
                           c.1 c.2 cache) cache cs)).
  { induction cs as [|[now c] cs' IH]; intros cache Hwf; simpl; [exact Hwf|].
    apply IH. destruct c as [query | query results total | query |]; simpl.
    - now apply get_wellFormed.
    - now apply set_wellFormed.
    - unfold SearchCacheManager.findSimilarCache.
      pose proof (get_wellFormed now query cache Hwf) as Hg.
      destruct (SearchCacheManager.get cacheTimeout now query cache) as [[c|] cache1];
        exact Hg.
    - split; [unfold lengthZ; simpl; lia|]. split; [apply NoDup_nil_2 | constructor]. }
  apply Hgen. split; [unfold lengthZ; simpl; lia|]. split; [apply NoDup_nil_2 | constructor].
Qed.

Lemma Map_delete_absent key (m : SearchCacheManager.Cache Result) :
  key ∉ SearchCacheManager.keys m -> SearchCacheManager.Map_delete key m = m.
Proof.
  unfold SearchCacheManager.keys, SearchCacheManager.Map_delete.
  induction m as [|[k v] m IH]; simpl; intros Hnot; [reflexivity|].
  apply not_elem_of_cons in Hnot as [Hne Hnot].
  destruct (String.eqb_spec k key); [congruence|]. simpl. now rewrite IH.
Qed.

Lemma Map_get_absent key (m : SearchCacheManager.Cache Result) :
  key ∉ SearchCacheManager.keys m -> SearchCacheManager.Map_get key m = None.
Proof.
  intros Hnot. destruct (SearchCacheManager.Map_get key m) as [c|] eqn:Hget; [|reflexivity].
  exfalso. apply Hnot. apply Map_get_elem in Hget.
  unfold SearchCacheManager.keys. apply list_elem_of_fmap. now exists (key, c).
Qed.

(** X23.  Caching a query again costs the oldest entry.  When the
    cache is full, [set] of a query that is already in it, and is not
    the oldest, still deletes the oldest entry before it replaces the
    entry of the query: the cache shrinks by one. *)
Theorem set_again_evicts_oldest (oldestKey : string)
    (oldest : SearchCacheManager.SearchCache Result)
    (rest : SearchCacheManager.Cache Result) (now : Z) (query : string)
    (results : list Result) (total : Z) :
  NoDup (SearchCacheManager.keys ((oldestKey, oldest) :: rest)) ->
  maxCacheItems <= lengthZ ((oldestKey, oldest) :: rest) ->
  query ∈ SearchCacheManager.keys rest ->
  let cache' :=
    SearchCacheManager.set maxCacheItems now query results total
      ((oldestKey, oldest) :: rest) in
  SearchCacheManager.Map_get oldestKey cache' = None
  /\ lengthZ cache' = lengthZ ((oldestKey, oldest) :: rest) - 1
  /\ SearchCacheManager.Map_get query cache'
     = Some (SearchCacheManager.mkSearchCache query results total now).
Proof.
  intros Hnd Hfull Hin. cbv zeta. unfold SearchCacheManager.set.
  destruct (Z.leb_spec maxCacheItems (lengthZ ((oldestKey, oldest) :: rest))); [|lia].
  change (SearchCacheManager.keys ((oldestKey, oldest) :: rest))
    with (oldestKey :: SearchCacheManager.keys rest) in Hnd.
  apply NoDup_cons in Hnd as [Hnot Hnd].
  assert (Hdel : SearchCacheManager.Map_delete oldestKey ((oldestKey, oldest) :: rest) = rest).
  { unfold SearchCacheManager.Map_delete. simpl. rewrite String.eqb_refl. simpl.
    now apply Map_delete_absent. }
  rewrite Hdel. split; [|split].
  - rewrite Map_get_set_ne; [now apply Map_get_absent | congruence].
  - destruct (keys_Map_set query
                (SearchCacheManager.mkSearchCache query results total now) rest)
      as [Hk | [Hk _]]; [|contradiction].
    apply (f_equal length) in Hk. unfold SearchCacheManager.keys in Hk.
    rewrite !length_map in Hk. unfold lengthZ. simpl length. lia.
  - apply Map_get_set.
Qed.

(** X24.  What [findSimilarCache] returns.  With no query twice in the
    cache: a fresh entry of the query itself is returned before any
    other; whatever is returned is a fresh entry of the cache, stored
    under the query or under a query that contains it or is contained
    in it, case apart; and null is returned only when the cache holds
    no fresh entry under such a query. *)
Theorem findSimilarCache_finds (now : Z) (query : string)
    (cache : SearchCacheManager.Cache Result) :
  NoDup (SearchCacheManager.keys cache) ->
  let fresh := fun c : SearchCacheManager.SearchCache Result =>
    now - SearchCacheManager.sc_timestamp c < cacheTimeout in
  let found :=
    (SearchCacheManager.findSimilarCache cacheTimeout toLowerCase now query cache).1 in
  (forall c, SearchCacheManager.Map_get query cache = Some c -> fresh c -> found = Some c)
  /\ (forall c, found = Some c ->
        fresh c
        /\ exists k, (k, c) ∈ cache
             /\ (k = query \/ SearchCacheManager.similar toLowerCase query k = true))
  /\ (forall k c, (k, c) ∈ cache -> fresh c ->
        SearchCacheManager.similar toLowerCase query k = true -> is_Some found).
Proof.
  intros Hnd. cbv zeta.
  unfold SearchCacheManager.findSimilarCache, SearchCacheManager.get.
  split; [|split].
  - intros c Hget Hfresh. rewrite Hget.
    destruct (Z.ltb_spec (now - SearchCacheManager.sc_timestamp c) cacheTimeout); [|lia].
    reflexivity.
  - intros c.
    assert (Hfind : forall cache1 : SearchCacheManager.Cache Result,
               (forall kv, In kv cache1 -> kv ∈ cache) ->
               snd <$> List.find
                         (fun kv : string * SearchCacheManager.SearchCache Result =>
                            (now - SearchCacheManager.sc_timestamp kv.2 <? cacheTimeout)
                            && SearchCacheManager.similar toLowerCase query kv.1)
                         cache1 = Some c ->
               now - SearchCacheManager.sc_timestamp c < cacheTimeout
               /\ exists k, (k, c) ∈ cache
                    /\ (k = query \/ SearchCacheManager.similar toLowerCase query k = true)).
    { intros cache1 Hsub Hsome.
      destruct (List.find _ cache1) as [[k v]|] eqn:Hf; [|discriminate].
      injection Hsome as ->. apply find_some in Hf as [Hin Hp]. simpl in Hp.
      apply andb_true_iff in Hp as [Hfr Hsim]. apply Z.ltb_lt in Hfr.
      split; [exact Hfr|]. exists k. split; [now apply Hsub | now right]. }
    destruct (SearchCacheManager.Map_get query cache) as [cached|] eqn:Hget.
    + destruct (Z.ltb_spec (now - SearchCacheManager.sc_timestamp cached) cacheTimeout);
        simpl.
      * intros [= <-]. split; [assumption|]. exists query.
        split; [now apply Map_get_elem | now left].
      * apply Hfind. intros kv Hin. unfold SearchCacheManager.Map_delete in Hin.
        apply filter_In in Hin as [Hin _]. now apply list_elem_of_In.
    + simpl. apply Hfind. intros kv Hin. now apply list_elem_of_In.
  - intros k c Hin Hfresh Hsim.
    assert (Hfind : forall cache1 : SearchCacheManager.Cache Result,
               In (k, c) cache1 ->
               is_Some (snd <$> List.find
                          (fun kv : string * SearchCacheManager.SearchCache Result =>
                             (now - SearchCacheManager.sc_timestamp kv.2 <? cacheTimeout)
                             && SearchCacheManager.similar toLowerCase query kv.1)
                          cache1)).
    { intros cache1 Hin1. destruct (List.find _ cache1) as [kv|] eqn:Hf; [now eexists|].
      exfalso. apply (find_none _ _ Hf) in Hin1. simpl in Hin1.
      rewrite Hsim, andb_true_r in Hin1. apply Z.ltb_ge in Hin1. lia. }
    destruct (SearchCacheManager.Map_get query cache) as [cached|] eqn:Hget.
    + destruct (Z.ltb_spec (now - SearchCacheManager.sc_timestamp cached) cacheTimeout);
        simpl; [now eexists|].
      apply Hfind. unfold SearchCacheManager.Map_delete. apply filter_In.
      split; [now apply list_elem_of_In|]. simpl.
      destruct (String.eqb_spec k query) as [-> | Hne]; [|reflexivity].
      exfalso. rewrite (Map_get_Some query c cache Hnd Hin) in Hget.
      injection Hget as <-. lia.
    + simpl. apply Hfind. now apply list_elem_of_In.
Qed.

End SearchCache.

Lemma set_then_get_witness :
  let cache' := SearchCacheManager.set 15 3000 "Heat" ["Heat"] 1 Scenario.twoSearches in
  SearchCacheManager.get 600000 4000 "Heat" cache'
  = (Some (SearchCacheManager.mkSearchCache "Heat" ["Heat"] 1 3000), cache')
  /\ (SearchCacheManager.get 600000 700000 "Heat" cache').1 = None
  /\ SearchCacheManager.Map_get "Heat"
       (SearchCacheManager.get 600000 700000 "Heat" cache').2 = None
  /\ (forall query', query' <> "Heat" ->
        SearchCacheManager.Map_get query'
          (SearchCacheManager.get 600000 700000 "Heat" cache').2
        = SearchCacheManager.Map_get query' cache').
Proof.
  apply (set_then_get string 15 600000 Scenario.twoSearches 3000 4000 700000
           "Heat" ["Heat"] 1). lia.
Defined.

Lemma calls_wellFormed_witness :
  let cache := SearchCacheManager.calls 15 600000 Scenario.toLowerCase Scenario.searching in
  lengthZ cache <= 15
  /\ NoDup (SearchCacheManager.keys cache)
  /\ Forall (fun kv => SearchCacheManager.sc_query kv.2 = kv.1) cache.
Proof.
  apply (calls_wellFormed string 15 600000 Scenario.toLowerCase Scenario.searching). lia.
Defined.

Lemma set_again_evicts_oldest_witness :
  let cache' :=
    SearchCacheManager.set 2 3000 "Alien" ["Alien"; "Aliens"] 2 Scenario.twoSearches in
  SearchCacheManager.Map_get "Dune" cache' = None
  /\ lengthZ cache' = lengthZ Scenario.twoSearches - 1
  /\ SearchCacheManager.Map_get "Alien" cache'
     = Some (SearchCacheManager.mkSearchCache "Alien" ["Alien"; "Aliens"] 2 3000).
Proof.
  apply (set_again_evicts_oldest string 2 "Dune" (Scenario.cached "Dune" 1000)
           [("Alien", Scenario.cached "Alien" 2000)] 3000 "Alien" ["Alien"; "Aliens"] 2).
  - apply (bool_decide_unpack _). vm_compute. exact I.
  - unfold lengthZ. simpl. lia.
  - apply (bool_decide_unpack _). vm_compute. exact I.
Defined.

Lemma findSimilarCache_finds_witness :
  let fresh := fun c : SearchCacheManager.SearchCache string =>
    5000 - SearchCacheManager.sc_timestamp c < 600000 in
  let found :=
    (SearchCacheManager.findSimilarCache 600000 Scenario.toLowerCase 5000
       "dune part two" Scenario.twoSearches).1 in
  (forall c, SearchCacheManager.Map_get "dune part two" Scenario.twoSearches = Some c ->
             fresh c -> found = Some c)
  /\ (forall c, found = Some c ->
        fresh c
        /\ exists k, (k, c) ∈ Scenario.twoSearches
             /\ (k = "dune part two"
                 \/ SearchCacheManager.similar Scenario.toLowerCase "dune part two" k = true))
  /\ (forall k c, (k, c) ∈ Scenario.twoSearches -> fresh c ->
        SearchCacheManager.similar Scenario.toLowerCase "dune part two" k = true ->
        is_Some found).
Proof.
  apply (findSimilarCache_finds string 600000 Scenario.toLowerCase 5000 "dune part two"
           Scenario.twoSearches).
  apply (bool_decide_unpack _). vm_compute. exact I.
Defined.
